(** * Umbrella-sampling PMF example (umbrella-sampling-kldiverge.py)

    A shallow embedding of the script's data preparation and method loop:
    torsion ingestion and wrapping, subsampling, energy rezeroing, the bin
    grid, the reduced-energy matrix u_kln, the bias potential and its
    closure list, and the loop over PMF methods up to the call of the
    posterior sampler.

    Numbers.  The script computes in binary64.  Every definition below is
    written once, over an arithmetic interface [Arith], and read at two
    instances: [Q] (the same operations without rounding) and [float]
    (Rocq's primitive binary64, the arithmetic the script runs on).
    Statements that are bare equalities between the script's own
    expressions are proved for every instance; statements that need the
    laws of arithmetic are proved at [Q], and those about the wrap of the
    torsions and the rezeroing of the energies at [float] as well, from the
    Standard Library's specification of binary64 (Floats.SpecFloat, and
    the axioms that tie the primitive operations to it).

    Arrays are lists read and written by index; an index out of range,
    which numpy and Python answer with an exception, is [Raise].  The PMF
    object of pymbar is outside the script: its calls are recorded in a
    trace and its answers are a function of the calls made so far.  The
    subsampler of pymbar's [timeseries] module is outside the script too:
    its two functions are parameters, which return or raise. *)

From Stdlib Require Import ZArith QArith Qabs Qminmax Qround Floats String Ascii List Lia Lqa.
From stdpp Require Import base list strings gmap.

(** ** Outcomes of a script fragment *)

(** [ParameterError] is the exception of pymbar's own modules. *)
Inductive exn := IndexError | ValueError | NameError | KeyError | ParameterError.

(** [OutOfFuel]: a [while] loop was still running when the step budget of
    the model ran out. *)
Inductive res (A : Type) : Type :=
  | Ok (a : A)
  | Raise (e : exn)
  | OutOfFuel.
Arguments Ok {A} a.
Arguments Raise {A} e.
Arguments OutOfFuel {A}.

#[export] Instance res_bind : MBind res := fun A B f m =>
  match m with
  | Ok a => f a
  | Raise e => Raise e
  | OutOfFuel => OutOfFuel
  end.
#[export] Instance res_ret : MRet res := fun A a => Ok a.

(** [a[i]] for a list used as an array. *)
Definition index {A} (a : list A) (i : nat) : res A :=
  match a !! i with
  | Some x => Ok x
  | None => Raise IndexError
  end.

(** [for x in xs: s = body(x, s)] *)
Fixpoint for_each {X S} (xs : list X) (body : X -> S -> res S) (s : S) : res S :=
  match xs with
  | [] => Ok s
  | x :: xs' => s' ← body x s; for_each xs' body s'
  end.

(** [for i in range(n): s = body(i, s)] *)
Definition for_range {S} (n : nat) (body : nat -> S -> res S) (s : S) : res S :=
  for_each (seq 0 n) body s.

(** ** The arithmetic of the script *)

Class Arith (F : Type) := {
  lit : Z -> F;                 (* a literal with an integral value: 360.0, 2.0, 0 *)
  half : F;                     (* the literal 0.5 *)
  add : F -> F -> F;
  sub : F -> F -> F;
  mul : F -> F -> F;
  div : F -> F -> F;
  fabs : F -> F;                (* abs, np.fabs *)
  ltb : F -> F -> bool;         (* a < b *)
  leb : F -> F -> bool          (* a <= b *)
}.

#[export] Instance Q_arith : Arith Q := {|
  lit := inject_Z;
  half := (1 # 2)%Q;
  add := Qplus;
  sub := Qminus;
  mul := Qmult;
  div := Qdiv;
  fabs := Qabs;
  ltb := fun a b => negb (Qle_bool b a);
  leb := Qle_bool
|}.

#[export] Instance float_arith : Arith float := {|
  lit := fun z =>
    if (z <? 0)%Z then PrimFloat.opp (PrimFloat.of_uint63 (Uint63.of_Z (- z)))
    else PrimFloat.of_uint63 (Uint63.of_Z z);
  half := 0.5%float;
  add := PrimFloat.add;
  sub := PrimFloat.sub;
  mul := PrimFloat.mul;
  div := PrimFloat.div;
  fabs := PrimFloat.abs;
  ltb := PrimFloat.ltb;
  leb := PrimFloat.leb
|}.

(** Script parameters (lines 57-65). *)
Definition K : nat := 26.
Definition N_max : nat := 501.
Definition nbins : nat := 40.
Definition nsplines : nat := 15.
Definition nbootstraps : nat := 0.
Definition methods : list string := ["kde"; "simple-3"]%string.
Definition optimization_algorithm : string := "Custom-NR".

Section Script.
Context {F : Type} `{Arith F}.

Definition chi_min : F := lit (-180).
Definition chi_max : F := lit 180.

(** [np.zeros(n)] and [np.zeros([r, c])] *)
Definition zeros (n : nat) : list F := replicate n (lit 0).
Definition zeros2 (r c : nat) : list (list F) := replicate r (zeros c).
Definition zeros3 (p r c : nat) : list (list (list F)) := replicate p (zeros2 r c).

(** ** Ingestion (lines 92-149) *)

(** Lines 106-107: [while(chi < -180.0): chi += 360.0] *)
Fixpoint wrap_up (fuel : nat) (chi : F) : res F :=
  match fuel with
  | O => OutOfFuel
  | S fuel' =>
      if ltb chi (lit (-180)) then wrap_up fuel' (add chi (lit 360)) else Ok chi
  end.

(** Lines 108-109: [while(chi >= +180.0): chi -= 360.0] *)
Fixpoint wrap_down (fuel : nat) (chi : F) : res F :=
  match fuel with
  | O => OutOfFuel
  | S fuel' =>
      if leb (lit 180) chi then wrap_down fuel' (sub chi (lit 360)) else Ok chi
  end.

Definition wrap_chi (fuel : nat) (chi : F) : res F :=
  c ← wrap_up fuel chi; wrap_down fuel c.

(** [a[n] = x] on one row of a numpy array: out of range raises. *)
Definition store {A} (a : list A) (n : nat) (x : A) : res (list A) :=
  if decide (n < length a) then Ok (<[n := x]> a) else Raise IndexError.

(** Lines 100-113 for one window: [torsions] are the values [float(tokens[1])]
    of the data lines, in file order; the state is the row [chi_kn[k,:]] and
    the counter [n]. *)
Definition read_torsions (fuel : nat) (torsions : list F) (row : list F)
  : res (list F * nat) :=
  for_each torsions
    (fun chi '(row, n) =>
       c ← wrap_chi fuel chi;
       row' ← store row n c;
       Ok (row', S n))
    (row, O).

(** Lines 124-129 for one window: [energies] are the values
    [beta_k[k] * (float(tokens[2]) - float(tokens[1]))] of the data lines. *)
Definition read_energies (energies : list F) (row : list F) : res (list F * nat) :=
  for_each energies
    (fun u '(row, n) => row' ← store row n u; Ok (row', S n))
    (row, O).

(** [a[indices]] (a copy), then [a[0:len(indices)] = ...] (lines 147-149). *)
Definition pick (row : list F) (indices : list nat) : res (list F) :=
  for_each indices (fun i acc => x ← index row i; Ok (acc ++ [x])) [].

Definition subsample (row : list F) (indices : list nat) : res (list F) :=
  vals ← pick row indices;
  if decide (length indices <= length row)
  then Ok (vals ++ drop (length vals) row)
  else Raise ValueError.

(** One window of input: the torsions and reduced energies of its data lines
    (no energies are read when all temperatures agree, line 115) and the
    indices that [timeseries.subsampleCorrelatedData] answered with. *)
Record window_data := {
  torsions : list F;
  energies : list F;
  indices : list nat
}.

Record arrays := {
  N_k : list nat;
  chi_kn : list (list F);
  u_kn : list (list F)
}.

(** Lines 94-129 and 146-149 for one window, in a run in which the calls of
    lines 134-145 returned the indices of [w]: the files are read, then the
    rows are subsampled.  The calls themselves, which may raise, are
    [choose_indices] below, and [ingest_window_ts] is the window with them. *)
Definition ingest_window (fuel : nat) (DifferentTemperatures : bool)
    (w : window_data) (chi_row u_row : list F)
  : res (nat * list F * list F) :=
  '(chi_row1, _) ← read_torsions fuel (torsions w) chi_row;
  '(u_row1, _) ← (if DifferentTemperatures
                   then read_energies (energies w) u_row
                   else Ok (u_row, O));
  u_row2 ← subsample u_row1 (indices w);
  chi_row2 ← subsample chi_row1 (indices w);
  Ok (length (indices w), chi_row2, u_row2).

(** Lines 92-149: [for k in range(K)] over the windows' files, given the
    indices the subsampler answered with ([ingest_ts] is the loop with its
    calls). *)
Definition ingest (fuel : nat) (DifferentTemperatures : bool)
    (K N_max : nat) (ws : list window_data) : res arrays :=
  for_range K
    (fun k a =>
       w ← index ws k;
       chi_row ← index (chi_kn a) k;
       u_row ← index (u_kn a) k;
       '(n, chi_row', u_row') ← ingest_window fuel DifferentTemperatures w chi_row u_row;
       Ok {| N_k := <[k := n]> (N_k a);
             chi_kn := <[k := chi_row']> (chi_kn a);
             u_kn := <[k := u_row']> (u_kn a) |})
    {| N_k := replicate K O; chi_kn := zeros2 K N_max; u_kn := zeros2 K N_max |}.

(** ** Rezeroing of the energies (line 155) *)

(** [a.min()] of a two-dimensional array: the least entry of the whole
    array (of numbers: a NaN entry is not modelled); numpy raises on an array
    without entries. *)
Definition amin (a : list (list F)) : res F :=
  match concat a with
  | [] => Raise ValueError
  | x :: xs => Ok (foldl (fun m y => if ltb y m then y else m) x xs)
  end.

(** [u_kn -= u_kn.min()] *)
Definition rezero (a : list (list F)) : res (list (list F)) :=
  m ← amin a;
  Ok (map (map (fun x => sub x m)) a).

(** ** Bin grid (lines 160-163) *)

(** [np.linspace(start, stop, num)]: [num] evenly spaced samples over the
    closed interval, computed by numpy, for a step that is not zero, as
    [arange(num) * step + start] with [step = (stop - start) / (num - 1)] and
    the last sample set to [stop]. *)
Definition linspace (start stop : F) (num : nat) : list F :=
  let step := div (sub stop start) (lit (Z.of_nat (num - 1))) in
  let y := map (fun i => add (mul (lit (Z.of_nat i)) step) start) (seq 0 num) in
  if decide (1 < num) then <[num - 1 := stop]> y else y.

Definition bin_edges_of (lo hi : F) (nbins : nat) : list F :=
  linspace lo hi (nbins + 1).

(** Lines 160-163: the loop that fills [bin_center_i]. *)
Definition bin_centers (bin_edges : list F) (nbins : nat) : res (list F) :=
  for_range nbins
    (fun i c =>
       a ← index bin_edges i;
       b ← index bin_edges (i + 1);
       store c i (mul half (add a b)))
    (zeros nbins).

(** ** Reduced energies in all umbrellas (lines 176-187) *)

(** The umbrella parameters read from centers.dat (lines 78-87). *)
Record umbrellas := {
  chi0_k : list F;
  K_k : list F;
  beta_k : list F
}.

(** Lines 182-184: [for l in range(K): if abs(dchi[l]) > 180.0: ...] *)
Definition min_image (K : nat) (dchi : list F) : res (list F) :=
  for_range K
    (fun l d =>
       x ← index d l;
       if ltb (lit 180) (fabs x)
       then store d l (sub (lit 360) (fabs x))
       else Ok d)
    dchi.

(** The right-hand side of line 187,
    [u_kn[k,n] + beta_k[k] * (K_k/2.0) * dchi**2], over the arrays [K_k] and
    [dchi]; numpy refuses operands of different lengths. *)
Definition umbrella_energies (u b : F) (K_k dchi : list F) : res (list F) :=
  if decide (length K_k = length dchi)
  then Ok (zip_with (fun kk d => add u (mul (mul b (div kk (lit 2))) (mul d d))) K_k dchi)
  else Raise ValueError.

(** [u_kln[k,:,n] = vals] *)
Definition assign_kn (u : list (list (list F))) (k n : nat) (vals : list F)
  : res (list (list (list F))) :=
  plane ← index u k;
  if forallb (fun row => n <? length row) plane then
    if decide (length vals = length plane)
    then Ok (<[k := zip_with (fun row v => <[n := v]> row) plane vals]> u)
    else Raise ValueError
  else Raise IndexError.

Definition get3 (u : list (list (list F))) (k l n : nat) : option F :=
  plane ← u !! k; row ← plane !! l; row !! n.

Definition get2 (a : list (list F)) (k n : nat) : option F :=
  row ← a !! k; row !! n.

(** Body of the double loop, lines 180-187, for one sample (k, n). *)
Definition u_kln_sample (K : nat) (p : umbrellas) (a : arrays) (k n : nat)
    (u : list (list (list F))) : res (list (list (list F))) :=
  chi_row ← index (chi_kn a) k;
  chi ← index chi_row n;
  dchi ← min_image K (map (fun c0 => sub chi c0) (chi0_k p));
  u_row ← index (u_kn a) k;
  ukn ← index u_row n;
  b ← index (beta_k p) k;
  vals ← umbrella_energies ukn b (K_k p) dchi;
  assign_kn u k n vals.

(** Lines 151-152 and 178-187. *)
Definition build_u_kln (K : nat) (p : umbrellas) (a : arrays)
  : res (list (list (list F))) :=
  for_range K
    (fun k u =>
       Nk ← index (N_k a) k;
       for_range Nk (u_kln_sample K p a k) u)
    (zeros3 K K (max_list (N_k a))).

(** ** The bias potential (lines 194-199) and its closures (line 249) *)

Definition of_bool (b : bool) : F := if b then lit 1 else lit 0.

Definition bias_potential (p : umbrellas) (x : F) (k : nat) : res F :=
  c0 ← index (chi0_k p) k;
  let dchi := sub x c0 in
  let i := ltb (lit 180) (fabs dchi) in
  let dchi := add (mul (of_bool i) (sub (lit 360) (fabs dchi)))
                  (mul (sub (lit 1) (of_bool i)) dchi) in
  b ← index (beta_k p) k;
  kk ← index (K_k p) k;
  Ok (mul (mul b (div kk (lit 2))) (mul dchi dchi)).

(** The function object made by [lambda x, klocal=k: bias_potential(x,klocal)]:
    the default of [klocal] is evaluated when the lambda is, and stored with
    the function. *)
Record bias_lambda := { klocal_default : nat }.

(** The script's global names a call can see: the umbrella arrays and the
    global [k], whatever the loops have left in it. *)
Record globals := {
  g_umbrellas : umbrellas;
  g_k : nat
}.

(** [f(x)]: [klocal] is bound to its default and the body looks up
    [bias_potential] among the globals. *)
Definition call_bias (g : globals) (f : bias_lambda) (x : F) : res F :=
  let klocal := klocal_default f in
  bias_potential (g_umbrellas g) x klocal.

(** [[(lambda x, klocal=k: ...) for k in range(K)]] *)
Definition fkbias (K : nat) : list bias_lambda :=
  map (fun k => {| klocal_default := k |}) (seq 0 K).

(** Line 87: [beta_k = 1.0/(kB*T_k)]. *)
Definition beta_of_temperatures (kB : F) (T_k : list F) : list F :=
  map (fun T => div (lit 1) (mul kB T)) T_k.

(** ** Statements about the matrix *)

(** The minimum-image deviation of one coordinate difference. *)
Definition min_image1 (d : F) : F :=
  if ltb (lit 180) (fabs d) then sub (lit 360) (fabs d) else d.

Definition shape3 (P R C : nat) (u : list (list (list F))) : Prop :=
  length u = P /\
  forall k plane, u !! k = Some plane ->
    length plane = R /\ forall l row, plane !! l = Some row -> length row = C.

(** The entry of line 187 for sample (k, n) and umbrella l, from the inputs. *)
Definition entry (p : umbrellas) (a : arrays) (k l n : nat) : option F :=
  chi ← get2 (chi_kn a) k n;
  ukn ← get2 (u_kn a) k n;
  c0 ← chi0_k p !! l;
  kk ← K_k p !! l;
  b ← beta_k p !! k;
  let dchi := min_image1 (sub chi c0) in
  Some (add ukn (mul (mul b (div kk (lit 2))) (mul dchi dchi))).

Definition sampled (a : arrays) (k n : nat) : Prop :=
  exists Nk, N_k a !! k = Some Nk /\ (n < Nk)%nat.

(** The shapes the script allocates (lines 67-71) and fills: [K] umbrellas,
    [K] rows of [Nmax] samples, and no more samples kept than there is room. *)
Definition well_formed (K Nmax : nat) (p : umbrellas) (a : arrays) : Prop :=
  length (chi0_k p) = K /\ length (K_k p) = K /\ length (beta_k p) = K /\
  length (N_k a) = K /\ length (chi_kn a) = K /\ length (u_kn a) = K /\
  Forall (fun row => length row = Nmax) (chi_kn a) /\
  Forall (fun row => length row = Nmax) (u_kn a) /\
  Forall (fun n => (n <= Nmax)%nat) (N_k a).

End Script.

Arguments window_data : clear implicits.
Arguments arrays : clear implicits.
Arguments umbrellas : clear implicits.
Arguments globals : clear implicits.

(** ** The subsampler call (lines 131-145) *)

Section Subsampler.
Context {F : Type} `{Arith F}.

(** What lines 134-145 call outside the script.  The two functions of
    pymbar's [timeseries] module take a series and an optional second series,
    or a series and an optional [g]; each returns or raises (pymbar raises
    ParameterError when the two series differ in length, and when a series
    has no variance).  [np_pi], [np_cos] and [np_sin] are numpy's, and
    [float32] is the rounding of a value that is stored in [g_k], an array
    of np.float32 (line 72), and read back. *)
Record timeseries := {
  statisticalInefficiency : list F -> option (list F) -> exn + F;
  subsampleCorrelatedData : list F -> option F -> exn + list nat;
  np_pi : F;
  np_cos : F -> F;
  np_sin : F -> F;
  float32 : F -> F
}.

(** A call that returns or raises. *)
Definition called {A} (r : exn + A) : res A :=
  match r with
  | inl e => Raise e
  | inr a => Ok a
  end.

(** Lines 134-145 for one window: [n] is [N_k[k]] as line 113 set it, and
    [chi_row] and [u_row] are [chi_kn[k,:]] and [u_kn[k,:]] after the files
    are read.  Line 135 passes the whole row [u_kn[k,:]] with its first
    [N_k[k]] entries; [max(g_cos, g_sin)] is [g_sin] when [g_cos < g_sin]. *)
Definition choose_indices (ts : timeseries) (DifferentTemperatures : bool)
    (n : nat) (chi_row u_row : list F) : res (list nat) :=
  if DifferentTemperatures then
    _ ← called (statisticalInefficiency ts u_row (Some (take n u_row)));
    called (subsampleCorrelatedData ts (take n u_row) None)
  else
    let chi_radians :=
      map (fun chi => div chi (div (lit 180) (np_pi ts))) (take n chi_row) in
    g_cos ← called (statisticalInefficiency ts (map (np_cos ts) chi_radians) None);
    g_sin ← called (statisticalInefficiency ts (map (np_sin ts) chi_radians) None);
    let g := float32 ts (if ltb g_cos g_sin then g_sin else g_cos) in
    called (subsampleCorrelatedData ts chi_radians (Some g)).

(** The data lines of one window's files: the torsions, and the reduced
    energies [beta_k[k] * (float(tokens[2]) - float(tokens[1]))]. *)
Record window_lines := {
  l_torsions : list F;
  l_energies : list F
}.

(** The window as [ingest_window] takes it, once the subsampler has
    answered with [idx]. *)
Definition answered (l : window_lines) (idx : list nat) : window_data F :=
  {| torsions := l_torsions l; energies := l_energies l; indices := idx |}.

(** Lines 94-149 for one window, the calls of lines 134-145 included. *)
Definition ingest_window_ts (ts : timeseries) (fuel : nat) (DifferentTemperatures : bool)
    (l : window_lines) (chi_row u_row : list F)
  : res (nat * list F * list F) :=
  '(chi_row1, n) ← read_torsions fuel (l_torsions l) chi_row;
  '(u_row1, _) ← (if DifferentTemperatures
                   then read_energies (l_energies l) u_row
                   else Ok (u_row, O));
  idx ← choose_indices ts DifferentTemperatures n chi_row1 u_row1;
  u_row2 ← subsample u_row1 idx;
  chi_row2 ← subsample chi_row1 idx;
  Ok (length idx, chi_row2, u_row2).

(** Lines 92-149 with the calls of lines 134-145. *)
Definition ingest_ts (ts : timeseries) (fuel : nat) (DifferentTemperatures : bool)
    (K N_max : nat) (ls : list window_lines) : res (arrays F) :=
  for_range K
    (fun k a =>
       l ← index ls k;
       chi_row ← index (chi_kn a) k;
       u_row ← index (u_kn a) k;
       '(n, chi_row', u_row') ←
         ingest_window_ts ts fuel DifferentTemperatures l chi_row u_row;
       Ok {| N_k := <[k := n]> (N_k a);
             chi_kn := <[k := chi_row']> (chi_kn a);
             u_kn := <[k := u_row']> (u_kn a) |})
    {| N_k := replicate K O; chi_kn := zeros2 K N_max; u_kn := zeros2 K N_max |}.

End Subsampler.

Arguments timeseries : clear implicits.
Arguments window_lines : clear implicits.

(** ** The loop over methods (lines 201-278) and the sampler call (291-293) *)

(** Python strings are modelled as byte strings.  A name whose characters
    are ASCII is the same sequence in both; Python's [int] also accepts the
    decimal digits of other scripts, so on a name that ends otherwise the
    model of line 251 is not Python's, and statements that turn on the last
    character not being a digit assume that it is ASCII. *)

(** [s[:n]] *)
Definition prefix_of (n : nat) (s : string) : string := substring 0 n s.

(** [s[-1]] *)
Fixpoint last_char (s : string) : res ascii :=
  match s with
  | EmptyString => Raise IndexError
  | String c EmptyString => Ok c
  | String _ s' => last_char s'
  end.

Definition is_digit (c : ascii) : bool :=
  (48 <=? nat_of_ascii c)%nat && (nat_of_ascii c <=? 57)%nat.

(** [int(c)] for a string of one ASCII character: ValueError unless it is
    a digit. *)
Definition int_of_char (c : ascii) : res Z :=
  if is_digit c then Ok (Z.of_nat (nat_of_ascii c - 48)) else Raise ValueError.

(** Line 226: the test that selects the spline branch. *)
Definition is_spline_method (method : string) : bool :=
  String.eqb (prefix_of 2 method) "kl"
  || String.eqb (prefix_of 5 method) "sumkl"
  || String.eqb (prefix_of 8 method) "weighted"
  || String.eqb (prefix_of 6 method) "simple".

(** The keys of the [colors] dictionary (lines 21-35). *)
Definition colors : gmap string string :=
  list_to_map
    [("histogram", "k:"); ("kde", "k-");
     ("kl-1", "g-"); ("kl-3", "m-"); ("kl-5", "c-");
     ("sumkl-1", "g--"); ("sumkl-3", "m--"); ("sumkl-5", "c--");
     ("simple-1", "g-."); ("simple-3", "m-."); ("simple-5", "c-.");
     ("weighted-1", "g:"); ("weighted-3", "m:"); ("weighted-5", "c:")]%string.

Section Methods.
Context {F : Type} `{Arith F}.

(** Values stored in the parameter dictionaries. *)
Inductive value :=
  | VStr (s : string)
  | VInt (z : Z)
  | VNum (x : F)
  | VVec (v : list F)
  | VVecs (vs : list (list F))
  | VFuns (fs : list bias_lambda)
  | VOptimizeOptions.            (* the dictionary optimize_options, line 15 *)

(** Calls made on the [pmf] object, in order.  [u_kn], [chi_n] and
    [nbootstraps] are the same in every call and are left out, and so is the
    constant [mc_parameters]. *)
Inductive pmf_call :=
  | GeneratePMF (pmf_type : string) (parameters : gmap string value)
  | GetPMF (x : list F) (uncertainties : string)
  | SampleDistribution (pmf_type : string) (spline_parameters : gmap string value).

(** What [pmf.getPMF] returns under the key ['f_i']: pymbar's answer, a
    function of the calls made on the object so far (this one included). *)
Variable getPMF_f_i : list pmf_call -> list F.

Record script_state := {
  f_i_kde : option (list F);                        (* None: line 204 *)
  spline_parameters : option (gmap string value);   (* None: the name is not bound yet *)
  pmf_calls : list pmf_call
}.

Definition initial_state : script_state :=
  {| f_i_kde := None; spline_parameters := None; pmf_calls := [] |}.

Definition call (c : pmf_call) (st : script_state) : script_state :=
  {| f_i_kde := f_i_kde st;
     spline_parameters := spline_parameters st;
     pmf_calls := pmf_calls st ++ [c] |}.

(** What the loop reads from the lines before it. *)
Record grid := {
  bin_edges : list F;
  bin_center_i : list F;
  xplot : list F
}.

Definition nplot : nat := 1000.
Definition xstart : list F := linspace chi_min chi_max (nsplines * 2).

(** Lines 210-214. *)
Definition fit_histogram (g : grid) (st : script_state) : script_state :=
  call (GeneratePMF "histogram" {[ "bin_edges"%string := VVecs [bin_edges g] ]}) st.

(** Lines 216-224. *)
Definition kde_parameters : gmap string value :=
  {[ "bandwidth"%string :=
       VNum (mul half (div (sub chi_max chi_min) (lit (Z.of_nat nbins)))) ]}.

Definition fit_kde (st : script_state) : script_state :=
  let st := call (GeneratePMF "kde" kde_parameters) st in
  let st := call (GetPMF xstart "from-lowest") st in
  {| f_i_kde := Some (getPMF_f_i (pmf_calls st));
     spline_parameters := spline_parameters st;
     pmf_calls := pmf_calls st |}.

(** Lines 227-235: a fresh dictionary and the four tests on the prefix. *)
Definition spline_weights_of (method : string) (d : gmap string value)
  : gmap string value :=
  let d := if String.eqb (prefix_of 2 method) "kl"
           then <["spline_weights"%string := VStr "kldivergence"]> d else d in
  let d := if String.eqb (prefix_of 5 method) "sumkl"
           then <["spline_weights"%string := VStr "sumkldivergence"]> d else d in
  let d := if String.eqb (prefix_of 8 method) "weighted"
           then <["spline_weights"%string := VStr "weightedsum"]> d else d in
  let d := if String.eqb (prefix_of 6 method) "simple"
           then <["spline_weights"%string := VStr "simplesum"]> d else d in
  d.

(** Lines 242-245. *)
Definition yinit_of (st : script_state) : list F :=
  match f_i_kde st with
  | Some f => f
  | None => zeros (length xstart)
  end.

(** Lines 227-254. *)
Definition fit_spline (method : string) (st : script_state) : res script_state :=
  let d := spline_weights_of method ∅ in
  let d := <["nspline"%string := VInt (Z.of_nat nsplines)]> d in
  let d := <["spline_initialize"%string := VStr "explicit"]> d in
  let d := <["xinit"%string := VVec xstart]> d in
  let d := <["yinit"%string := VVec (yinit_of st)]> d in
  let d := <["xrange"%string := VVec [chi_min; chi_max]]> d in
  let d := <["fkbias"%string := VFuns (fkbias K)]> d in
  c ← last_char method;
  kdegree ← int_of_char c;
  let d := <["kdegree"%string := VInt kdegree]> d in
  let d := <["optimization_algorithm"%string := VStr optimization_algorithm]> d in
  let d := <["optimize_options"%string := VOptimizeOptions]> d in
  Ok (call (GeneratePMF "spline" d)
        {| f_i_kde := f_i_kde st;
           spline_parameters := Some d;
           pmf_calls := pmf_calls st |}).

(** Lines 208-254: the three [if]s of one iteration. *)
Definition fit (g : grid) (method : string) (st : script_state) : res script_state :=
  let st := if String.eqb method "histogram" then fit_histogram g st else st in
  let st := if String.eqb method "kde" then fit_kde st else st in
  if is_spline_method method then fit_spline method st else Ok st.

(** Lines 256-278: the two queries of the fitted profile and the plot, whose
    format is [colors[method]]. *)
Definition report (g : grid) (method : string) (st : script_state) : res script_state :=
  let st := call (GetPMF (bin_center_i g) "from-lowest") st in
  let st := call (GetPMF (xplot g) "from-lowest") st in
  match colors !! method with
  | Some _ => Ok st
  | None => Raise KeyError
  end.

Definition run_method (g : grid) (method : string) (st : script_state)
  : res script_state :=
  st ← fit g method st; report g method st.

(** Lines 207-278. *)
Definition run_methods (g : grid) (methods : list string) (st : script_state)
  : res script_state :=
  for_each methods (run_method g) st.

(** Lines 291-293: the global [spline_parameters] is read; the name is bound
    only if a spline method has run. *)
Definition sample_posterior (st : script_state) : res script_state :=
  match spline_parameters st with
  | None => Raise NameError
  | Some d => Ok (call (SampleDistribution "spline" d) st)
  end.

(** Lines 201-293. *)
Definition script_tail (g : grid) (methods : list string) : res script_state :=
  st ← run_methods g methods initial_state; sample_posterior st.

(** The parameters of the latest spline fit in a trace of calls. *)
Definition last_spline_fit (calls : list pmf_call) : option (gmap string value) :=
  foldl (fun acc c =>
           match c with
           | GeneratePMF ty d => if String.eqb ty "spline" then Some d else acc
           | _ => acc
           end) None calls.

End Methods.

Arguments value : clear implicits.
Arguments pmf_call : clear implicits.
Arguments script_state : clear implicits.
Arguments grid : clear implicits.

(** ** Statements about ingestion and rezeroing *)

(** The canonical half-open interval of a torsion, [-180, +180). *)
Definition canonical (c : Q) : Prop := (-180 <= c /\ c < 180)%Q.

(** A number of iterations that suffices for either loop of the wrap. *)
Definition wrap_steps (chi : Q) : nat := Z.to_nat (Qceiling (Qabs chi)).

(** What the script may assume of one window's files and of the subsampler:
    no more data lines than the arrays have columns, and indices of columns. *)
Definition fits {F : Type} (Nmax : nat) (w : window_data F) : Prop :=
  (length (torsions w) <= Nmax)%nat /\ (length (energies w) <= Nmax)%nat /\
  (length (indices w) <= Nmax)%nat /\ Forall (fun i => (i < Nmax)%nat) (indices w).

(** The entries beyond the retained counts are all zero, and there is one. *)
Definition zero_padded (N_k : list nat) (a : list (list Q)) : Prop :=
  (exists k n Nk x, N_k !! k = Some Nk /\ (Nk <= n)%nat /\ get2 a k n = Some x) /\
  (forall k n x, get2 a k n = Some x ->
     exists Nk, N_k !! k = Some Nk /\ ((Nk <= n)%nat -> (x == 0)%Q)).

(** ** Concrete runs *)

(** Two umbrellas and room for three samples, in exact arithmetic. *)
Definition demo_umbrellas : umbrellas Q :=
  {| chi0_k := [-170; 170]%Q; K_k := [2; 4]%Q; beta_k := [1; 3]%Q |}.

Definition demo_arrays : arrays Q :=
  {| N_k := [2; 1]%nat;
     chi_kn := [[175; 0; 9]; [-175; 9; 9]]%Q;
     u_kn := [[1; 2; 0]; [3; 0; 0]]%Q |}.

(** Two umbrellas with the same center and spring constant, at different
    temperatures. *)
Definition twin_umbrellas : umbrellas Q :=
  {| chi0_k := [90; 90]%Q; K_k := [2; 2]%Q; beta_k := [1; 3]%Q |}.

(** [kB = 1.381e-23 * 6.022e23 / 1000.0] as a rational number. *)
Definition kB_Q : Q := (8316382 # 1000000000)%Q.

(** The 26 umbrellas with the first at 300 K and the others at 600 K, all with
    the same center and spring constant, and one retained sample per window,
    at chi = 1 with u_kn = 0. *)
Definition two_temperature_umbrellas : umbrellas Q :=
  {| chi0_k := replicate K 0%Q;
     K_k := replicate K 2%Q;
     beta_k := beta_of_temperatures kB_Q (300%Q :: replicate (K - 1) 600%Q) |}.

Definition one_sample_arrays : arrays Q :=
  {| N_k := replicate K 1%nat;
     chi_kn := replicate K (1%Q :: replicate (N_max - 1) 0%Q);
     u_kn := replicate K (replicate N_max 0%Q) |}.

(** Two windows whose files hold torsions outside [-180, 180). *)
Definition demo_windows : list (window_data Q) :=
  [ {| torsions := [190; -541; 3]%Q; energies := []; indices := [0; 2]%nat |};
    {| torsions := [180; -180; 899]%Q; energies := []; indices := [1; 2]%nat |} ].

(** A data line whose torsion reads [-1e22], a finite binary64 value. *)
Definition huge_torsion : float := (-1e22)%float.

Definition huge_window : window_data float :=
  {| torsions := [huge_torsion]; energies := []; indices := [0%nat] |}.

(** A stand-in for pymbar's answers, and the grid of the script. *)
Definition demo_profile (calls : list (pmf_call Q)) : list Q :=
  replicate (nsplines * 2) (inject_Z (Z.of_nat (length calls))).

Definition demo_grid : grid Q :=
  {| bin_edges := bin_edges_of chi_min chi_max nbins;
     bin_center_i :=
       match bin_centers (bin_edges_of chi_min chi_max nbins) nbins with
       | Ok c => c
       | _ => []
       end;
     xplot := linspace chi_min chi_max nplot |}.

(** ** The rest of the data preparation (lines 74-90 and 165-174) *)

Section Preparation.
Context {F : Type} `{Arith F}.

(** Line 55, and line 59: [T_k = np.ones(K,float)*temperature]. *)
Definition temperature : Z := 300.
Definition initial_T_k (K : nat) : list F :=
  replicate K (mul (lit 1) (lit temperature)).

(** What lines 78-85 fill. *)
Record centers := {
  c_chi0_k : list F;
  c_K_k : list F;
  c_T_k : list F
}.

(** Lines 78-85.  [lines] holds, for each line of centers.dat, the values
    [float(tokens[i])] of its tokens; [pi] is [np.pi].  The square
    [(np.pi/180)**2] is the product of the quotient with itself. *)
Definition read_centers (pi : F) (K : nat) (lines : list (list F)) : res centers :=
  for_range K
    (fun k c =>
       tokens ← index lines k;
       t0 ← index tokens 0;
       chi0' ← store (c_chi0_k c) k t0;
       t1 ← index tokens 1;
       K' ← store (c_K_k c) k (mul t1 (mul (div pi (lit 180)) (div pi (lit 180))));
       T' ← (if decide (2 < length tokens)
             then t2 ← index tokens 2; store (c_T_k c) k t2
             else Ok (c_T_k c));
       Ok {| c_chi0_k := chi0'; c_K_k := K'; c_T_k := T' |})
    {| c_chi0_k := zeros K; c_K_k := zeros K; c_T_k := initial_T_k K |}.

(** Python's [min] and [max] over a sequence: the first least (greatest)
    element by [<]; an empty sequence raises. *)
Definition py_min (xs : list F) : res F :=
  match xs with
  | [] => Raise ValueError
  | x :: xs' => Ok (foldl (fun m y => if ltb y m then y else m) x xs')
  end.

Definition py_max (xs : list F) : res F :=
  match xs with
  | [] => Raise ValueError
  | x :: xs' => Ok (foldl (fun m y => if ltb m y then y else m) x xs')
  end.

(** [a == b] on numbers, which holds exactly when [a <= b] and [b <= a]. *)
Definition num_eqb (a b : F) : bool := leb a b && leb b a.

(** Lines 88-90. *)
Definition different_temperatures (T_k : list F) : res bool :=
  lo ← py_min T_k;
  hi ← py_max T_k;
  Ok (negb (num_eqb lo hi)).

(** Lines 165-166 and 169-174: [N = np.sum(N_k)], [x_n = np.zeros(N,np.int32)]
    and the loop that fills it; [to_int32] is the conversion numpy applies
    when a float is stored in an int32 array, which raises ValueError on a
    NaN. *)
Definition fill_x_n (to_int32 : F -> res Z) (K : nat) (a : arrays F) : res (list Z * nat) :=
  for_range K
    (fun k s =>
       Nk ← index (N_k a) k;
       for_range Nk
         (fun n '(x_n, ntot) =>
            row ← index (chi_kn a) k;
            chi ← index row n;
            z ← to_int32 chi;
            x_n' ← store x_n ntot z;
            Ok (x_n', S ntot))
         s)
    (replicate (sum_list (N_k a)) 0%Z, O).

(** One window's files as they are read: the values [float(tokens[1])] of the
    data lines of prod<k>_dihed.xvg, the pairs [(float(tokens[1]),
    float(tokens[2]))] of the data lines of prod<k>_energies.xvg, and the
    indices that [timeseries.subsampleCorrelatedData] answered with. *)
Record window_files := {
  f_torsions : list F;
  f_energy_columns : list (F * F);
  f_indices : list nat
}.

(** Line 128: [beta_k[k] * (float(tokens[2]) - float(tokens[1]))]. *)
Definition reduced_energy (b : F) (columns : F * F) : F :=
  mul b (sub (snd columns) (fst columns)).

Definition window_of (b : F) (f : window_files) : window_data F :=
  {| torsions := f_torsions f;
     energies := map (reduced_energy b) (f_energy_columns f);
     indices := f_indices f |}.

(** Window [k] is read with [beta_k[k]]. *)
Definition windows_of (beta_k : list F) (fs : list window_files) : list (window_data F) :=
  zip_with window_of beta_k fs.

(** What the script has computed when it reaches line 189. *)
Record prepared := {
  p_umbrellas : umbrellas F;
  p_DifferentTemperatures : bool;
  p_arrays : arrays F;
  p_u_kln : list (list (list F))
}.

(** Lines 74-155 and 176-187 in order: the centers, the inverse
    temperatures, the windows' data, the rezeroing and the reduced energies,
    in a run in which the calls of lines 134-145 returned the indices of the
    windows ([prepare_ts] is the same with the calls).  The bin grid and
    [x_n] of lines 157-174 do not enter the matrix. *)
Definition prepare (fuel : nat) (pi kB : F) (K N_max : nat)
    (center_lines : list (list F)) (fs : list window_files) : res prepared :=
  c ← read_centers pi K center_lines;
  let p := {| chi0_k := c_chi0_k c; K_k := c_K_k c;
              beta_k := beta_of_temperatures kB (c_T_k c) |} in
  dt ← different_temperatures (c_T_k c);
  a ← ingest fuel dt K N_max (windows_of (beta_k p) fs);
  u ← rezero (u_kn a);
  let a := {| N_k := N_k a; chi_kn := chi_kn a; u_kn := u |} in
  u_kln ← build_u_kln K p a;
  Ok {| p_umbrellas := p; p_DifferentTemperatures := dt;
        p_arrays := a; p_u_kln := u_kln |}.

End Preparation.

Arguments centers : clear implicits.
Arguments window_files : clear implicits.
Arguments prepared : clear implicits.

(** Whether a method name ends in a decimal digit. *)
Definition ends_in_digit (method : string) : bool :=
  match last_char method with
  | Ok c => is_digit c
  | _ => false
  end.

(** The names under which [colors] has an entry. *)
Definition color_names : list string :=
  ["histogram"; "kde"; "kl-1"; "kl-3"; "kl-5"; "sumkl-1"; "sumkl-3"; "sumkl-5";
   "simple-1"; "simple-3"; "simple-5"; "weighted-1"; "weighted-3"; "weighted-5"]%string.

(** A fragment returns, raising nothing and within its step budget. *)
Definition returns {A} (r : res A) : Prop := exists a, r = Ok a.

(** Every torsion of every window leaves the wrap within [fuel] iterations. *)
Definition wraps_within {F : Type} `{Arith F} (fuel : nat) (ws : list (window_data F)) : Prop :=
  Forall (fun w => Forall (fun chi => returns (wrap_chi fuel chi)) (torsions w)) ws.

(** What a row of [chi_kn] or [u_kn] holds after the file is read: the values
    of the data lines, then the zeros it was allocated with. *)
Definition row_read {F : Type} `{Arith F} (Nmax : nat) (vals : list F) : list F :=
  vals ++ zeros (Nmax - length vals).

(** One window's files fit the arrays: no more data lines than columns, and
    indices of columns. *)
Definition files_fit {F : Type} (Nmax : nat) (f : window_files F) : Prop :=
  (length (f_torsions f) <= Nmax)%nat /\ (length (f_energy_columns f) <= Nmax)%nat /\
  (length (f_indices f) <= Nmax)%nat /\ Forall (fun i => (i < Nmax)%nat) (f_indices f).

(** The inputs of a run that the arrays can hold: K center lines of at least
    two tokens, K windows whose files fit, and arrays that are not empty. *)
Definition inputs_fit {F : Type} (K Nmax : nat) (center_lines : list (list F))
    (fs : list (window_files F)) : Prop :=
  (0 < K)%nat /\ (0 < Nmax)%nat /\ (K <= length center_lines)%nat /\
  Forall (fun tokens => (2 <= length tokens)%nat) (take K center_lines) /\
  length fs = K /\ Forall (files_fit Nmax) fs.

(** Every torsion read leaves the wrap within [fuel] iterations. *)
Definition files_wrap_within {F : Type} `{Arith F} (fuel : nat) (fs : list (window_files F))
  : Prop :=
  Forall (fun f => Forall (fun chi => returns (wrap_chi fuel chi)) (f_torsions f)) fs.

(** The shorter way round the circle for a deviation [d]. *)
Definition arc (d : Q) : Q := Qmin (Qabs d) (360 - Qabs d).

(** What lines 82-85 leave in the three arrays for a line of tokens. *)
Definition centers_hold {F : Type} `{Arith F} (pi : F) (c : centers F) (k : nat) (tokens : list F) : Prop :=
  c_chi0_k c !! k = tokens !! 0%nat /\
  c_K_k c !! k =
    (fun t1 => mul t1 (mul (div pi (lit 180)) (div pi (lit 180)))) <$> tokens !! 1%nat /\
  c_T_k c !! k = Some (default (mul (lit 1) (lit temperature)) (tokens !! 2%nat)).

Definition centers_read {F : Type} `{Arith F} (pi : F) (K : nat) (lines : list (list F)) (n : nat)
    (c : centers F) : Prop :=
  length (c_chi0_k c) = K /\ length (c_K_k c) = K /\ length (c_T_k c) = K /\
  (forall k, (n <= k < K)%nat -> c_T_k c !! k = Some (mul (lit 1) (lit temperature))) /\
  (forall k tokens, (k < n)%nat -> lines !! k = Some tokens -> centers_hold pi c k tokens).

(** The state of the arrays after the first [i] windows. *)
Definition ingested {F : Type} `{Arith F} (fuel : nat) (dt : bool) (K Nmax : nat) (ws : list (window_data F))
    (i : nat) (a : arrays F) : Prop :=
  length (N_k a) = K /\ length (chi_kn a) = K /\ length (u_kn a) = K /\
  (forall k, (i <= k < K)%nat ->
     chi_kn a !! k = Some (zeros Nmax) /\ u_kn a !! k = Some (zeros Nmax)) /\
  (forall k w, (k < i)%nat -> ws !! k = Some w ->
     exists cs chi_row u_row,
       Forall2 (fun chi c => wrap_chi fuel chi = Ok c) (torsions w) cs /\
       N_k a !! k = Some (length (indices w)) /\
       chi_kn a !! k = Some chi_row /\ u_kn a !! k = Some u_row /\
       length chi_row = Nmax /\ length u_row = Nmax /\
       (forall n, chi_row !! n = match indices w !! n with
                                 | Some i => row_read Nmax cs !! i
                                 | None => row_read Nmax cs !! n
                                 end) /\
       (forall n, u_row !! n =
          match indices w !! n with
          | Some i => row_read Nmax (if dt then energies w else []) !! i
          | None => row_read Nmax (if dt then energies w else []) !! n
          end)).

(** ** Further concrete runs *)

(** A rational stand-in for [np.pi]. *)
Definition pi_Q : Q := (355 # 113)%Q.

(** Two center lines without a temperature, and two with. *)
Definition demo_center_lines : list (list Q) := [[-170; 4]; [170; 4]]%Q.
Definition demo_center_lines_T : list (list Q) := [[-170; 4; 300]; [170; 4; 600]]%Q.

(** The files of two windows with three data lines each. *)
Definition demo_files : list (window_files Q) :=
  [ {| f_torsions := [190; -541; 3]%Q;
       f_energy_columns := [(1, 3); (2, 2); (0, 5)]%Q;
       f_indices := [0; 2]%nat |};
    {| f_torsions := [180; -180; 899]%Q;
       f_energy_columns := [(0, 1); (1, 4); (2, 2)]%Q;
       f_indices := [1; 2]%nat |} ].

(** Truncation toward zero, the conversion to int32 of a value in range. *)
Definition trunc_Q (q : Q) : Z := Z.quot (Qnum q) (Z.pos (Qden q)).

(** ** Binary64 numbers *)

(** The value of a binary64 number in units of 2^-1074, the least positive
    binary64 number: every finite binary64 number is a whole number of
    these.  An infinity is given a value beyond the finite ones; a NaN has
    no value and is given 0. *)
Definition Zval (x : spec_float) : Z :=
  match x with
  | S754_zero _ => 0
  | S754_infinity s => cond_Zopp s (2 ^ 2100)
  | S754_nan => 0
  | S754_finite s m e => cond_Zopp s (Zpos m * 2 ^ (e + 1074))
  end%Z.

Definition is_nan_sf (x : spec_float) : bool :=
  match x with S754_nan => true | _ => false end.

Definition finite_sf (x : spec_float) : bool :=
  match x with
  | S754_zero _ | S754_finite _ _ _ => true
  | _ => false
  end.

Definition Fval (f : float) : Z := Zval (Prim2SF f).

Definition not_nan (x : float) : Prop := is_nan_sf (Prim2SF x) = false.

(** [R] is one of the two binary64 neighbours of [V], and [V] itself when
    that is a binary64 number: no binary64 number lies strictly between. *)
Definition faithful (V R : Z) : Prop :=
  forall N t : Z, (0 <= t)%Z -> (Z.abs N <= 2 ^ 53)%Z ->
    ((N * 2 ^ t <= V)%Z -> (N * 2 ^ t <= R)%Z) /\ ((V <= N * 2 ^ t)%Z -> (R <= N * 2 ^ t)%Z).

(** [R] is within half a unit in the last place of [V]: whenever [V] is
    below [2^(53+t)], where the spacing of binary64 numbers is at most [2^t],
    the distance from [V] to [R] is at most half of [2^t]. *)
Definition nearest (V R : Z) : Prop :=
  forall t : Z, (0 <= t)%Z -> (Z.abs V < 2 ^ (53 + t))%Z -> (2 * Z.abs (R - V) <= 2 ^ t)%Z.

Definition rounded (V R : Z) : Prop := faithful V R /\ nearest V R.

(** A number of iterations that suffices for either loop of the wrap in
    binary64. *)
Definition wrap_steps64 (chi : float) : nat := S (Z.to_nat (Z.abs (Fval chi))).

(** The canonical half-open interval in binary64. *)
Definition canonical64 (c : float) : Prop :=
  leb (lit (-180)) c = true /\ ltb c (lit 180) = true.

(** A subsampler that finds no correlation: a statistical inefficiency of 1
    and every sample kept.  pymbar answers so on a series that repeats a
    short cycle of values, such as 1, 2, 1, 2, ...: its estimate falls below
    1 and is raised to 1, and with g = 1 every index is kept.  The comparison
    of the two lengths is pymbar's.  The cosine and sine are stand-ins, at
    which this subsampler does not look. *)
Definition keep_all {F : Type} `{Arith F} : timeseries F :=
  {| statisticalInefficiency := fun A_n B_n =>
       match B_n with
       | Some B => if decide (length A_n = length B) then inr (lit 1) else inl ParameterError
       | None => inr (lit 1)
       end;
     subsampleCorrelatedData := fun A_t _ => inr (seq 0 (length A_t));
     np_pi := div (lit 355) (lit 113);
     np_cos := fun x => x;
     np_sin := fun x => x;
     float32 := fun g => g |}.

(** The data lines of two windows in binary64, with torsions outside
    [-180, 180). *)
Definition demo_lines64 : list (window_lines float) :=
  [ {| l_torsions := [190.5; -541; 3]%float; l_energies := [] |};
    {| l_torsions := [180; -180; 899]%float; l_energies := [] |} ].

(** The data lines of a window whose one torsion reads [-1e22]. *)
Definition huge_lines : window_lines float :=
  {| l_torsions := [huge_torsion]; l_energies := [] |}.

(** The reduced energies 1, 2, 1, 2, ..., 1 of the N_max data lines of a
    window's energy file, and a window with as many torsions. *)
Definition alternating_energies : list Q :=
  map (fun n => if Nat.even n then 1%Q else 2%Q) (seq 0 N_max).

Definition alternating_window : window_lines Q :=
  {| l_torsions := replicate N_max 0%Q; l_energies := alternating_energies |}.

(** Whether every character of a name is ASCII. *)
Definition is_ascii (s : string) : bool :=
  forallb (fun c => (nat_of_ascii c <? 128)%nat) (list_ascii_of_string s).

(** The data lines of a window's files, read with [beta_k[k]]. *)
Definition lines_of {F : Type} `{Arith F} (b : F) (f : window_files F) : window_lines F :=
  {| l_torsions := f_torsions f;
     l_energies := map (reduced_energy b) (f_energy_columns f) |}.

(** Lines 74-155 and 176-187 in order, with the calls of lines 134-145. *)
Definition prepare_ts {F : Type} `{Arith F} (ts : timeseries F) (fuel : nat) (pi kB : F)
    (K N_max : nat) (center_lines : list (list F)) (fs : list (window_files F))
  : res (prepared F) :=
  c ← read_centers pi K center_lines;
  let p := {| chi0_k := c_chi0_k c; K_k := c_K_k c;
              beta_k := beta_of_temperatures kB (c_T_k c) |} in
  dt ← different_temperatures (c_T_k c);
  a ← ingest_ts ts fuel dt K N_max (zip_with lines_of (beta_k p) fs);
  u ← rezero (u_kn a);
  let a := {| N_k := N_k a; chi_kn := chi_kn a; u_kn := u |} in
  u_kln ← build_u_kln K p a;
  Ok {| p_umbrellas := p; p_DifferentTemperatures := dt;
        p_arrays := a; p_u_kln := u_kln |}.

(** Reduced energies that repeat the binary64 numbers nearest to 0.1, 0.3
    and -0.2, and a window of N_max data lines with them. *)
Definition cycle_energies : list float :=
  map (fun n => match (n mod 3)%nat with
                | 0%nat => 0x1.999999999999ap-4
                | 1%nat => 0x1.3333333333333p-2
                | _ => -0x1.999999999999ap-3
                end%float) (seq 0 N_max).

Definition cycle_window : window_lines float :=
  {| l_torsions := replicate N_max 0%float; l_energies := cycle_energies |}.

(** The conversion to int32 of a rational in range: truncation toward zero. *)
Definition to_int32_Q (q : Q) : res Z := Ok (trunc_Q q).

(** * Proofs *)

(** ** Loops *)

Lemma for_each_app {X S} (xs ys : list X) (body : X -> S -> res S) (s : S) :
  for_each (xs ++ ys) body s = (s' ← for_each xs body s; for_each ys body s').
Proof.
  revert s. induction xs as [|x xs IH]; intros s; simpl; [done|].
  destruct (body x s); simpl; auto.
Qed.

Lemma for_range_S {S} (n : nat) (body : nat -> S -> res S) (s : S) :
  for_range (Datatypes.S n) body s = (s' ← for_range n body s; body n s').
Proof.
  unfold for_range. rewrite seq_S, for_each_app. simpl.
  destruct (for_each (seq 0 n) body s); simpl; auto.
  destruct (body n a); auto.
Qed.

(** The invariant rule of [for i in range(n)]. *)
Lemma for_range_inv {S} (I : nat -> S -> Prop) (n : nat) (body : nat -> S -> res S) (s0 : S) :
  I 0%nat s0 ->
  (forall i s, (i < n)%nat -> I i s -> exists s', body i s = Ok s' /\ I (Datatypes.S i) s') ->
  exists s', for_range n body s0 = Ok s' /\ I n s'.
Proof.
  intros H0 Hstep. induction n as [|n IH].
  - exists s0. split; [reflexivity | assumption].
  - destruct IH as (s1 & Hrun & HI); [intros; apply Hstep; [lia | assumption] |].
    destruct (Hstep n s1) as (s2 & Hb & HI2); [lia | assumption |].
    exists s2. rewrite for_range_S, Hrun. simpl. auto.
Qed.


Section Matrix.
Context {F : Type} `{Arith F}.

Lemma index_Ok {A} (a : list A) i x : a !! i = Some x -> index a i = Ok x.
Proof. unfold index. intros ->. reflexivity. Qed.

Lemma store_Ok {A} (a : list A) n x : (n < length a)%nat -> store a n x = Ok (<[n := x]> a).
Proof. unfold store. intros Hn. destruct (decide (n < length a)%nat); [done | lia]. Qed.

Lemma min_image_spec (K : nat) (dchi : list F) :
  length dchi = K -> min_image K dchi = Ok (map min_image1 dchi).
Proof.
  intros HK. unfold min_image.
  destruct (for_range_inv
    (fun i d => d = map min_image1 (take i dchi) ++ drop i dchi)
    K
    (fun l d => x ← index d l;
       if ltb (lit 180) (fabs x) then store d l (sub (lit 360) (fabs x)) else Ok d)
    dchi) as (d & Hrun & Hd).
  - reflexivity.
  - intros i d Hi ->.
    destruct (lookup_lt_is_Some_2 dchi i) as [x Hx]; [lia|].
    assert (Hlen : length (map min_image1 (take i dchi)) = i)
      by (rewrite length_map, length_take; lia).
    assert (Hlk : (map min_image1 (take i dchi) ++ drop i dchi) !! i = Some x).
    { rewrite lookup_app_r by lia. rewrite Hlen, Nat.sub_diag, lookup_drop, Nat.add_0_r. done. }
    rewrite (index_Ok _ _ _ Hlk). simpl.
    assert (Hnext : <[i := min_image1 x]> (map min_image1 (take i dchi) ++ drop i dchi)
                    = map min_image1 (take (Datatypes.S i) dchi) ++ drop (Datatypes.S i) dchi).
    { rewrite (take_S_r _ _ _ Hx), map_app. simpl.
      rewrite insert_app_r_alt by lia. rewrite Hlen, Nat.sub_diag.
      rewrite (drop_S _ _ _ Hx). simpl. rewrite <- app_assoc. reflexivity. }
    unfold min_image1 in Hnext at 1.
    destruct (ltb (lit 180) (fabs x)).
    + rewrite store_Ok; [eauto | rewrite length_app, Hlen, length_drop; lia].
    + eexists; split; [reflexivity|]. rewrite <- Hnext.
      symmetry. apply list_insert_id. done.
  - rewrite Hrun. f_equal. rewrite Hd, firstn_all2, drop_ge, app_nil_r by lia. reflexivity.
Qed.


Lemma zeros3_shape (P R C : nat) : shape3 P R C (zeros3 P R C).
Proof.
  split; [apply length_replicate|].
  intros k plane [-> _]%lookup_replicate. split; [apply length_replicate|].
  intros l row [-> _]%lookup_replicate. apply length_replicate.
Qed.

Lemma assign_kn_spec (P R C : nat) (u : list (list (list F))) (k n : nat) (vals : list F) :
  shape3 P R C u -> (k < P)%nat -> (n < C)%nat -> length vals = R ->
  exists u', assign_kn u k n vals = Ok u' /\ shape3 P R C u' /\
    (forall l, get3 u' k l n = vals !! l) /\
    (forall k' l n', k' <> k \/ n' <> n -> get3 u' k' l n' = get3 u k' l n').
Proof.
  intros [Hlen Hsh] Hk Hn Hvals.
  destruct (lookup_lt_is_Some_2 u k) as [plane Hplane]; [lia|].
  destruct (Hsh _ _ Hplane) as [HR HC].
  unfold assign_kn. rewrite (index_Ok _ _ _ Hplane). simpl.
  assert (Hall : forallb (fun row : list F => (n <? length row)%nat) plane = true).
  { apply forallb_forall. intros row Hin.
    apply list_elem_of_In, list_elem_of_lookup in Hin as [l Hl].
    rewrite (HC _ _ Hl). apply Nat.ltb_lt. exact Hn. }
  rewrite Hall. destruct (decide (length vals = length plane)) as [_|Hne]; [|lia].
  eexists. split; [reflexivity|]. split; [|split].
  - split; [rewrite length_insert; exact Hlen|].
    intros k' plane' Hk'. destruct (decide (k' = k)) as [->|Hne].
    + rewrite list_lookup_insert_eq in Hk' by lia. injection Hk' as <-.
      split; [rewrite length_zip_with; lia|].
      intros l row Hrow. rewrite lookup_zip_with in Hrow.
      destruct (plane !! l) as [row0|] eqn:Hrow0; simpl in Hrow; [|done].
      destruct (vals !! l); simpl in Hrow; [|done]. injection Hrow as <-.
      rewrite length_insert. eauto.
    + rewrite list_lookup_insert_ne in Hk' by done. eauto.
  - intros l. unfold get3. rewrite list_lookup_insert_eq by lia. simpl.
    rewrite lookup_zip_with.
    destruct (plane !! l) as [row0|] eqn:Hrow0; simpl.
    + destruct (vals !! l) as [v|]; simpl; [|done].
      rewrite list_lookup_insert_eq; [done|]. rewrite (HC _ _ Hrow0). exact Hn.
    + symmetry. apply lookup_ge_None. apply lookup_ge_None in Hrow0. lia.
  - intros k' l n' Hdiff. unfold get3.
    destruct (decide (k' = k)) as [->|Hne].
    + rewrite list_lookup_insert_eq by lia. rewrite Hplane. simpl.
      rewrite lookup_zip_with.
      destruct (plane !! l) as [row0|] eqn:Hrow0; simpl; [|done].
      destruct (vals !! l) as [v|] eqn:Hv; simpl.
      * apply list_lookup_insert_ne. destruct Hdiff; congruence.
      * apply lookup_ge_None in Hv. apply lookup_lt_Some in Hrow0. lia.
    + rewrite list_lookup_insert_ne by done. reflexivity.
Qed.

Lemma sampled_data (K Nmax : nat) (p : umbrellas F) (a : arrays F) (k n : nat) :
  well_formed K Nmax p a -> sampled a k n ->
  is_Some (get2 (chi_kn a) k n) /\ is_Some (get2 (u_kn a) k n).
Proof.
  intros (_ & _ & _ & HNk & Hchi & Hu & Hcr & Hur & HN) (Nk & HNkk & Hn).
  pose proof (lookup_lt_Some _ _ _ HNkk) as Hk.
  assert (HNmax : (Nk <= Nmax)%nat).
  { rewrite Forall_lookup in HN. exact (HN _ _ HNkk). }
  unfold get2. split.
  - destruct (lookup_lt_is_Some_2 (chi_kn a) k) as [row Hrow]; [lia|].
    rewrite Hrow. simpl. apply lookup_lt_is_Some_2.
    rewrite Forall_lookup in Hcr. rewrite (Hcr _ _ Hrow). lia.
  - destruct (lookup_lt_is_Some_2 (u_kn a) k) as [row Hrow]; [lia|].
    rewrite Hrow. simpl. apply lookup_lt_is_Some_2.
    rewrite Forall_lookup in Hur. rewrite (Hur _ _ Hrow). lia.
Qed.

Lemma u_kln_sample_spec (K Nmax M : nat) (p : umbrellas F) (a : arrays F) (k n : nat)
    (u : list (list (list F))) :
  well_formed K Nmax p a -> shape3 K K M u -> (k < K)%nat -> (n < M)%nat -> sampled a k n ->
  exists u', u_kln_sample K p a k n u = Ok u' /\ shape3 K K M u' /\
    (forall l, get3 u' k l n = entry p a k l n) /\
    (forall k' l n', k' <> k \/ n' <> n -> get3 u' k' l n' = get3 u k' l n').
Proof.
  intros Hwf Hsh Hk Hn Hs.
  destruct (sampled_data _ _ _ _ _ _ Hwf Hs) as [[chi Hchi] [ukn Hukn]].
  destruct Hwf as (Hc0 & HKk & Hb & HNk & _).
  unfold get2 in Hchi, Hukn.
  destruct (chi_kn a !! k) as [chi_row|] eqn:Hcrow; simpl in Hchi; [|done].
  destruct (u_kn a !! k) as [u_row|] eqn:Hurow; simpl in Hukn; [|done].
  destruct (lookup_lt_is_Some_2 (beta_k p) k) as [b Hbk]; [lia|].
  unfold u_kln_sample.
  rewrite (index_Ok _ _ _ Hcrow). simpl. rewrite (index_Ok _ _ _ Hchi). simpl.
  rewrite min_image_spec by (rewrite length_map; exact Hc0). simpl.
  rewrite (index_Ok _ _ _ Hurow). simpl. rewrite (index_Ok _ _ _ Hukn). simpl.
  rewrite (index_Ok _ _ _ Hbk). simpl.
  unfold umbrella_energies.
  destruct (decide _) as [_|Hne]; [|rewrite !length_map in Hne; lia]. simpl.
  match goal with |- context [assign_kn u k n ?v] => set (vals := v) end.
  destruct (assign_kn_spec K K M u k n vals) as (u' & Hrun & Hsh' & Hnew & Hold); auto.
  { unfold vals. rewrite length_zip_with, !length_map. lia. }
  exists u'. split; [exact Hrun|]. split; [exact Hsh'|]. split; [|exact Hold].
  intros l. rewrite Hnew. unfold vals, entry, get2.
  rewrite Hcrow, Hurow. simpl. rewrite Hchi, Hukn. simpl.
  rewrite lookup_zip_with, !list_lookup_fmap.
  destruct (K_k p !! l) as [kk|] eqn:Hkk; simpl.
  - destruct (chi0_k p !! l) as [c0|] eqn:Hc0l; simpl.
    + rewrite Hbk. reflexivity.
    + apply lookup_ge_None in Hc0l. apply lookup_lt_Some in Hkk. lia.
  - destruct (chi0_k p !! l) as [c0|] eqn:Hc0l; simpl; reflexivity.
Qed.

Lemma sampled_lt_max (a : arrays F) (k n : nat) :
  sampled a k n -> (n < max_list (N_k a))%nat.
Proof.
  intros (Nk & HNk & Hn).
  assert (Nk ≤ max_list (N_k a))%nat; [|lia].
  apply max_list_elem_of_le. apply list_elem_of_lookup. eauto.
Qed.

Lemma build_u_kln_spec (K Nmax : nat) (p : umbrellas F) (a : arrays F) :
  well_formed K Nmax p a ->
  exists u, build_u_kln K p a = Ok u /\
    forall k l n, sampled a k n -> get3 u k l n = entry p a k l n.
Proof.
  intros Hwf. pose proof Hwf as (_ & _ & _ & HNk & _).
  set (M := max_list (N_k a)).
  destruct (for_range_inv
    (fun k' u => shape3 K K M u /\
       forall k l n, (k < k')%nat -> sampled a k n -> get3 u k l n = entry p a k l n)
    K
    (fun k u => Nk ← index (N_k a) k; for_range Nk (u_kln_sample K p a k) u)
    (zeros3 K K M)) as (u & Hrun & _ & Hu).
  - split; [apply zeros3_shape | intros; lia].
  - intros k u Hk [Hsh Hdone].
    destruct (lookup_lt_is_Some_2 (N_k a) k) as [Nk HNkk]; [lia|].
    rewrite (index_Ok _ _ _ HNkk). simpl.
    destruct (for_range_inv
      (fun n' u' => shape3 K K M u' /\
         (forall k0 l n, (k0 < k)%nat -> sampled a k0 n -> get3 u' k0 l n = entry p a k0 l n) /\
         (forall l n, (n < n')%nat -> get3 u' k l n = entry p a k l n))
      Nk (u_kln_sample K p a k) u) as (u' & Hrun' & Hsh' & Hprev & Hcur).
    + split; [exact Hsh|]. split; [exact Hdone|]. intros; lia.
    + intros n u0 Hn (Hsh0 & Hprev0 & Hcur0).
      assert (Hs : sampled a k n) by (exists Nk; auto).
      destruct (u_kln_sample_spec K Nmax M p a k n u0) as (u1 & Hr1 & Hsh1 & Hnew & Hold); auto.
      { eapply sampled_lt_max; exact Hs. }
      exists u1. split; [exact Hr1|]. split; [exact Hsh1|]. split.
      * intros k0 l n0 Hk0 Hs0. rewrite Hold by (left; lia). auto.
      * intros l n0 Hn0. destruct (decide (n0 = n)) as [->|Hne]; [apply Hnew|].
        rewrite Hold by (right; exact Hne). apply Hcur0. lia.
    + exists u'. split; [exact Hrun'|]. split; [exact Hsh'|].
      intros k0 l n Hk0 Hs0. destruct (decide (k0 = k)) as [->|Hne].
      * destruct Hs0 as (Nk' & HNk' & Hn). apply Hcur. congruence.
      * apply Hprev; [lia | exact Hs0].
  - exists u. split; [exact Hrun|]. intros k l n Hs. apply Hu; [|exact Hs].
    destruct Hs as (Nk & HNkk & _). apply lookup_lt_Some in HNkk. lia.
Qed.


(** C1. For every window k, bias window l and retained sample n < N_k[k], the
    matrix built by lines 178-187 holds at [k][l][n] the value
    u_kn[k][n] + beta_k[k] * (K_k[l]/2) * dchi^2, where dchi is
    chi_kn[k][n] - chi0_k[l], replaced by 360 - |dchi| when |dchi| > 180.
    The build raises nothing on arrays of the allocated shapes. *)
Theorem u_kln_energy_plus_bias (K Nmax : nat) (p : umbrellas F) (a : arrays F) :
  well_formed K Nmax p a ->
  exists u, build_u_kln K p a = Ok u /\
    forall k l n Nk chi ukn c0 kk b,
      N_k a !! k = Some Nk -> (n < Nk)%nat ->
      get2 (chi_kn a) k n = Some chi -> get2 (u_kn a) k n = Some ukn ->
      chi0_k p !! l = Some c0 -> K_k p !! l = Some kk -> beta_k p !! k = Some b ->
      let dchi := sub chi c0 in
      let dchi := if ltb (lit 180) (fabs dchi) then sub (lit 360) (fabs dchi) else dchi in
      get3 u k l n = Some (add ukn (mul (mul b (div kk (lit 2))) (mul dchi dchi))).
Proof.
  intros Hwf. destruct (build_u_kln_spec K Nmax p a Hwf) as (u & Hrun & Hu).
  exists u. split; [exact Hrun|].
  intros k l n Nk chi ukn c0 kk b HNk Hn Hchi Hukn Hc0 Hkk Hb.
  simpl. rewrite Hu by (exists Nk; auto).
  unfold entry. rewrite Hchi, Hukn, Hc0, Hkk, Hb. reflexivity.
Qed.

(** C3. Two windows k and l with the same spring center and the same spring
    constant get the same energies: u_kln[k][l][n] = u_kln[k][k][n] for every
    retained sample n < N_k[k]. *)
Theorem u_kln_equal_umbrellas (K Nmax : nat) (p : umbrellas F) (a : arrays F) :
  well_formed K Nmax p a ->
  exists u, build_u_kln K p a = Ok u /\
    forall k l n Nk c0 kk,
      N_k a !! k = Some Nk -> (n < Nk)%nat ->
      chi0_k p !! k = Some c0 -> chi0_k p !! l = Some c0 ->
      K_k p !! k = Some kk -> K_k p !! l = Some kk ->
      is_Some (get3 u k k n) /\ get3 u k l n = get3 u k k n.
Proof.
  intros Hwf. destruct (build_u_kln_spec K Nmax p a Hwf) as (u & Hrun & Hu).
  exists u. split; [exact Hrun|].
  intros k l n Nk c0 kk HNk Hn Hc0k Hc0l Hkkk Hkkl.
  assert (Hs : sampled a k n) by (exists Nk; auto).
  rewrite !Hu by exact Hs.
  destruct (sampled_data _ _ _ _ _ _ Hwf Hs) as [[chi Hchi] [ukn Hukn]].
  destruct Hwf as (_ & _ & Hb & HNkl & _).
  destruct (lookup_lt_is_Some_2 (beta_k p) k) as [b Hbk].
  { apply lookup_lt_Some in HNk. lia. }
  unfold entry. rewrite Hchi, Hukn, Hc0k, Hc0l, Hkkk, Hkkl, Hbk. simpl. eauto.
Qed.

End Matrix.

Lemma demo_well_formed : well_formed 2 3 demo_umbrellas demo_arrays.
Proof. unfold well_formed. simpl. repeat split; repeat constructor. Qed.

Lemma u_kln_energy_plus_bias_witness :
  exists u, build_u_kln 2 demo_umbrellas demo_arrays = Ok u /\
    get3 u 0 0 0 = Some (1 + 1 * (2 / 2) * (15 * 15))%Q.
Proof.
  destruct (u_kln_energy_plus_bias 2 3 demo_umbrellas demo_arrays demo_well_formed)
    as (u & Hrun & Hu).
  exists u. split; [exact Hrun|].
  apply (Hu 0 0 0 2 175%Q 1%Q (-170)%Q 2%Q 1%Q)%nat; try reflexivity. lia.
Defined.

Lemma u_kln_equal_umbrellas_witness :
  exists u, build_u_kln 2 twin_umbrellas demo_arrays = Ok u /\
    is_Some (get3 u 0 0 0) /\ get3 u 0 1 0 = get3 u 0 0 0.
Proof.
  destruct (u_kln_equal_umbrellas 2 3 twin_umbrellas demo_arrays) as (u & Hrun & Hu).
  { unfold well_formed. simpl. repeat split; repeat constructor. }
  exists u. split; [exact Hrun|].
  apply (Hu 0 1 0 2 90%Q 2%Q)%nat; try reflexivity. lia.
Defined.

(** ** The closures of line 249 *)

Section Closures.
Context {F : Type} `{Arith F}.

(** C6. The k-th lambda of the fkbias list, called on x, returns
    bias_potential(x, k): each keeps its own window index as the default of
    klocal, whatever the global k holds when it is called.  This list is what
    the spline branch stores under 'fkbias'. *)
Theorem fkbias_own_window :
  (forall K k : nat,
     (k < K)%nat ->
     length (fkbias K) = K /\
     exists f, fkbias K !! k = Some f /\
       forall (g : globals F) (x : F),
         call_bias g f x = bias_potential (g_umbrellas g) x k) /\
  (forall (method : string) (st st' : script_state F),
     fit_spline method st = Ok st' ->
     exists d, spline_parameters st' = Some d /\
       d !! "fkbias"%string = Some (VFuns (fkbias K))).
Proof.
  split.
  - intros Kn k Hk. unfold fkbias. split; [rewrite length_map, length_seq; reflexivity|].
    exists {| klocal_default := k |}. split.
    + rewrite list_lookup_fmap, lookup_seq_lt by exact Hk. reflexivity.
    + intros g x. reflexivity.
  - intros method st st'. unfold fit_spline.
    destruct (last_char method) as [c| |]; simpl; try discriminate.
    destruct (int_of_char c) as [z| |]; simpl; try discriminate.
    intros [= <-]. eexists. split; [reflexivity|]. simplify_map_eq. reflexivity.
Qed.

End Closures.

Lemma fkbias_own_window_witness :
  length (fkbias K) = K /\
  exists f, fkbias K !! 7%nat = Some f /\
    forall (g : globals Q) (x : Q),
      call_bias g f x = bias_potential (g_umbrellas g) x 7.
Proof. apply (proj1 (fkbias_own_window (F := Q)) K 7%nat). unfold K. lia. Defined.

(** ** The inline bias against bias_potential *)

Lemma of_bool_blend (i : bool) (a d : Q) :
  (of_bool i * a + (1 - of_bool i) * d == if i then a else d)%Q.
Proof. destruct i; unfold of_bool; simpl; ring. Qed.

Lemma bias_potential_value (p : umbrellas Q) (x : Q) (k : nat) (c0 b kk : Q) :
  chi0_k p !! k = Some c0 -> beta_k p !! k = Some b -> K_k p !! k = Some kk ->
  exists v, bias_potential p x k = Ok v /\
    (v == b * (kk / 2) * (min_image1 (x - c0) * min_image1 (x - c0)))%Q.
Proof.
  intros Hc0 Hb Hkk. unfold bias_potential.
  rewrite (index_Ok _ _ _ Hc0). simpl.
  rewrite (index_Ok _ _ _ Hb). simpl.
  rewrite (index_Ok _ _ _ Hkk). simpl.
  eexists. split; [reflexivity|].
  unfold min_image1. simpl.
  rewrite of_bool_blend. reflexivity.
Qed.

(** The inline bias of line 187 and [bias_potential] differ by the factor
    beta_k[k] against beta_k[l], and by nothing else. *)
Lemma inline_bias_and_bias_potential (K Nmax : nat) (p : umbrellas Q) (a : arrays Q) :
  well_formed K Nmax p a ->
  exists u, build_u_kln K p a = Ok u /\
    forall k l n Nk chi ukn bk bl,
      N_k a !! k = Some Nk -> (n < Nk)%nat -> (l < K)%nat ->
      get2 (chi_kn a) k n = Some chi -> get2 (u_kn a) k n = Some ukn ->
      beta_k p !! k = Some bk -> beta_k p !! l = Some bl ->
      exists e v, get3 u k l n = Some e /\ bias_potential p chi l = Ok v /\
        (bl * (e - ukn) == bk * v)%Q /\
        (bk == bl -> e - ukn == v)%Q.
Proof.
  intros Hwf.
  destruct (build_u_kln_spec K Nmax p a Hwf) as (u & Hrun & Hu).
  exists u. split; [exact Hrun|].
  intros k l n Nk chi ukn bk bl HNk Hn Hl Hchi Hukn Hbk Hbl.
  destruct Hwf as (Hc0 & HKk & _).
  destruct (lookup_lt_is_Some_2 (chi0_k p) l) as [c0 Hc0l]; [lia|].
  destruct (lookup_lt_is_Some_2 (K_k p) l) as [kk Hkkl]; [lia|].
  destruct (bias_potential_value p chi l c0 bl kk Hc0l Hbl Hkkl) as (v & Hv & Hveq).
  eexists _, v. split.
  { rewrite Hu by (exists Nk; auto). unfold entry.
    rewrite Hchi, Hukn, Hc0l, Hkkl, Hbk. reflexivity. }
  split; [exact Hv|]. simpl.
  set (d := min_image1 (chi - c0)%Q) in *. split.
  - rewrite Hveq. change (inject_Z 2) with 2%Q. ring.
  - intros Hbb. rewrite Hveq, Hbb. change (inject_Z 2) with 2%Q. ring.
Qed.

(** C2, evaluated.  Window 0 is at 300 K and window 1 at 600 K, with equal
    spring centers and constants; the one retained sample of window 0 is at
    chi = 1 with u_kn = 0.  The matrix entry u_kln[0][1][0] exceeds u_kn[0][0]
    by twice bias_potential(1, 1). *)
Theorem inline_bias_differs_from_bias_potential :
  exists u e ukn v,
    build_u_kln K two_temperature_umbrellas one_sample_arrays = Ok u /\
    get3 u 0 1 0 = Some e /\
    get2 (u_kn one_sample_arrays) 0 0 = Some ukn /\
    bias_potential two_temperature_umbrellas 1%Q 1 = Ok v /\
    (e - ukn == 2 * v)%Q /\ ~ (e - ukn == v)%Q.
Proof.
  remember (build_u_kln K two_temperature_umbrellas one_sample_arrays) as r eqn:Hr.
  vm_compute in Hr. subst r.
  eexists _, _, _, _.
  split; [reflexivity|].
  split; [vm_compute; reflexivity|].
  split; [vm_compute; reflexivity|].
  split; [vm_compute; reflexivity|].
  split; [reflexivity | intros Heq; discriminate Heq].
Qed.

(** ** The wrap in exact arithmetic *)

Section ExactWrap.
Open Scope Q_scope.

Lemma ltb_Q_true (a b : Q) : ltb a b = true <-> a < b.
Proof.
  simpl. rewrite negb_true_iff. split.
  - intros Hf. apply Qnot_le_lt. intros Hle. apply Qle_bool_iff in Hle. congruence.
  - intros Hlt. destruct (Qle_bool b a) eqn:E; [|reflexivity].
    apply Qle_bool_iff in E. exfalso. exact (Qlt_not_le _ _ Hlt E).
Qed.

Lemma ltb_Q_false (a b : Q) : ltb a b = false <-> b <= a.
Proof.
  simpl. rewrite negb_false_iff. apply Qle_bool_iff.
Qed.

Lemma leb_Q_true (a b : Q) : leb a b = true <-> a <= b.
Proof. simpl. apply Qle_bool_iff. Qed.

Lemma leb_Q_false (a b : Q) : leb a b = false <-> b < a.
Proof.
  simpl. split.
  - intros Hf. apply Qnot_le_lt. intros Hle. apply Qle_bool_iff in Hle. congruence.
  - intros Hlt. destruct (Qle_bool a b) eqn:E; [|reflexivity].
    apply Qle_bool_iff in E. exfalso. exact (Qlt_not_le _ _ Hlt E).
Qed.

Lemma inject_Z_S (n : nat) : inject_Z (Z.of_nat (S n)) == inject_Z (Z.of_nat n) + 1.
Proof. rewrite Nat2Z.inj_succ. unfold Z.succ. rewrite inject_Z_plus. reflexivity. Qed.

Lemma wrap_up_exact (n : nat) :
  forall (chi : Q) (fuel : nat),
    -180 - 360 * inject_Z (Z.of_nat n) <= chi -> (n < fuel)%nat ->
    exists c, wrap_up fuel chi = Ok c /\ -180 <= c /\ (c = chi \/ c < 180).
Proof.
  induction n as [|n IH]; intros chi fuel Hlo Hfuel;
    (destruct fuel as [|fuel]; [lia|]); cbn [wrap_up].
  - assert (Hge : -180 <= chi) by (change (inject_Z (Z.of_nat 0)) with 0 in Hlo; lra).
    destruct (ltb chi (lit (-180))) eqn:E.
    + apply (ltb_Q_true chi (-180)) in E. lra.
    + exists chi. split; [reflexivity|]. split; [exact Hge | left; reflexivity].
  - destruct (ltb chi (lit (-180))) eqn:E.
    + apply (ltb_Q_true chi (-180)) in E.
      destruct (IH (chi + 360) fuel) as (c & Hc & Hge & Hor); [|lia|].
      { rewrite inject_Z_S in Hlo. lra. }
      exists c. split; [exact Hc|]. split; [exact Hge|]. right.
      destruct Hor as [->|Hlt]; [lra | exact Hlt].
    + apply (ltb_Q_false chi (-180)) in E.
      exists chi. split; [reflexivity|]. split; [exact E | left; reflexivity].
Qed.

Lemma wrap_down_exact (n : nat) :
  forall (chi : Q) (fuel : nat),
    -180 <= chi -> chi < 180 + 360 * inject_Z (Z.of_nat n) -> (n < fuel)%nat ->
    exists c, wrap_down fuel chi = Ok c /\ canonical c.
Proof.
  induction n as [|n IH]; intros chi fuel Hlo Hhi Hfuel;
    (destruct fuel as [|fuel]; [lia|]); cbn [wrap_down].
  - assert (Hlt : chi < 180) by (change (inject_Z (Z.of_nat 0)) with 0 in Hhi; lra).
    destruct (leb (lit 180) chi) eqn:E.
    + apply (leb_Q_true 180 chi) in E. lra.
    + exists chi. split; [reflexivity|]. split; [exact Hlo | exact Hlt].
  - destruct (leb (lit 180) chi) eqn:E.
    + apply (leb_Q_true 180 chi) in E.
      apply (IH (chi - 360) fuel); [lra | | lia].
      rewrite inject_Z_S in Hhi. lra.
    + apply (leb_Q_false 180 chi) in E.
      exists chi. split; [reflexivity|]. split; [exact Hlo | exact E].
Qed.

Lemma wrap_steps_bound (chi : Q) : Qabs chi <= inject_Z (Z.of_nat (wrap_steps chi)).
Proof.
  unfold wrap_steps. rewrite Z2Nat.id.
  - apply Qle_ceiling.
  - assert (H0 : 0 <= Qabs chi) by apply Qabs_nonneg.
    apply Qceiling_resp_le in H0. exact H0.
Qed.

(** The wrap of lines 106-109 terminates in exact arithmetic, with a value in
    the canonical interval. *)
Lemma wrap_chi_exact (chi : Q) (fuel : nat) :
  (wrap_steps chi < fuel)%nat ->
  exists c, wrap_chi fuel chi = Ok c /\ canonical c.
Proof.
  intros Hfuel. pose proof (wrap_steps_bound chi) as Hb.
  set (n := wrap_steps chi) in *.
  assert (Hn : 0 <= inject_Z (Z.of_nat n)).
  { change 0 with (inject_Z 0). rewrite <- Zle_Qle. lia. }
  assert (Hlo : - Qabs chi <= chi).
  { pose proof (Qle_Qabs (- chi)) as Ha. rewrite Qabs_opp in Ha. lra. }
  pose proof (Qle_Qabs chi) as Hhi.
  destruct (wrap_up_exact n chi fuel) as (c1 & H1 & Hge & Hor); [lra | exact Hfuel |].
  destruct (wrap_down_exact n c1 fuel) as (c & H2 & Hc); [exact Hge | | exact Hfuel |].
  { destruct Hor as [->|Hlt]; lra. }
  exists c. unfold wrap_chi. rewrite H1. simpl. split; [exact H2 | exact Hc].
Qed.

End ExactWrap.

Section Ingestion.
Context {F : Type} `{Arith F}.
Variable P : F -> Prop.

Lemma read_torsions_loop (fuel : nat) (ts : list F) :
  forall (row : list F) (n0 : nat),
    (forall chi, chi ∈ ts -> exists c, wrap_chi fuel chi = Ok c /\ P c) ->
    Forall P row -> (n0 + length ts <= length row)%nat ->
    exists row',
      for_each ts
        (fun chi '(row, n) =>
           c ← wrap_chi fuel chi; row' ← store row n c; Ok (row', S n))
        (row, n0) = Ok (row', (n0 + length ts)%nat)
      /\ Forall P row' /\ length row' = length row.
Proof.
  induction ts as [|chi ts IH]; intros row n0 Hwrap HP Hlen.
  - exists row. simpl. rewrite Nat.add_0_r. auto.
  - simpl in Hlen. destruct (Hwrap chi) as (c & Hc & HPc); [left|].
    cbn [for_each]. rewrite Hc. simpl. rewrite store_Ok by lia. simpl.
    destruct (IH (<[n0 := c]> row) (S n0)) as (row' & Hrun & HP' & Hlen').
    + intros chi' Hin. apply Hwrap. right. exact Hin.
    + apply Forall_insert; assumption.
    + rewrite length_insert. lia.
    + exists row'. rewrite Hrun. rewrite length_insert in Hlen'.
      split; [f_equal; f_equal; simpl; lia | auto].
Qed.

Lemma read_energies_loop (es : list F) :
  forall (row : list F) (n0 : nat),
    (n0 + length es <= length row)%nat ->
    exists row',
      for_each es
        (fun u '(row, n) => row' ← store row n u; Ok (row', S n))
        (row, n0) = Ok (row', (n0 + length es)%nat)
      /\ length row' = length row.
Proof.
  induction es as [|e es IH]; intros row n0 Hlen.
  - exists row. simpl. rewrite Nat.add_0_r. auto.
  - simpl in Hlen. cbn [for_each]. rewrite store_Ok by lia. simpl.
    destruct (IH (<[n0 := e]> row) (S n0)) as (row' & Hrun & Hlen').
    + rewrite length_insert. lia.
    + exists row'. rewrite Hrun. rewrite length_insert in Hlen'.
      split; [f_equal; f_equal; simpl; lia | auto].
Qed.

Lemma pick_loop (row : list F) (idx : list nat) :
  forall acc : list F,
    Forall (fun i => (i < length row)%nat) idx -> Forall P row ->
    exists vals,
      for_each idx (fun i acc => x ← index row i; Ok (acc ++ [x])) acc = Ok (acc ++ vals)
      /\ length vals = length idx /\ Forall P vals.
Proof.
  induction idx as [|i idx IH]; intros acc Hidx HP.
  - exists []. simpl. rewrite app_nil_r. auto.
  - apply Forall_cons in Hidx as [Hi Hidx].
    destruct (lookup_lt_is_Some_2 row i Hi) as [x Hx].
    cbn [for_each]. rewrite (index_Ok _ _ _ Hx). simpl.
    destruct (IH (acc ++ [x]) Hidx HP) as (vals & Hrun & Hlen & HPv).
    exists (x :: vals). rewrite Hrun, <- app_assoc. simpl.
    split; [reflexivity|]. split; [lia|].
    constructor; [|exact HPv]. rewrite Forall_lookup in HP. exact (HP _ _ Hx).
Qed.

Lemma subsample_spec (row : list F) (idx : list nat) :
  Forall (fun i => (i < length row)%nat) idx -> (length idx <= length row)%nat ->
  Forall P row ->
  exists row', subsample row idx = Ok row' /\ Forall P row' /\ length row' = length row.
Proof.
  intros Hidx Hlen HP. unfold subsample, pick.
  destruct (pick_loop row idx [] Hidx HP) as (vals & Hrun & Hlv & HPv).
  rewrite Hrun. simpl. destruct (decide _) as [_|Hn]; [|lia].
  eexists. split; [reflexivity|]. split.
  - apply Forall_app. split; [exact HPv|]. apply Forall_drop. exact HP.
  - rewrite length_app, length_drop. lia.
Qed.

End Ingestion.

Section IngestAll.
Context {F : Type} `{Arith F}.
Variable P : F -> Prop.
Hypothesis P_zero : P (lit 0).

Lemma ingest_window_spec (fuel : nat) (dt : bool) (Nmax : nat) (w : window_data F)
    (chi_row u_row : list F) :
  fits Nmax w ->
  (forall chi, chi ∈ torsions w -> exists c, wrap_chi fuel chi = Ok c /\ P c) ->
  length chi_row = Nmax -> length u_row = Nmax -> Forall P chi_row ->
  exists chi_row' u_row',
    ingest_window fuel dt w chi_row u_row = Ok (length (indices w), chi_row', u_row')
    /\ length chi_row' = Nmax /\ length u_row' = Nmax /\ Forall P chi_row'.
Proof.
  intros (Ht & He & Hi & Hidx) Hwrap Hc Hu HP. unfold ingest_window, read_torsions.
  destruct (read_torsions_loop P fuel (torsions w) chi_row 0 Hwrap HP)
    as (chi1 & Hr1 & HP1 & Hl1); [simpl; lia|].
  rewrite Hr1. simpl.
  assert (Hu1 : exists u1 n1,
             (if dt then read_energies (energies w) u_row else Ok (u_row, 0%nat))
             = Ok (u1, n1) /\ length u1 = Nmax).
  { destruct dt; [|eauto]. unfold read_energies.
    destruct (read_energies_loop (energies w) u_row 0) as (u1 & Hr & Hl); [simpl; lia|].
    rewrite Hr. exists u1, (0 + length (energies w))%nat. split; [reflexivity | lia]. }
  destruct Hu1 as (u1 & n1 & Hr2 & Hl2). rewrite Hr2. simpl.
  destruct (subsample_spec (fun _ => True) u1 (indices w)) as (u2 & Hr3 & _ & Hl3).
  { rewrite Hl2. exact Hidx. } { lia. } { apply Forall_forall. auto. }
  rewrite Hr3. simpl.
  destruct (subsample_spec P chi1 (indices w)) as (chi2 & Hr4 & HP4 & Hl4).
  { rewrite Hl1, Hc. exact Hidx. } { lia. } { exact HP1. }
  rewrite Hr4. simpl. exists chi2, u2. repeat split; auto; lia.
Qed.

Lemma ingest_spec (fuel : nat) (dt : bool) (K Nmax : nat) (ws : list (window_data F)) :
  length ws = K -> Forall (fits Nmax) ws ->
  (forall w chi, w ∈ ws -> chi ∈ torsions w -> exists c, wrap_chi fuel chi = Ok c /\ P c) ->
  exists a, ingest fuel dt K Nmax ws = Ok a /\
    length (N_k a) = K /\ length (chi_kn a) = K /\ length (u_kn a) = K /\
    Forall (fun row => length row = Nmax /\ Forall P row) (chi_kn a) /\
    Forall (fun row => length row = Nmax) (u_kn a) /\
    (forall k w, ws !! k = Some w -> N_k a !! k = Some (length (indices w))).
Proof.
  intros Hws Hfits Hwrap. unfold ingest.
  match goal with |- context [for_range K ?b ?s] => set (body := b); set (a0 := s) end.
  destruct (for_range_inv
    (fun i a =>
       length (N_k a) = K /\ length (chi_kn a) = K /\ length (u_kn a) = K /\
       Forall (fun row => length row = Nmax /\ Forall P row) (chi_kn a) /\
       Forall (fun row => length row = Nmax) (u_kn a) /\
       (forall k w, (k < i)%nat -> ws !! k = Some w ->
          N_k a !! k = Some (length (indices w))))
    K body a0) as (a & Hrun & HN & Hc & Hu & HPc & HPu & HNk).
  - unfold a0. simpl. unfold zeros2, zeros. rewrite !length_replicate.
    repeat split; auto.
    + apply Forall_replicate. split; [apply length_replicate|].
      apply Forall_replicate. exact P_zero.
    + apply Forall_replicate. apply length_replicate.
    + intros; lia.
  - intros k a Hk (HN & Hc & Hu & HPc & HPu & HNk).
    destruct (lookup_lt_is_Some_2 ws k) as [w Hw]; [lia|].
    destruct (lookup_lt_is_Some_2 (chi_kn a) k) as [chi_row Hcr]; [lia|].
    destruct (lookup_lt_is_Some_2 (u_kn a) k) as [u_row Hur]; [lia|].
    pose proof (proj1 (Forall_lookup _ _) HPc _ _ Hcr) as [Hlc HPr].
    pose proof (proj1 (Forall_lookup _ _) HPu _ _ Hur) as Hlu.
    pose proof (proj1 (Forall_lookup _ _) Hfits _ _ Hw) as Hfit.
    destruct (ingest_window_spec fuel dt Nmax w chi_row u_row Hfit)
      as (chi' & u' & Hrun & Hlc' & Hlu' & HP'); auto.
    { intros chi Hin. apply (Hwrap w); [|exact Hin]. apply list_elem_of_lookup. eauto. }
    unfold body. rewrite (index_Ok _ _ _ Hw). simpl.
    rewrite (index_Ok _ _ _ Hcr). simpl. rewrite (index_Ok _ _ _ Hur). simpl.
    rewrite Hrun. simpl. eexists. split; [reflexivity|]. simpl.
    rewrite !length_insert. repeat split; auto.
    + apply Forall_insert; auto.
    + apply Forall_insert; auto.
    + intros k' w' Hk' Hw'. destruct (decide (k' = k)) as [->|Hne].
      * rewrite list_lookup_insert_eq by lia. congruence.
      * rewrite list_lookup_insert_ne by done. apply HNk; [lia | exact Hw'].
  - exists a. repeat split; auto.
    intros k w Hw. apply HNk; [|exact Hw]. apply lookup_lt_Some in Hw. lia.
Qed.

End IngestAll.

(** ** Ingestion with the subsampler call *)

Lemma bind_Ok_inv {A B} (m : res A) (f : A -> res B) (b : B) :
  (m ≫= f) = Ok b -> exists a, m = Ok a /\ f a = Ok b.
Proof. destruct m as [a| |]; simpl; [eauto | discriminate | discriminate]. Qed.

Lemma bind_fuel_inv {A B} (m : res A) (f : A -> res B) :
  (m ≫= f) = OutOfFuel -> m = OutOfFuel \/ exists a, m = Ok a /\ f a = OutOfFuel.
Proof. destruct m as [a| |]; simpl; [eauto | discriminate | auto]. Qed.

Lemma for_each_Ok_inv {X S} (I : S -> Prop) (xs : list X) (body : X -> S -> res S) :
  (forall x s s', x ∈ xs -> I s -> body x s = Ok s' -> I s') ->
  forall s0 s, I s0 -> for_each xs body s0 = Ok s -> I s.
Proof.
  induction xs as [|x xs IH]; intros Hstep s0 s H0; cbn [for_each].
  - intros [= <-]. exact H0.
  - intros (s1 & H1 & Hrest)%bind_Ok_inv.
    apply (IH (fun y t t' Hy => Hstep y t t' (list_elem_of_further _ _ _ Hy)) s1 s);
      [|exact Hrest].
    apply (Hstep x s0 s1); [left | exact H0 | exact H1].
Qed.

Lemma for_each_fuel {X S} (xs : list X) (body : X -> S -> res S) :
  (forall x s, x ∈ xs -> body x s <> OutOfFuel) ->
  forall s0, for_each xs body s0 <> OutOfFuel.
Proof.
  induction xs as [|x xs IH]; intros Hstep s0; cbn [for_each]; [discriminate|].
  intros [Hx|(s1 & _ & Hrest)]%bind_fuel_inv.
  - apply (Hstep x s0); [left | exact Hx].
  - apply (IH (fun y t Hy => Hstep y t (list_elem_of_further _ _ _ Hy)) s1). exact Hrest.
Qed.

Lemma index_fuel {A} (a : list A) (i : nat) : index a i <> OutOfFuel.
Proof. unfold index. destruct (a !! i); discriminate. Qed.

Lemma store_fuel {A} (a : list A) (n : nat) (x : A) : store a n x <> OutOfFuel.
Proof. unfold store. destruct (decide _); discriminate. Qed.

Lemma called_fuel {A} (r : exn + A) : called r <> OutOfFuel.
Proof. destruct r; discriminate. Qed.

Section IngestCalls.
Context {F : Type} `{Arith F}.
Variable P : F -> Prop.

Lemma read_torsions_Ok (fuel : nat) (ts : list F) :
  (forall chi c, chi ∈ ts -> wrap_chi fuel chi = Ok c -> P c) ->
  forall (row : list F) (n0 : nat) (row' : list F) (n' : nat),
    Forall P row ->
    for_each ts
      (fun chi '(row, n) => c ← wrap_chi fuel chi; row' ← store row n c; Ok (row', S n))
      (row, n0) = Ok (row', n') ->
    Forall P row' /\ length row' = length row /\ n' = (n0 + length ts)%nat /\
    (ts = [] \/ n' <= length row)%nat.
Proof.
  induction ts as [|chi ts IH]; intros Hwrap row n0 row' n' HP; cbn [for_each].
  - intros [= <- <-]. rewrite Nat.add_0_r. auto.
  - intros ([row1 n1] & Hbody & Hrest)%bind_Ok_inv.
    apply bind_Ok_inv in Hbody as (c & Hc & Hbody).
    apply bind_Ok_inv in Hbody as (r1 & Hst & [= <- <-]).
    unfold store in Hst. destruct (decide (n0 < length row)%nat) as [Hn0|]; [|discriminate].
    injection Hst as <-.
    destruct (IH (fun y d Hy => Hwrap y d (list_elem_of_further _ _ _ Hy))
                 (<[n0 := c]> row) (S n0) row' n') as (HP' & Hl & Hn & Hle);
      [apply Forall_insert; [exact HP | apply (Hwrap chi c); [left | exact Hc]]
      | exact Hrest |].
    rewrite length_insert in Hl, Hle. split; [exact HP'|]. split; [exact Hl|].
    split; [simpl; lia|]. right. destruct Hle as [->|Hle]; simpl in *; lia.
Qed.

Lemma read_torsions_fuel (fuel : nat) (ts : list F) (row : list F) :
  (forall chi, chi ∈ ts -> wrap_chi fuel chi <> OutOfFuel) ->
  read_torsions fuel ts row <> OutOfFuel.
Proof.
  intros Hwrap. unfold read_torsions. apply for_each_fuel.
  intros chi [r n] Hchi [Hw|(c & _ & [Hs|(r1 & _ & Hd)]%bind_fuel_inv)]%bind_fuel_inv.
  - exact (Hwrap chi Hchi Hw).
  - exact (store_fuel _ _ _ Hs).
  - discriminate Hd.
Qed.

Lemma read_energies_Ok (es : list F) :
  forall (row : list F) (n0 : nat) (row' : list F) (n' : nat),
    for_each es (fun u '(row, n) => row' ← store row n u; Ok (row', S n)) (row, n0)
      = Ok (row', n') ->
    length row' = length row.
Proof.
  induction es as [|e es IH]; intros row n0 row' n'; cbn [for_each].
  - intros [= <- <-]. reflexivity.
  - intros ([row1 n1] & Hbody & Hrest)%bind_Ok_inv.
    apply bind_Ok_inv in Hbody as (r1 & Hst & [= <- <-]).
    unfold store in Hst. destruct (decide (n0 < length row)%nat); [|discriminate].
    injection Hst as <-. rewrite (IH _ _ _ _ Hrest). apply length_insert.
Qed.

Lemma read_energies_fuel (es : list F) (row : list F) : read_energies es row <> OutOfFuel.
Proof.
  unfold read_energies. apply for_each_fuel.
  intros u [r n] _ [Hs|(r1 & _ & Hd)]%bind_fuel_inv;
    [exact (store_fuel _ _ _ Hs) | discriminate Hd].
Qed.

Lemma pick_Ok (row : list F) (idx : list nat) :
  forall acc vals : list F,
    Forall P row -> Forall P acc ->
    for_each idx (fun i acc => x ← index row i; Ok (acc ++ [x])) acc = Ok vals ->
    Forall P vals /\ length vals = (length acc + length idx)%nat.
Proof.
  induction idx as [|i idx IH]; intros acc vals HP Hacc; cbn [for_each].
  - intros [= <-]. split; [exact Hacc | simpl; lia].
  - intros (acc1 & Hbody & Hrest)%bind_Ok_inv.
    apply bind_Ok_inv in Hbody as (x & Hx & [= <-]).
    unfold index in Hx. destruct (row !! i) as [y|] eqn:Hy; [|discriminate].
    injection Hx as ->.
    destruct (IH (acc ++ [x]) vals HP) as [HPv Hl]; [|exact Hrest|].
    + apply Forall_app. split; [exact Hacc|]. constructor; [|constructor].
      rewrite Forall_lookup in HP. exact (HP _ _ Hy).
    + split; [exact HPv|]. rewrite Hl, length_app. simpl. lia.
Qed.

Lemma subsample_Ok (row : list F) (idx : list nat) (row' : list F) :
  Forall P row -> subsample row idx = Ok row' ->
  Forall P row' /\ length row' = length row /\ (length idx <= length row)%nat.
Proof.
  intros HP. unfold subsample, pick. intros (vals & Hpick & Hrest)%bind_Ok_inv.
  destruct (decide (length idx <= length row)%nat) as [Hle|]; [|discriminate].
  injection Hrest as <-.
  destruct (pick_Ok row idx [] vals HP (Forall_nil_2 _) Hpick) as [HPv Hl]. simpl in Hl.
  split; [|split; [|exact Hle]].
  - apply Forall_app. split; [exact HPv | apply Forall_drop; exact HP].
  - rewrite length_app, length_drop. lia.
Qed.

End IngestCalls.

Section IngestCallsAll.
Context {F : Type} `{Arith F}.
Variable P : F -> Prop.

Lemma subsample_fuel (row : list F) (idx : list nat) : subsample row idx <> OutOfFuel.
Proof.
  unfold subsample, pick. intros [Hp|(vals & _ & Hd)]%bind_fuel_inv.
  - revert Hp. apply for_each_fuel.
    intros i acc _ [Hi|(x & _ & Hd)]%bind_fuel_inv;
      [exact (index_fuel _ _ Hi) | discriminate Hd].
  - destruct (decide _); discriminate Hd.
Qed.

Lemma choose_indices_fuel (ts : timeseries F) (dt : bool) (n : nat) (chi_row u_row : list F) :
  choose_indices ts dt n chi_row u_row <> OutOfFuel.
Proof.
  unfold choose_indices. destruct dt.
  - intros [Hc|(g & _ & Hc)]%bind_fuel_inv; exact (called_fuel _ Hc).
  - intros [Hc|(g1 & _ & [Hc|(g2 & _ & Hc)]%bind_fuel_inv)]%bind_fuel_inv;
      exact (called_fuel _ Hc).
Qed.

(** A window that is ingested with the calls of lines 134-145 is ingested by
    [ingest_window] on the indices the subsampler answered with; its rows
    keep their lengths, and at most as many samples are retained as a row
    has columns. *)
Lemma ingest_window_ts_Ok (ts : timeseries F) (fuel : nat) (dt : bool) (l : window_lines F)
    (chi_row u_row : list F) (n : nat) (chi_row' u_row' : list F) :
  (forall chi c, chi ∈ l_torsions l -> wrap_chi fuel chi = Ok c -> P c) ->
  Forall P chi_row ->
  ingest_window_ts ts fuel dt l chi_row u_row = Ok (n, chi_row', u_row') ->
  Forall P chi_row' /\ length chi_row' = length chi_row /\ length u_row' = length u_row /\
  (n <= length chi_row)%nat /\
  exists idx, n = length idx /\
    ingest_window fuel dt (answered l idx) chi_row u_row = Ok (n, chi_row', u_row').
Proof.
  intros Hwrap HP. unfold ingest_window_ts.
  intros ([chi1 n1] & Hrt & Hrest)%bind_Ok_inv.
  apply bind_Ok_inv in Hrest as ([u1 m1] & Hre & Hrest).
  apply bind_Ok_inv in Hrest as (idx & Hidx & Hrest).
  apply bind_Ok_inv in Hrest as (u2 & Hu2 & Hrest).
  apply bind_Ok_inv in Hrest as (chi2 & Hchi2 & [= <- <- <-]).
  pose proof Hrt as Hrt'. unfold read_torsions in Hrt'.
  destruct (read_torsions_Ok P fuel (l_torsions l) Hwrap _ _ _ _ HP Hrt') as (HP1 & Hl1 & _ & _).
  destruct (subsample_Ok P chi1 idx chi2 HP1 Hchi2) as (HP2 & Hl2 & Hle).
  assert (Hu1 : length u1 = length u_row).
  { destruct dt; [|injection Hre as <- _; reflexivity].
    unfold read_energies in Hre. exact (read_energies_Ok _ _ _ _ _ Hre). }
  destruct (subsample_Ok (fun _ => True) u1 idx u2) as (_ & Hlu & _);
    [apply Forall_forall; auto | exact Hu2 |].
  split; [exact HP2|]. split; [lia|]. split; [lia|]. split; [lia|].
  exists idx. split; [reflexivity|].
  unfold ingest_window. cbn [answered torsions energies indices].
  rewrite Hrt. cbn [mbind res_bind]. rewrite Hre. cbn [mbind res_bind].
  rewrite Hu2. cbn [mbind res_bind]. rewrite Hchi2. reflexivity.
Qed.

Lemma ingest_window_ts_fuel (ts : timeseries F) (fuel : nat) (dt : bool) (l : window_lines F)
    (chi_row u_row : list F) :
  (forall chi, chi ∈ l_torsions l -> wrap_chi fuel chi <> OutOfFuel) ->
  ingest_window_ts ts fuel dt l chi_row u_row <> OutOfFuel.
Proof.
  intros Hwrap. unfold ingest_window_ts.
  intros [Hrt|([chi1 n1] & _ & Hrest)]%bind_fuel_inv;
    [exact (read_torsions_fuel fuel _ _ Hwrap Hrt)|].
  apply bind_fuel_inv in Hrest as [Hre|([u1 m1] & _ & Hrest)].
  { destruct dt; [exact (read_energies_fuel _ _ Hre) | discriminate Hre]. }
  apply bind_fuel_inv in Hrest as [Hc|(idx & _ & Hrest)];
    [exact (choose_indices_fuel _ _ _ _ _ Hc)|].
  apply bind_fuel_inv in Hrest as [Hs|(u2 & _ & Hrest)]; [exact (subsample_fuel _ _ Hs)|].
  apply bind_fuel_inv in Hrest as [Hs|(chi2 & _ & Hrest)]; [exact (subsample_fuel _ _ Hs)|].
  discriminate Hrest.
Qed.

End IngestCallsAll.

Lemma for_range_Ok_inv {S} (I : nat -> S -> Prop) (n : nat) (body : nat -> S -> res S)
    (s0 s : S) :
  I 0%nat s0 ->
  (forall i t t', (i < n)%nat -> I i t -> body i t = Ok t' -> I (Datatypes.S i) t') ->
  for_range n body s0 = Ok s -> I n s.
Proof.
  revert s. induction n as [|n IH]; intros s H0 Hstep.
  - intros [= <-]. exact H0.
  - rewrite for_range_S. intros (s1 & Hrun & Hb)%bind_Ok_inv.
    apply (Hstep n s1 s); [lia | | exact Hb].
    apply IH; [exact H0 | | exact Hrun]. intros i t t' Hi. apply Hstep. lia.
Qed.

Section IngestWithCalls.
Context {F : Type} `{Arith F}.
Variable P : F -> Prop.
Hypothesis P_zero : P (lit 0).

(** What holds of the arrays whenever ingestion with the calls of lines
    134-145 returns. *)
Lemma ingest_ts_Ok (ts : timeseries F) (fuel : nat) (dt : bool) (K Nmax : nat)
    (ls : list (window_lines F)) (a : arrays F) :
  (forall l chi c, l ∈ ls -> chi ∈ l_torsions l -> wrap_chi fuel chi = Ok c -> P c) ->
  ingest_ts ts fuel dt K Nmax ls = Ok a ->
  length (N_k a) = K /\ length (chi_kn a) = K /\ length (u_kn a) = K /\
  Forall (fun row => length row = Nmax /\ Forall P row) (chi_kn a) /\
  Forall (fun row => length row = Nmax) (u_kn a) /\
  Forall (fun n => (n <= Nmax)%nat) (N_k a).
Proof.
  intros Hwrap. unfold ingest_ts.
  apply (for_range_Ok_inv
    (fun (_ : nat) a =>
       length (N_k a) = K /\ length (chi_kn a) = K /\ length (u_kn a) = K /\
       Forall (fun row => length row = Nmax /\ Forall P row) (chi_kn a) /\
       Forall (fun row => length row = Nmax) (u_kn a) /\
       Forall (fun n => (n <= Nmax)%nat) (N_k a))).
  - cbn [N_k chi_kn u_kn]. unfold zeros2, zeros. rewrite !length_replicate.
    repeat split; auto.
    + apply Forall_replicate. split; [apply length_replicate|].
      apply Forall_replicate. exact P_zero.
    + apply Forall_replicate. apply length_replicate.
    + apply Forall_replicate. lia.
  - intros k a0 a1 Hk (HN & Hc & Hu & HPc & HPu & HNk).
    intros (l & Hl & Hrest)%bind_Ok_inv.
    apply bind_Ok_inv in Hrest as (chi_row & Hcr & Hrest).
    apply bind_Ok_inv in Hrest as (u_row & Hur & Hrest).
    apply bind_Ok_inv in Hrest as ([[n chi'] u'] & Hw & [= <-]).
    unfold index in Hl, Hcr, Hur.
    destruct (ls !! k) as [l'|] eqn:Hlk; [|discriminate]. injection Hl as ->.
    destruct (chi_kn a0 !! k) as [r|] eqn:Hck; [|discriminate]. injection Hcr as ->.
    destruct (u_kn a0 !! k) as [r|] eqn:Huk; [|discriminate]. injection Hur as ->.
    pose proof (proj1 (Forall_lookup _ _) HPc _ _ Hck) as [Hlc HPr].
    pose proof (proj1 (Forall_lookup _ _) HPu _ _ Huk) as Hlu. cbv beta in Hlu.
    destruct (ingest_window_ts_Ok P ts fuel dt l chi_row u_row n chi' u')
      as (HP' & Hlc' & Hlu' & Hn & _); [|exact HPr|exact Hw|].
    { intros chi c Hchi. apply (Hwrap l). apply list_elem_of_lookup. eauto. exact Hchi. }
    cbn [N_k chi_kn u_kn]. rewrite !length_insert.
    split; [exact HN|]. split; [exact Hc|]. split; [exact Hu|].
    split; [|split]; apply Forall_insert; auto; cbv beta;
      [split; [lia | exact HP'] | lia | lia].
Qed.

(** Ingestion with the calls never exhausts a step budget that suffices for
    the wrap of every torsion. *)
Lemma ingest_ts_fuel (ts : timeseries F) (fuel : nat) (dt : bool) (K Nmax : nat)
    (ls : list (window_lines F)) :
  (forall l chi, l ∈ ls -> chi ∈ l_torsions l -> wrap_chi fuel chi <> OutOfFuel) ->
  ingest_ts ts fuel dt K Nmax ls <> OutOfFuel.
Proof.
  intros Hwrap. unfold ingest_ts, for_range. apply for_each_fuel.
  intros k a _ [Hi|(l & Hl & Hrest)]%bind_fuel_inv; [exact (index_fuel _ _ Hi)|].
  apply bind_fuel_inv in Hrest as [Hi|(chi_row & _ & Hrest)]; [exact (index_fuel _ _ Hi)|].
  apply bind_fuel_inv in Hrest as [Hi|(u_row & _ & Hrest)]; [exact (index_fuel _ _ Hi)|].
  apply bind_fuel_inv in Hrest as [Hw|([[n chi'] u'] & _ & Hd)]; [|discriminate Hd].
  revert Hw. apply ingest_window_ts_fuel. intros chi Hchi. apply (Hwrap l); [|exact Hchi].
  unfold index in Hl. destruct (ls !! k) as [l'|] eqn:Hlk; [|discriminate].
  injection Hl as ->. apply list_elem_of_lookup. eauto.
Qed.

End IngestWithCalls.

Section Answered.
Context {F : Type} `{Arith F}.

Lemma ingest_ts_steps (ts : timeseries F) (fuel : nat) (dt : bool) (ls : list (window_lines F))
    (n : nat) :
  forall (s : nat) (a0 a : arrays F),
    for_each (seq s n)
      (fun k a =>
         l ← index ls k;
         chi_row ← index (chi_kn a) k;
         u_row ← index (u_kn a) k;
         '(n, chi_row', u_row') ← ingest_window_ts ts fuel dt l chi_row u_row;
         Ok {| N_k := <[k := n]> (N_k a);
               chi_kn := <[k := chi_row']> (chi_kn a);
               u_kn := <[k := u_row']> (u_kn a) |}) a0 = Ok a ->
    exists idxs, length idxs = n /\
      forall ws : list (window_data F),
        (forall j l idx, ls !! (s + j)%nat = Some l -> idxs !! j = Some idx ->
           ws !! (s + j)%nat = Some (answered l idx)) ->
        for_each (seq s n)
          (fun k a =>
             w ← index ws k;
             chi_row ← index (chi_kn a) k;
             u_row ← index (u_kn a) k;
             '(n, chi_row', u_row') ← ingest_window fuel dt w chi_row u_row;
             Ok {| N_k := <[k := n]> (N_k a);
                   chi_kn := <[k := chi_row']> (chi_kn a);
                   u_kn := <[k := u_row']> (u_kn a) |}) a0 = Ok a.
Proof.
  induction n as [|n IH]; intros s a0 a; cbn [seq for_each].
  - intros [= <-]. exists []. split; [reflexivity|]. reflexivity.
  - intros (a1 & Hbody & Hrest)%bind_Ok_inv.
    destruct (IH (S s) a1 a Hrest) as (idxs & Hlen & Hrun).
    apply bind_Ok_inv in Hbody as (l & Hl & Hbody).
    apply bind_Ok_inv in Hbody as (chi_row & Hcr & Hbody).
    apply bind_Ok_inv in Hbody as (u_row & Hur & Hbody).
    apply bind_Ok_inv in Hbody as ([[m chi'] u'] & Hw & [= <-]).
    destruct (ingest_window_ts_Ok (fun _ => True) ts fuel dt l chi_row u_row m chi' u')
      as (_ & _ & _ & _ & idx & _ & Hiw); [auto | apply Forall_forall; auto | exact Hw |].
    exists (idx :: idxs). split; [simpl; lia|]. intros ws Hws.
    unfold index in Hl. destruct (ls !! s) as [l'|] eqn:Hls; [|discriminate].
    injection Hl as ->.
    assert (Hw0 : ws !! s = Some (answered l idx)).
    { specialize (Hws 0%nat l idx). rewrite Nat.add_0_r in Hws. apply Hws; [exact Hls|reflexivity]. }
    cbn [seq for_each]. rewrite (index_Ok _ _ _ Hw0). cbn [mbind res_bind].
    rewrite Hcr, Hur. cbn [mbind res_bind].
    rewrite Hiw. cbn [mbind res_bind]. apply Hrun.
    intros j l' idx' Hl' Hi'. specialize (Hws (S j) l' idx').
    rewrite Nat.add_succ_r in Hws. apply Hws; [exact Hl' | exact Hi'].
Qed.

(** Every run of the ingestion with the calls of lines 134-145 that returns
    is the run of [ingest] on the indices the subsampler answered with. *)
Lemma ingest_ts_answered (ts : timeseries F) (fuel : nat) (dt : bool) (K Nmax : nat)
    (ls : list (window_lines F)) (a : arrays F) :
  ingest_ts ts fuel dt K Nmax ls = Ok a ->
  exists idxs, length idxs = K /\
    ingest fuel dt K Nmax (zip_with answered ls idxs) = Ok a.
Proof.
  unfold ingest_ts, ingest, for_range. intros Hrun.
  destruct (ingest_ts_steps ts fuel dt ls K 0%nat _ a Hrun) as (idxs & Hlen & Hws).
  exists idxs. split; [exact Hlen|]. apply Hws. intros j l idx Hl Hi. simpl in *.
  apply lookup_zip_with_Some. exists l, idx. auto.
Qed.

End Answered.

(** ** Binary64 arithmetic *)

Section Binary64.
Local Open Scope Z_scope.

Lemma digits2_size (p : positive) : digits2_pos p = Pos.size p.
Proof. induction p; simpl; congruence. Qed.

Lemma digits2_bounds (p : positive) :
  2 ^ (Zpos (digits2_pos p) - 1) <= Zpos p < 2 ^ Zpos (digits2_pos p).
Proof.
  rewrite digits2_size. split.
  - pose proof (Pos.size_le p) as H.
    assert (H2 : 2 ^ Zpos (Pos.size p) <= 2 * Zpos p).
    { change (2 * Zpos p) with (Zpos p~0). rewrite <- Pos2Z.inj_pow. apply Pos2Z.pos_le_pos. exact H. }
    replace (Zpos (Pos.size p)) with (Zpos (Pos.size p) - 1 + 1) in H2 by lia.
    rewrite Z.pow_add_r in H2 by lia. lia.
  - pose proof (Pos.size_gt p) as H. rewrite <- Pos2Z.inj_pow. apply Pos2Z.pos_lt_pos. exact H.
Qed.

Lemma shl_align_spec (mx : positive) (ex e' : Z) :
  e' <= ex ->
  Zpos (fst (shl_align mx ex e')) = Zpos mx * 2 ^ (ex - e') /\
  snd (shl_align mx ex e') = e'.
Proof.
  intros Hle. unfold shl_align. destruct (e' - ex) as [|d|d] eqn:E.
  - assert (ex = e') by lia. subst. rewrite Z.sub_diag. simpl. split; lia.
  - lia.
  - simpl. split; [|reflexivity].
    replace (ex - e') with (Zpos d) by lia.
    change (Pos.iter xO mx d) with (shift_pos d mx).
    rewrite shift_pos_correct, Z.pow_pos_fold. apply Z.mul_comm.
Qed.

(** ** Values of binary64 numbers, in units of 2^-1074 *)

Lemma bounded_spec (m : positive) (e : Z) :
  bounded prec emax m e = true ->
  -1074 <= e <= 971 /\ Zpos m < 2 ^ 53 /\ (-1074 < e -> 2 ^ 52 <= Zpos m).
Proof.
  unfold bounded, canonical_mantissa, fexp, SpecFloat.emin, prec, emax.
  intros [Hc He]%andb_true_iff. apply Z.eqb_eq in Hc. apply Z.leb_le in He.
  pose proof (digits2_bounds m) as [Hlo Hhi].
  set (d := Zpos (digits2_pos m)) in *.
  assert (Hd : d <= 53) by lia.
  split; [lia|]. split.
  - apply Z.lt_le_trans with (1 := Hhi). apply Z.pow_le_mono_r; lia.
  - intros Hgt. assert (d = 53) by lia. replace 52 with (d - 1) by lia. exact Hlo.
Qed.

Lemma pow2_pos (n : Z) : 0 <= n -> 0 < 2 ^ n.
Proof. intros. apply Z.pow_pos_nonneg; lia. Qed.

Lemma finite_below_infinity (m : positive) (e : Z) :
  bounded prec emax m e = true -> Zpos m * 2 ^ (e + 1074) < 2 ^ 2100.
Proof.
  intros (He & Hm & _)%bounded_spec.
  apply Z.lt_le_trans with (2 ^ 53 * 2 ^ (e + 1074)).
  - apply Z.mul_lt_mono_pos_r; [apply pow2_pos; lia | exact Hm].
  - rewrite <- Z.pow_add_r by lia. apply Z.pow_le_mono_r; lia.
Qed.

Lemma finite_order (m1 m2 : positive) (e1 e2 : Z) :
  bounded prec emax m1 e1 = true -> bounded prec emax m2 e2 = true ->
  e1 < e2 -> Zpos m1 * 2 ^ (e1 + 1074) < Zpos m2 * 2 ^ (e2 + 1074).
Proof.
  intros (He1 & Hm1 & _)%bounded_spec (He2 & _ & Hm2)%bounded_spec Hlt.
  specialize (Hm2 ltac:(lia)).
  replace (e2 + 1074) with ((e2 - e1) + (e1 + 1074)) by lia.
  rewrite (Z.pow_add_r 2 (e2 - e1) (e1 + 1074)) by lia. rewrite Z.mul_assoc.
  apply Z.mul_lt_mono_pos_r; [apply pow2_pos; lia|].
  apply Z.lt_le_trans with (1 := Hm1).
  assert (Hp : 2 ^ 1 <= 2 ^ (e2 - e1)) by (apply Z.pow_le_mono_r; lia).
  change (2 ^ 53) with (2 ^ 52 * 2 ^ 1).
  apply Z.mul_le_mono_nonneg; [apply Z.pow_nonneg; lia | exact Hm2 | apply Z.pow_nonneg; lia | exact Hp].
Qed.

Lemma finite_compare (m1 m2 : positive) (e1 e2 : Z) :
  bounded prec emax m1 e1 = true -> bounded prec emax m2 e2 = true ->
  match e1 ?= e2 with
  | Lt => Lt
  | Gt => Gt
  | Eq => Pos.compare_cont Eq m1 m2
  end = (Zpos m1 * 2 ^ (e1 + 1074) ?= Zpos m2 * 2 ^ (e2 + 1074)).
Proof.
  intros H1 H2. destruct (Z.compare_spec e1 e2) as [->|Hlt|Hgt].
  - change (Pos.compare_cont Eq m1 m2) with (Zpos m1 ?= Zpos m2).
    pose proof (bounded_spec _ _ H2) as (He & _).
    pose proof (pow2_pos (e2 + 1074) ltac:(lia)).
    destruct (Z.compare_spec (Zpos m1) (Zpos m2)) as [Heq|Hl|Hg]; symmetry.
    + apply Z.compare_eq_iff. rewrite Heq. reflexivity.
    + apply Z.compare_lt_iff. nia.
    + apply Z.compare_gt_iff. nia.
  - symmetry. apply Z.compare_lt_iff. apply finite_order; assumption.
  - symmetry. apply Z.compare_gt_iff. apply finite_order; assumption.
Qed.

Lemma finite_positive (m : positive) (e : Z) :
  bounded prec emax m e = true -> 0 < Zpos m * 2 ^ (e + 1074).
Proof.
  intros (He & _)%bounded_spec. apply Z.mul_pos_pos; [lia | apply pow2_pos; lia].
Qed.

(** The comparison of binary64 numbers is the comparison of their values. *)
Lemma compare_Zval (x y : spec_float) :
  valid_binary x = true -> valid_binary y = true ->
  is_nan_sf x = false -> is_nan_sf y = false ->
  SFcompare x y = Some (Zval x ?= Zval y).
Proof.
  intros Hx Hy Hnx Hny.
  destruct x as [sx|sx| |sx mx ex]; try discriminate Hnx;
  destruct y as [sy|sy| |sy my ey]; try discriminate Hny; cbn [SFcompare Zval valid_binary] in *;
  try pose proof (finite_positive _ _ Hx) as Hpx;
  try pose proof (finite_below_infinity _ _ Hx) as Hbx;
  try pose proof (finite_positive _ _ Hy) as Hpy;
  try pose proof (finite_below_infinity _ _ Hy) as Hby;
  try (set (X := Zpos mx * 2 ^ (ex + 1074)) in * );
  try (set (Y := Zpos my * 2 ^ (ey + 1074)) in * );
  assert (Hinf : 0 < 2 ^ 2100) by (apply pow2_pos; lia);
  set (I := 2 ^ 2100) in *; clearbody I.
  1-8: destruct sx, sy; cbn [cond_Zopp]; f_equal; symmetry;
    first [ apply Z.compare_eq_iff; lia | apply Z.compare_lt_iff; lia
          | apply Z.compare_gt_iff; lia | idtac ].
  destruct sx, sy; cbn [cond_Zopp]; f_equal.
  - rewrite Z.compare_opp, (Z.compare_antisym X Y). unfold X, Y.
    rewrite <- (finite_compare _ _ _ _ Hx Hy). destruct (ex ?= ey); reflexivity.
  - symmetry. apply Z.compare_lt_iff. lia.
  - symmetry. apply Z.compare_gt_iff. lia.
  - unfold X, Y. apply finite_compare; assumption.
Qed.

(** ** Rounding *)

Lemma faithful_exact (V : Z) : faithful V V.
Proof. intros N t _ _. split; auto. Qed.

Lemma faithful_opp (V R : Z) : faithful V R -> faithful (- V) (- R).
Proof.
  intros H N t Ht HN. destruct (H (- N) t Ht) as [H1 H2]; [rewrite Z.abs_opp; exact HN|].
  rewrite Z.mul_opp_l in H1, H2. split; intros; lia.
Qed.

Lemma faithful_grid (V q u m2 : Z) :
  0 <= u -> 2 ^ 52 <= q -> q * 2 ^ u <= V < (q + 1) * 2 ^ u ->
  (m2 = q \/ m2 = q + 1) -> (V = q * 2 ^ u -> m2 = q) ->
  faithful V (m2 * 2 ^ u).
Proof.
  intros Hu Hq [Hlo Hhi] Hm2 Hex N t Ht HN.
  assert (HP : 0 < 2 ^ u) by (apply pow2_pos; lia).
  destruct (Z_le_gt_dec u t) as [Hut|Hut].
  - replace t with ((t - u) + u) by lia. rewrite Z.pow_add_r by lia.
    rewrite Z.mul_assoc. set (k := N * 2 ^ (t - u)). set (P := 2 ^ u) in *. split; intros Hk.
    + assert (k < q + 1) by nia. nia.
    + destruct Hm2 as [->| ->]; [nia|].
      assert (V <> q * P) by (intros E; apply Hex in E; lia).
      assert (q < k) by nia. nia.
  - assert (Hbound : N * 2 ^ t <= q * 2 ^ u).
    { apply Z.le_trans with (2 ^ 53 * 2 ^ t).
      - apply Z.mul_le_mono_nonneg_r; [apply Z.pow_nonneg; lia | lia].
      - apply Z.le_trans with (2 ^ 52 * 2 ^ u).
        + replace u with (t + 1 + (u - t - 1)) by lia.
          rewrite !Z.pow_add_r by lia. change (2 ^ 53) with (2 ^ 52 * 2 ^ 1).
          assert (1 <= 2 ^ (u - t - 1)) by (pose proof (pow2_pos (u - t - 1)); lia).
          assert (0 < 2 ^ t) by (apply pow2_pos; lia).
          set (A := 2 ^ t) in *. set (B := 2 ^ (u - t - 1)) in *.
          change (2 ^ 52) with 4503599627370496. change (2 ^ 1) with 2. nia.
        + apply Z.mul_le_mono_nonneg_r; lia. }
    set (P := 2 ^ u) in *. split; intros Hk.
    + destruct Hm2 as [->| ->]; nia.
    + assert (V = q * P) by lia. rewrite (Hex H). lia.
Qed.

(** ** Shifting a mantissa to the right *)

Lemma iter_pos_inv {A : Type} (f : A -> A) (P : Z -> A -> Prop) :
  (forall n y, 0 <= n -> P n y -> P (n + 1) (f y)) ->
  forall (p : positive) (k : Z) (x : A), 0 <= k -> P k x -> P (k + Zpos p) (SpecFloat.iter_pos f p x).
Proof.
  intros Hstep. induction p as [p IH|p IH|]; intros k x Hk Hx; cbn [SpecFloat.iter_pos].
  - replace (k + Zpos p~1) with (k + 1 + Zpos p + Zpos p) by lia.
    apply IH; [lia|]. apply IH; [lia|]. apply Hstep; assumption.
  - replace (k + Zpos p~0) with (k + Zpos p + Zpos p) by lia.
    apply IH; [lia|]. apply IH; assumption.
  - apply Hstep; assumption.
Qed.

Lemma shr_1_spec (mrs : shr_record) :
  0 <= shr_m mrs ->
  shr_m (shr_1 mrs) = shr_m mrs / 2 /\
  shr_r (shr_1 mrs) = Z.odd (shr_m mrs) /\
  shr_s (shr_1 mrs) = shr_r mrs || shr_s mrs.
Proof.
  destruct mrs as [m r s]. cbn [shr_m shr_r shr_s]. intros Hm.
  destruct m as [|[p|p|]|p]; try lia; cbn [shr_1 shr_m shr_r shr_s].
  - repeat split.
  - split; [|split; reflexivity]. apply (Z.div_unique (Zpos p~1) 2 (Zpos p) 1); lia.
  - split; [|split; reflexivity]. apply (Z.div_unique (Zpos p~0) 2 (Zpos p) 0); lia.
  - repeat split.
Qed.

Lemma shr_spec (m : Z) (p : positive) :
  0 <= m ->
  let mrs := SpecFloat.iter_pos shr_1 p (Build_shr_record m false false) in
  shr_m mrs = m / 2 ^ Zpos p /\
  (m mod 2 ^ Zpos p = 0 -> shr_r mrs = false /\ shr_s mrs = false).
Proof.
  intros Hm.
  set (P := fun (n : Z) (mrs : shr_record) =>
              shr_m mrs = m / 2 ^ n /\
              (m mod 2 ^ n = 0 -> shr_r mrs = false /\ shr_s mrs = false)).
  assert (Hstep : forall n y, 0 <= n -> P n y -> P (n + 1) (shr_1 y)).
  { intros n y Hn [H1 H2].
    assert (Hp : 0 < 2 ^ n) by (apply pow2_pos; lia).
    assert (H0 : 0 <= shr_m y) by (rewrite H1; apply Z.div_pos; lia).
    destruct (shr_1_spec y H0) as (E1 & E2 & E3).
    unfold P. rewrite E1, E2, E3, H1. rewrite Z.pow_add_r by lia. change (2 ^ 1) with 2. split.
    - rewrite Z.div_div by lia. reflexivity.
    - intros Hmod. apply Z.mod_divide in Hmod; [|lia]. destruct Hmod as [c Hc].
      assert (Hmn : m mod 2 ^ n = 0) by (apply Z.mod_divide; [lia | exists (c * 2); lia]).
      destruct (H2 Hmn) as [-> ->].
      assert (Hq : m / 2 ^ n = c * 2) by (symmetry; apply (Z.div_unique_exact m (2 ^ n)); lia).
      rewrite Hq, Z.odd_mul. split; [apply andb_false_r | reflexivity]. }
  pose proof (iter_pos_inv shr_1 P Hstep p 0 (Build_shr_record m false false)) as H.
  cbn [Z.add] in H. apply H; [lia|]. unfold P. cbn [shr_m shr_r shr_s].
  rewrite Z.pow_0_r, Z.div_1_r. split; [reflexivity | tauto].
Qed.

(** ** Rounding to nearest *)

Lemma rounded_exact (V : Z) : rounded V V.
Proof.
  split; [apply faithful_exact|]. intros t Ht _. rewrite Z.sub_diag.
  pose proof (pow2_pos t Ht). simpl. lia.
Qed.

Lemma rounded_opp (V R : Z) : rounded V R -> rounded (- V) (- R).
Proof.
  intros [Hf Hn]. split; [apply faithful_opp; exact Hf|].
  intros t Ht HV. rewrite Z.abs_opp in HV.
  replace (- R - - V) with (- (R - V)) by lia. rewrite Z.abs_opp. apply Hn; assumption.
Qed.

Lemma mod_double (m A : Z) :
  0 < A -> m mod (A * 2) = m mod A + A * (if Z.odd (m / A) then 1 else 0).
Proof.
  intros HA. rewrite Z.rem_mul_r by lia. rewrite Zmod_odd. reflexivity.
Qed.

Lemma shr_bits (m : Z) (p : positive) :
  0 <= m ->
  let mrs := SpecFloat.iter_pos shr_1 p (Build_shr_record m false false) in
  shr_m mrs = m / 2 ^ Zpos p /\
  shr_r mrs = Z.odd (m / 2 ^ (Zpos p - 1)) /\
  shr_s mrs = negb (m mod 2 ^ (Zpos p - 1) =? 0).
Proof.
  intros Hm.
  set (P := fun (n : Z) (mrs : shr_record) =>
              shr_m mrs = m / 2 ^ n /\
              ((n = 0 /\ shr_r mrs = false /\ shr_s mrs = false) \/
               (0 < n /\ shr_r mrs = Z.odd (m / 2 ^ (n - 1)) /\
                shr_s mrs = negb (m mod 2 ^ (n - 1) =? 0)))).
  assert (Hstep : forall n y, 0 <= n -> P n y -> P (n + 1) (shr_1 y)).
  { intros n y Hn [H1 H2].
    assert (Hp : 0 < 2 ^ n) by (apply pow2_pos; lia).
    assert (H0 : 0 <= shr_m y) by (rewrite H1; apply Z.div_pos; lia).
    destruct (shr_1_spec y H0) as (E1 & E2 & E3).
    unfold P. rewrite E1, E2, E3, H1. split.
    - rewrite (Z.pow_add_r 2 n 1) by lia. change (2 ^ 1) with 2.
      rewrite Z.div_div by lia. reflexivity.
    - right. split; [lia|]. replace (n + 1 - 1) with n by lia. split; [reflexivity|].
      destruct H2 as [(-> & -> & ->)|(Hn0 & -> & ->)].
      + rewrite Z.pow_0_r, Z.mod_1_r. reflexivity.
      + assert (HA : 0 < 2 ^ (n - 1)) by (apply pow2_pos; lia).
        replace (2 ^ n) with (2 ^ (n - 1) * 2).
        2:{ replace n with ((n - 1) + 1) at 2 by lia.
            rewrite (Z.pow_add_r 2 (n - 1) 1) by lia. reflexivity. }
        rewrite (mod_double m (2 ^ (n - 1)) HA).
        pose proof (Z.mod_pos_bound m (2 ^ (n - 1)) HA) as Hb.
        set (A := 2 ^ (n - 1)) in *. set (b := m mod A) in *.
        destruct (Z.odd (m / A)); destruct (Z.eqb_spec b 0) as [Eb|Eb]; cbn [orb negb];
          symmetry; try (apply negb_true_iff; apply Z.eqb_neq; lia).
        apply negb_false_iff. apply Z.eqb_eq. lia. }
  pose proof (iter_pos_inv shr_1 P Hstep p 0 (Build_shr_record m false false)) as H.
  cbn [Z.add] in H. destruct H as [H1 H2]; [lia | |].
  - unfold P. cbn [shr_m shr_r shr_s]. rewrite Z.pow_0_r, Z.div_1_r. split; [reflexivity|].
    left. auto.
  - cbv zeta. split; [exact H1|]. destruct H2 as [(Hz & _)|(_ & Hr & Hs)]; [lia | auto].
Qed.

(** Shifting right by [p] digits and rounding to nearest even moves a
    mantissa by at most half of [2^p]. *)
Lemma shr_round_half (m : Z) (p : positive) :
  0 <= m ->
  let mrs := SpecFloat.iter_pos shr_1 p (Build_shr_record m false false) in
  2 * Z.abs (round_nearest_even (shr_m mrs) (loc_of_shr_record mrs) * 2 ^ Zpos p - m)
    <= 2 ^ Zpos p.
Proof.
  intros Hm. pose proof (shr_bits m p Hm) as H. cbv zeta in H |- *.
  destruct (SpecFloat.iter_pos shr_1 p (Build_shr_record m false false)) as [q r s].
  cbn [shr_m shr_r shr_s] in H. destruct H as (Hq & Hr & Hs).
  assert (HA : 0 < 2 ^ (Zpos p - 1)) by (apply pow2_pos; lia).
  assert (HP : 2 ^ Zpos p = 2 ^ (Zpos p - 1) * 2).
  { replace (Zpos p) with ((Zpos p - 1) + 1) at 1 by lia.
    rewrite (Z.pow_add_r 2 (Zpos p - 1) 1) by lia. reflexivity. }
  rewrite HP in *.
  pose proof (Z.div_mod m (2 ^ (Zpos p - 1) * 2) ltac:(lia)) as Hdm.
  rewrite <- Hq in Hdm. rewrite (mod_double m _ HA), <- Hr in Hdm.
  pose proof (Z.mod_pos_bound m (2 ^ (Zpos p - 1)) HA) as Hb.
  set (A := 2 ^ (Zpos p - 1)) in *. set (b := m mod A) in *.
  cbn [shr_m loc_of_shr_record].
  destruct r, s; cbn [round_nearest_even];
    try destruct (Z.even q);
    try (symmetry in Hs; apply negb_true_iff, Z.eqb_neq in Hs);
    try (symmetry in Hs; apply negb_false_iff, Z.eqb_eq in Hs);
    change (Z.pos 1) with 1; lia.
Qed.

Lemma digits2_unique (m : positive) (D : Z) :
  2 ^ (D - 1) <= Zpos m < 2 ^ D -> Zpos (digits2_pos m) = D.
Proof.
  intros [Hlo Hhi]. pose proof (digits2_bounds m) as [Hlo' Hhi'].
  set (d := Zpos (digits2_pos m)) in *.
  assert (Hd : 1 <= d) by (unfold d; lia).
  destruct (Z.lt_trichotomy d D) as [Hlt|[Heq|Hgt]]; [|exact Heq|].
  - assert (2 ^ d <= 2 ^ (D - 1)) by (apply Z.pow_le_mono_r; lia). lia.
  - assert (0 <= D).
    { destruct (Z_lt_le_dec D 0) as [Hneg|]; [|assumption].
      rewrite (Z.pow_neg_r 2 D Hneg) in Hhi. lia. }
    assert (2 ^ D <= 2 ^ (d - 1)) by (apply Z.pow_le_mono_r; lia). lia.
Qed.

Lemma round_nearest_even_cases (mrs : shr_record) :
  let m2 := round_nearest_even (shr_m mrs) (loc_of_shr_record mrs) in
  (m2 = shr_m mrs \/ m2 = shr_m mrs + 1) /\
  (shr_r mrs = false -> shr_s mrs = false -> m2 = shr_m mrs).
Proof.
  destruct mrs as [m [] []]; cbn [shr_m shr_r shr_s loc_of_shr_record round_nearest_even];
    try destruct (Z.even m); split; auto; discriminate.
Qed.

Lemma fexp_64 (z : Z) : fexp prec emax z = Z.max (z - 53) (-1074).
Proof. reflexivity. Qed.

(** Rounding a positive integer multiple of a power of two, at an exponent
    in range: the result is finite, and is the value itself or one of its two
    binary64 neighbours, the nearer one. *)
Lemma binary_round_faithful (s : bool) (mx : positive) (ex : Z) :
  -1074 <= ex -> Zpos (digits2_pos mx) + ex <= 1023 ->
  exists m3 e3,
    binary_round prec emax s mx ex = S754_finite s m3 e3 /\
    -1074 <= e3 /\
    rounded (Zpos mx * 2 ^ (ex + 1074)) (Zpos m3 * 2 ^ (e3 + 1074)).
Proof.
  intros Hex Hbig. pose proof (digits2_bounds mx) as [Hlo Hhi].
  unfold binary_round. rewrite fexp_64.
  set (d := Zpos (digits2_pos mx)) in *.
  assert (Hd : 1 <= d) by (unfold d; lia).
  set (et := Z.max (d + ex - 53) (-1074)).
  destruct (Z_le_gt_dec et ex) as [Hle|Hgt].
  - (* the mantissa has at most 53 digits: nothing is lost *)
    destruct (shl_align_spec mx ex et Hle) as [Hmz Hez].
    destruct (shl_align mx ex et) as [mz ez]. cbn [fst snd] in Hmz, Hez. subst ez.
    assert (Hpk : 0 < 2 ^ (ex - et)) by (apply pow2_pos; lia).
    assert (Hdz : Zpos (digits2_pos mz) = d + (ex - et)).
    { apply digits2_unique. rewrite Hmz.
      replace (d + (ex - et) - 1) with ((d - 1) + (ex - et)) by lia.
      rewrite !Z.pow_add_r by lia. split.
      - apply Z.mul_le_mono_nonneg_r; lia.
      - apply Z.mul_lt_mono_pos_r; lia. }
    assert (Hshift : fexp prec emax (Zdigits2 (Zpos mz) + et) - et = 0).
    { rewrite fexp_64. cbn [Zdigits2]. rewrite Hdz. unfold et. lia. }
    unfold binary_round_aux, shr_fexp. rewrite Hshift.
    cbn [shr shr_record_of_loc shr_m loc_of_shr_record round_nearest_even].
    rewrite Hshift. cbn [shr shr_record_of_loc shr_m].
    assert (Hfit : (et <=? emax - prec) = true) by (apply Z.leb_le; unfold emax, prec, et; lia).
    rewrite Hfit. exists mz, et. split; [reflexivity|]. split; [unfold et; lia|].
    rewrite Hmz, <- Z.mul_assoc, <- Z.pow_add_r by (unfold et; lia).
    replace (ex - et + (et + 1074)) with (ex + 1074) by lia. apply rounded_exact.
  - (* the mantissa is shifted right by d - 53 digits and rounded *)
    assert (Het : et = d + ex - 53) by (unfold et in *; lia).
    unfold shl_align. destruct (et - ex) as [|p|p] eqn:Hp; try lia.
    unfold binary_round_aux, shr_fexp. cbn [Zdigits2]. fold d. rewrite fexp_64. fold et.
    rewrite Hp. cbn [shr shr_record_of_loc].
    destruct (shr_spec (Zpos mx) p ltac:(lia)) as [Hq Hexact].
    set (mrs := SpecFloat.iter_pos shr_1 p (Build_shr_record (Zpos mx) false false)) in *.
    destruct (round_nearest_even_cases mrs) as [Hm2 Hm2exact].
    set (m2 := round_nearest_even (shr_m mrs) (loc_of_shr_record mrs)) in *.
    set (q := shr_m mrs) in *.
    assert (Hn : Zpos p = d - 53) by lia.
    assert (Hpn : 0 < 2 ^ Zpos p) by (apply pow2_pos; lia).
    assert (Hdiv : q * 2 ^ Zpos p <= Zpos mx < (q + 1) * 2 ^ Zpos p).
    { rewrite Hq. split.
      - rewrite Z.mul_comm. apply Z.mul_div_le. lia.
      - pose proof (Z.mul_succ_div_gt (Zpos mx) (2 ^ Zpos p) Hpn) as Hs.
        unfold Z.succ in Hs. rewrite Z.mul_comm. exact Hs. }
    assert (Hqlo : 2 ^ 52 <= q).
    { rewrite Hq. apply Z.div_le_lower_bound; [lia|].
      rewrite <- Z.pow_add_r by lia. replace (Zpos p + 52) with (d - 1) by lia. exact Hlo. }
    assert (Hqhi : q < 2 ^ 53).
    { rewrite Hq. apply Z.div_lt_upper_bound; [lia|].
      rewrite <- Z.pow_add_r by lia. replace (Zpos p + 53) with d by lia. exact Hhi. }
    assert (Hfaith : faithful (Zpos mx * 2 ^ (ex + 1074)) (m2 * 2 ^ (et + 1074))).
    { replace (et + 1074) with (Zpos p + (ex + 1074)) by lia.
      assert (Hpe : 0 < 2 ^ (ex + 1074)) by (apply pow2_pos; lia).
      apply faithful_grid with (q := q); [lia | exact Hqlo | | exact Hm2 |].
      - rewrite (Z.pow_add_r 2 (Zpos p) (ex + 1074)) by lia. rewrite !Z.mul_assoc. split.
        + apply Z.mul_le_mono_nonneg_r; lia.
        + apply Z.mul_lt_mono_pos_r; lia.
      - intros HV. rewrite (Z.pow_add_r 2 (Zpos p) (ex + 1074)), Z.mul_assoc in HV by lia.
        apply Z.mul_reg_r in HV; [|lia].
        apply Hm2exact; apply Hexact; rewrite HV; apply Z.mod_mul; lia. }
    assert (Hround : rounded (Zpos mx * 2 ^ (ex + 1074)) (m2 * 2 ^ (et + 1074))).
    { split; [exact Hfaith|]. intros t Ht HV.
      pose proof (shr_round_half (Zpos mx) p ltac:(lia)) as Hhalf. cbv zeta in Hhalf.
      change (round_nearest_even
                (shr_m (SpecFloat.iter_pos shr_1 p (Build_shr_record (Zpos mx) false false)))
                (loc_of_shr_record
                   (SpecFloat.iter_pos shr_1 p (Build_shr_record (Zpos mx) false false))))
        with m2 in Hhalf.
      assert (Hpe : 0 < 2 ^ (ex + 1074)) by (apply pow2_pos; lia).
      assert (Hpt : Zpos p + (ex + 1074) <= t).
      { assert (Hlt : 2 ^ (d - 1 + (ex + 1074)) < 2 ^ (53 + t)).
        { rewrite (Z.pow_add_r 2 (d - 1) (ex + 1074)) by lia.
          apply Z.le_lt_trans with (Zpos mx * 2 ^ (ex + 1074)).
          - apply Z.mul_le_mono_nonneg_r; lia.
          - rewrite Z.abs_eq in HV; [exact HV|]. apply Z.mul_nonneg_nonneg; lia. }
        apply Z.pow_lt_mono_r_iff in Hlt; lia. }
      replace (et + 1074) with (Zpos p + (ex + 1074)) by lia.
      rewrite (Z.pow_add_r 2 (Zpos p) (ex + 1074)) by lia.
      replace (m2 * (2 ^ Zpos p * 2 ^ (ex + 1074)) - Zpos mx * 2 ^ (ex + 1074))
        with ((m2 * 2 ^ Zpos p - Zpos mx) * 2 ^ (ex + 1074)) by ring.
      rewrite Z.abs_mul, (Z.abs_eq (2 ^ (ex + 1074))) by lia.
      apply Z.le_trans with (2 ^ Zpos p * 2 ^ (ex + 1074)).
      - rewrite Z.mul_assoc. apply Z.mul_le_mono_nonneg_r; lia.
      - rewrite <- Z.pow_add_r by lia. apply Z.pow_le_mono_r; lia. }
    clear Hfaith.
    replace (ex + Zpos p) with et by lia.
    assert (Hm2pos : 2 ^ 52 <= m2 <= 2 ^ 53) by lia.
    destruct m2 as [|m2p|m2p] eqn:Em2; try lia.
    destruct (Z_lt_le_dec (Zpos m2p) (2 ^ 53)) as [Hlt|Hge].
    + assert (Hd2 : Zpos (digits2_pos m2p) = 53) by (apply digits2_unique; lia).
      cbn [Zdigits2]. rewrite Hd2, fexp_64.
      replace (Z.max (53 + et - 53) (-1074) - et) with 0 by (unfold et; lia).
      cbn [shr shr_record_of_loc shr_m].
      assert (Hfit : (et <=? emax - prec) = true) by (apply Z.leb_le; unfold emax, prec; lia).
      rewrite Hfit. exists m2p, et. split; [reflexivity|]. split; [lia | exact Hround].
    + assert (Hm2eq : Zpos m2p = 2 ^ 53) by lia.
      assert (Hd2 : Zpos (digits2_pos m2p) = 54).
      { apply digits2_unique. rewrite Hm2eq. split; [apply Z.le_refl|].
        apply Z.pow_lt_mono_r; lia. }
      cbn [Zdigits2]. rewrite Hd2, fexp_64.
      replace (Z.max (54 + et - 53) (-1074) - et) with 1 by (unfold et; lia).
      cbn [shr shr_record_of_loc SpecFloat.iter_pos].
      assert (Hm2p : m2p = 9007199254740992%positive) by (apply Pos2Z.inj; exact Hm2eq).
      subst m2p. cbn [shr_1 shr_m].
      assert (Hfit : (et + 1 <=? emax - prec) = true) by (apply Z.leb_le; unfold emax, prec; lia).
      rewrite Hfit. eexists _, (et + 1). split; [reflexivity|]. split; [lia|].
      replace (et + 1 + 1074) with (1 + (et + 1074)) by lia.
      rewrite (Z.pow_add_r 2 1 (et + 1074)) by lia. change (2 ^ 1) with 2.
      replace (4503599627370496 * (2 * 2 ^ (et + 1074)))
        with (9007199254740992 * 2 ^ (et + 1074)) by lia.
      exact Hround.
Qed.

(** ** Sums and differences *)

Lemma digits_exponent_bound (m : positive) (t : Z) :
  0 <= t -> Zpos m * 2 ^ t < 2 ^ 2097 -> Zpos (digits2_pos m) + t <= 2097.
Proof.
  intros Ht Hlt. pose proof (digits2_bounds m) as [Hlo _].
  set (d := Zpos (digits2_pos m)) in *.
  assert (Hd : 1 <= d) by (unfold d; lia).
  assert (H : 2 ^ (d - 1 + t) < 2 ^ 2097).
  { rewrite Z.pow_add_r by lia. apply Z.le_lt_trans with (2 := Hlt).
    apply Z.mul_le_mono_nonneg_r; [apply Z.pow_nonneg; lia | exact Hlo]. }
  apply Z.pow_lt_mono_r_iff in H; lia.
Qed.

Lemma binary_normalize_faithful (M ez : Z) :
  -1074 <= ez -> Z.abs M * 2 ^ (ez + 1074) < 2 ^ 2097 ->
  finite_sf (binary_normalize prec emax M ez false) = true /\
  rounded (M * 2 ^ (ez + 1074)) (Zval (binary_normalize prec emax M ez false)).
Proof.
  intros Hez Hbound. destruct M as [|m|m]; cbn [binary_normalize].
  - split; [reflexivity|]. apply rounded_exact.
  - pose proof (digits_exponent_bound m (ez + 1074) ltac:(lia) Hbound).
    destruct (binary_round_faithful false m ez Hez ltac:(lia)) as (m3 & e3 & -> & He3 & Hf).
    split; [reflexivity | exact Hf].
  - pose proof (digits_exponent_bound m (ez + 1074) ltac:(lia) Hbound).
    destruct (binary_round_faithful true m ez Hez ltac:(lia)) as (m3 & e3 & -> & He3 & Hf).
    split; [reflexivity|]. cbn [Zval cond_Zopp].
    change (Zneg m) with (- Zpos m). rewrite Z.mul_opp_l. apply rounded_opp. exact Hf.
Qed.

Lemma aligned_value (s : bool) (m : positive) (e ez : Z) :
  ez <= e -> -1074 <= ez ->
  cond_Zopp s (Zpos (fst (shl_align m e ez))) * 2 ^ (ez + 1074) =
  Zval (S754_finite s m e).
Proof.
  intros Hle Hez. destruct (shl_align_spec m e ez Hle) as [-> _]. cbn [Zval].
  replace (e + 1074) with ((e - ez) + (ez + 1074)) by lia.
  rewrite (Z.pow_add_r 2 (e - ez) (ez + 1074)) by lia.
  destruct s; cbn [cond_Zopp]; ring.
Qed.

Lemma SFadd_faithful (x y : spec_float) :
  valid_binary x = true -> valid_binary y = true ->
  finite_sf x = true -> finite_sf y = true ->
  Z.abs (Zval x + Zval y) < 2 ^ 2097 ->
  finite_sf (SF64add x y) = true /\
  rounded (Zval x + Zval y) (Zval (SF64add x y)).
Proof.
  intros Hx Hy Hfx Hfy Hbound.
  destruct x as [sx|sx| |sx mx ex]; try discriminate Hfx;
  destruct y as [sy|sy| |sy my ey]; try discriminate Hfy.
  - destruct sx, sy; split; try reflexivity; apply rounded_exact.
  - split; [reflexivity|]. apply rounded_exact.
  - split; [reflexivity|]. cbn [SF64add SFadd]. rewrite Z.add_0_r. apply rounded_exact.
  - cbn [valid_binary] in Hx, Hy.
    pose proof (bounded_spec _ _ Hx) as (Hex & _). pose proof (bounded_spec _ _ Hy) as (Hey & _).
    unfold SF64add, SFadd. set (ez := Z.min ex ey).
    pose proof (aligned_value sx mx ex ez ltac:(unfold ez; lia) ltac:(unfold ez; lia)) as Hax.
    pose proof (aligned_value sy my ey ez ltac:(unfold ez; lia) ltac:(unfold ez; lia)) as Hay.
    set (Mx := cond_Zopp sx (Zpos (fst (shl_align mx ex ez)))) in *.
    set (My := cond_Zopp sy (Zpos (fst (shl_align my ey ez)))) in *.
    assert (HV : (Mx + My) * 2 ^ (ez + 1074) =
                 Zval (S754_finite sx mx ex) + Zval (S754_finite sy my ey)).
    { rewrite <- Hax, <- Hay. ring. }
    rewrite <- HV in Hbound |- *. apply binary_normalize_faithful; [unfold ez; lia|].
    rewrite Z.abs_mul in Hbound. rewrite (Z.abs_eq (2 ^ _)) in Hbound by (apply Z.pow_nonneg; lia).
    exact Hbound.
Qed.

Lemma SFsub_faithful (x y : spec_float) :
  valid_binary x = true -> valid_binary y = true ->
  finite_sf x = true -> finite_sf y = true ->
  Z.abs (Zval x - Zval y) < 2 ^ 2097 ->
  finite_sf (SF64sub x y) = true /\
  rounded (Zval x - Zval y) (Zval (SF64sub x y)).
Proof.
  intros Hx Hy Hfx Hfy Hbound.
  destruct x as [sx|sx| |sx mx ex]; try discriminate Hfx;
  destruct y as [sy|sy| |sy my ey]; try discriminate Hfy.
  - destruct sx, sy; split; try reflexivity; apply rounded_exact.
  - split; [reflexivity|]. cbn [SF64sub SFsub Zval]. rewrite Z.sub_0_l.
    destruct sy; cbn [negb cond_Zopp]; rewrite ?Z.opp_involutive; apply rounded_exact.
  - split; [reflexivity|]. cbn [SF64sub SFsub]. rewrite Z.sub_0_r. apply rounded_exact.
  - cbn [valid_binary] in Hx, Hy.
    pose proof (bounded_spec _ _ Hx) as (Hex & _). pose proof (bounded_spec _ _ Hy) as (Hey & _).
    unfold SF64sub, SFsub. set (ez := Z.min ex ey).
    pose proof (aligned_value sx mx ex ez ltac:(unfold ez; lia) ltac:(unfold ez; lia)) as Hax.
    pose proof (aligned_value sy my ey ez ltac:(unfold ez; lia) ltac:(unfold ez; lia)) as Hay.
    set (Mx := cond_Zopp sx (Zpos (fst (shl_align mx ex ez)))) in *.
    set (My := cond_Zopp sy (Zpos (fst (shl_align my ey ez)))) in *.
    assert (HV : (Mx - My) * 2 ^ (ez + 1074) =
                 Zval (S754_finite sx mx ex) - Zval (S754_finite sy my ey)).
    { rewrite <- Hax, <- Hay. ring. }
    rewrite <- HV in Hbound |- *. apply binary_normalize_faithful; [unfold ez; lia|].
    rewrite Z.abs_mul in Hbound. rewrite (Z.abs_eq (2 ^ _)) in Hbound by (apply Z.pow_nonneg; lia).
    exact Hbound.
Qed.

(** ** Signs *)

Lemma shr_nonneg (mrs : shr_record) (e n : Z) :
  0 <= shr_m mrs -> 0 <= shr_m (fst (shr mrs e n)).
Proof.
  intros H. destruct n as [|p|p]; cbn [shr fst]; try exact H.
  apply (iter_pos_inv shr_1 (fun _ r => 0 <= shr_m r)) with (k := 0) (p := p) (x := mrs);
    [|lia | exact H].
  intros n y _ Hy. destruct (shr_1_spec y Hy) as [-> _]. apply Z.div_pos; lia.
Qed.

Lemma round_nearest_even_nonneg (m : Z) (l : location) :
  0 <= m -> 0 <= round_nearest_even m l.
Proof.
  intros H. destruct l as [|[]]; cbn [round_nearest_even]; try destruct (Z.even m); lia.
Qed.

Lemma shr_record_of_loc_m (m : Z) (l : location) : shr_m (shr_record_of_loc m l) = m.
Proof. destruct l as [|[]]; reflexivity. Qed.

(** A rounded magnitude keeps its sign, and is never NaN. *)
Lemma binary_round_sign (s : bool) (mx : positive) (ex : Z) :
  is_nan_sf (binary_round prec emax s mx ex) = false /\
  (if s then Zval (binary_round prec emax s mx ex) <= 0
   else 0 <= Zval (binary_round prec emax s mx ex)).
Proof.
  unfold binary_round. destruct (shl_align mx ex _) as [mz ez].
  unfold binary_round_aux, shr_fexp.
  set (n1 := fexp prec emax (Zdigits2 (Zpos mz) + ez) - ez).
  pose proof (shr_nonneg (shr_record_of_loc (Zpos mz) loc_Exact) ez n1) as H1.
  destruct (shr (shr_record_of_loc (Zpos mz) loc_Exact) ez n1) as [mrs1 e1].
  cbn [fst] in H1. specialize (H1 ltac:(cbn; lia)).
  pose proof (round_nearest_even_nonneg _ (loc_of_shr_record mrs1) H1) as H2.
  set (m2 := round_nearest_even (shr_m mrs1) (loc_of_shr_record mrs1)) in *.
  set (n2 := fexp prec emax (Zdigits2 m2 + e1) - e1).
  pose proof (shr_nonneg (shr_record_of_loc m2 loc_Exact) e1 n2) as H3.
  destruct (shr (shr_record_of_loc m2 loc_Exact) e1 n2) as [mrs2 e2].
  cbn [fst] in H3. specialize (H3 ltac:(cbn; lia)).
  destruct (shr_m mrs2) as [|m|m]; try lia.
  - split; [reflexivity|]. destruct s; cbn; lia.
  - assert (Hp : 0 <= Zpos m * 2 ^ (e2 + 1074)).
    { apply Z.mul_nonneg_nonneg; [lia | apply Z.pow_nonneg; lia]. }
    assert (Hi : 0 <= 2 ^ 2100) by (apply Z.pow_nonneg; lia).
    destruct (e2 <=? emax - prec); (split; [reflexivity|]);
      destruct s; cbn [Zval cond_Zopp]; lia.
Qed.

Lemma SFsub_nonneg (x y : spec_float) :
  valid_binary x = true -> valid_binary y = true ->
  finite_sf x = true -> finite_sf y = true ->
  Zval y <= Zval x ->
  is_nan_sf (SF64sub x y) = false /\ 0 <= Zval (SF64sub x y).
Proof.
  intros Hx Hy Hfx Hfy Hle.
  destruct x as [sx|sx| |sx mx ex]; try discriminate Hfx;
  destruct y as [sy|sy| |sy my ey]; try discriminate Hfy.
  - destruct sx, sy; split; cbn; try reflexivity; lia.
  - cbn [valid_binary] in Hy. pose proof (finite_positive _ _ Hy) as Hpy.
    cbn [SF64sub SFsub Zval] in *. destruct sy; cbn [negb cond_Zopp] in *; split;
      try reflexivity; lia.
  - cbn [SF64sub SFsub] in *. split; [reflexivity | exact Hle].
  - cbn [valid_binary] in Hx, Hy.
    pose proof (bounded_spec _ _ Hx) as (Hex & _). pose proof (bounded_spec _ _ Hy) as (Hey & _).
    unfold SF64sub, SFsub. set (ez := Z.min ex ey).
    pose proof (aligned_value sx mx ex ez ltac:(unfold ez; lia) ltac:(unfold ez; lia)) as Hax.
    pose proof (aligned_value sy my ey ez ltac:(unfold ez; lia) ltac:(unfold ez; lia)) as Hay.
    set (Mx := cond_Zopp sx (Zpos (fst (shl_align mx ex ez)))) in *.
    set (My := cond_Zopp sy (Zpos (fst (shl_align my ey ez)))) in *.
    assert (Hp : 0 < 2 ^ (ez + 1074)) by (apply pow2_pos; unfold ez; lia).
    assert (HM : 0 <= Mx - My) by nia.
    destruct (Mx - My) as [|m|m]; try lia; cbn [binary_normalize].
    + split; [reflexivity | cbn; lia].
    + exact (binary_round_sign false m ez).
Qed.

Lemma SFsub_self (x : spec_float) :
  finite_sf x = true -> exists s, SF64sub x x = S754_zero s.
Proof.
  destruct x as [sx|sx| |sx mx ex]; try discriminate; intros _.
  - destruct sx; eexists; reflexivity.
  - unfold SF64sub, SFsub. rewrite Z.sub_diag. eexists. reflexivity.
Qed.

(** ** Binary64 numbers of the primitive type *)

Lemma SFeqb_refl (x : spec_float) : SFeqb x x = negb (is_nan_sf x).
Proof.
  unfold SFeqb. destruct x as [s|s| |s m e]; cbn [SFcompare is_nan_sf negb].
  - reflexivity.
  - destruct s; reflexivity.
  - reflexivity.
  - destruct s; rewrite Z.compare_refl;
      change (Pos.compare_cont Eq m m) with (Pos.compare m m); rewrite Pos.compare_refl;
      reflexivity.
Qed.

Lemma is_finite_spec (f : float) : PrimFloat.is_finite f = finite_sf (Prim2SF f).
Proof.
  unfold PrimFloat.is_finite, PrimFloat.is_nan, PrimFloat.is_infinity.
  rewrite !FloatAxioms.eqb_spec, abs_spec, SFeqb_refl.
  change (Prim2SF infinity) with (S754_infinity false).
  destruct (Prim2SF f) as [s|s| |s m e]; try reflexivity.
Qed.

Lemma finite_not_nan (x : spec_float) : finite_sf x = true -> is_nan_sf x = false.
Proof. destruct x; (discriminate || reflexivity). Qed.

Lemma ltb_Fval (f g : float) :
  is_nan_sf (Prim2SF f) = false -> is_nan_sf (Prim2SF g) = false ->
  PrimFloat.ltb f g = (Fval f <? Fval g).
Proof.
  intros Hf Hg. rewrite ltb_spec. unfold SFltb, Fval.
  rewrite (compare_Zval _ _ (Prim2SF_valid f) (Prim2SF_valid g) Hf Hg).
  unfold Z.ltb. reflexivity.
Qed.

Lemma leb_Fval (f g : float) :
  is_nan_sf (Prim2SF f) = false -> is_nan_sf (Prim2SF g) = false ->
  PrimFloat.leb f g = (Fval f <=? Fval g).
Proof.
  intros Hf Hg. rewrite leb_spec. unfold SFleb, Fval.
  rewrite (compare_Zval _ _ (Prim2SF_valid f) (Prim2SF_valid g) Hf Hg).
  unfold Z.leb. destruct (Zval (Prim2SF f) ?= Zval (Prim2SF g)); reflexivity.
Qed.

Lemma add_Fval (f g : float) :
  PrimFloat.is_finite f = true -> PrimFloat.is_finite g = true ->
  Z.abs (Fval f + Fval g) < 2 ^ 2097 ->
  PrimFloat.is_finite (f + g) = true /\ rounded (Fval f + Fval g) (Fval (f + g)).
Proof.
  rewrite !is_finite_spec. unfold Fval. rewrite add_spec.
  apply SFadd_faithful; apply Prim2SF_valid.
Qed.

Lemma sub_Fval (f g : float) :
  PrimFloat.is_finite f = true -> PrimFloat.is_finite g = true ->
  Z.abs (Fval f - Fval g) < 2 ^ 2097 ->
  PrimFloat.is_finite (f - g) = true /\ rounded (Fval f - Fval g) (Fval (f - g)).
Proof.
  rewrite !is_finite_spec. unfold Fval. rewrite sub_spec.
  apply SFsub_faithful; apply Prim2SF_valid.
Qed.

(** ** The wrap of lines 106-109 in binary64 *)

Lemma Fval_lit_180 : Fval (lit 180) = 180 * 2 ^ 1074.
Proof. vm_compute. reflexivity. Qed.

Lemma Fval_lit_neg_180 : Fval (lit (-180)) = - (180 * 2 ^ 1074).
Proof. vm_compute. reflexivity. Qed.

Lemma Fval_lit_360 : Fval (lit 360) = 360 * 2 ^ 1074.
Proof. vm_compute. reflexivity. Qed.

Lemma finite_lit_360 : PrimFloat.is_finite (lit 360) = true.
Proof. vm_compute. reflexivity. Qed.

Lemma sum_below_overflow (X c : Z) :
  Z.abs X <= 2 ^ 62 * 2 ^ 1074 -> 0 <= c <= 360 ->
  Z.abs (X + c * 2 ^ 1074) < 2 ^ 2097 /\ Z.abs (X - c * 2 ^ 1074) < 2 ^ 2097.
Proof.
  intros HX Hc. assert (HU : 0 < 2 ^ 1074) by (apply pow2_pos; lia).
  assert (H : 2 ^ 63 * 2 ^ 1074 <= 2 ^ 2097).
  { rewrite <- Z.pow_add_r by lia. apply Z.pow_le_mono_r; lia. }
  change (2 ^ 63) with (2 ^ 62 + 2 ^ 62) in H.
  assert (Hc' : c * 2 ^ 1074 < 2 ^ 62 * 2 ^ 1074).
  { apply Z.mul_lt_mono_pos_r; [lia|]. change (2 ^ 62) with 4611686018427387904. lia. }
  set (U := 2 ^ 1074) in *. set (B := 2 ^ 62 * U) in *. set (C := c * U) in *.
  assert (0 <= C) by (unfold C; nia).
  split; lia.
Qed.

(** Up to 2^62 the spacing of binary64 numbers is at most 512, so a sum is
    rounded by at most 256: adding 360.0 raises the value, and subtracting
    it lowers the value. *)
Lemma add_360_step (x : float) :
  PrimFloat.is_finite x = true ->
  - (2 ^ 62 * 2 ^ 1074) <= Fval x -> Fval x < - (180 * 2 ^ 1074) ->
  PrimFloat.is_finite (add x (lit 360)) = true /\
  Fval x < Fval (add x (lit 360)) <= 180 * 2 ^ 1074.
Proof.
  intros Hfin Hlo Hhi.
  assert (HU : 0 < 2 ^ 1074) by (apply pow2_pos; lia).
  destruct (add_Fval x (lit 360) Hfin finite_lit_360) as [Hfr [Hfaith Hnear]].
  { rewrite Fval_lit_360. apply sum_below_overflow; lia. }
  change (PrimFloat.add x (lit 360)) with (add x (lit 360)) in Hfr, Hfaith, Hnear.
  split; [exact Hfr|]. rewrite Fval_lit_360 in Hfaith, Hnear. split.
  - specialize (Hnear 1083 ltac:(lia)).
    change (2 ^ (53 + 1083)) with (2 ^ (62 + 1074)) in Hnear.
    rewrite (Z.pow_add_r 2 62 1074) in Hnear by lia.
    change (2 ^ 1083) with (2 ^ (9 + 1074)) in Hnear.
    rewrite (Z.pow_add_r 2 9 1074) in Hnear by lia. change (2 ^ 9) with 512 in Hnear.
    set (U := 2 ^ 1074) in *. set (B := 2 ^ 62 * U) in *.
    specialize (Hnear ltac:(lia)). lia.
  - destruct (Hfaith 45 1076 ltac:(lia) ltac:(change (2 ^ 53) with 9007199254740992; lia))
      as [_ Hup].
    change (2 ^ 1076) with (2 ^ (2 + 1074)) in Hup.
    rewrite (Z.pow_add_r 2 2 1074) in Hup by lia. change (2 ^ 2) with 4 in Hup.
    set (U := 2 ^ 1074) in *. apply Z.le_trans with (45 * (4 * U)); [apply Hup|]; lia.
Qed.

Lemma sub_360_step (x : float) :
  PrimFloat.is_finite x = true ->
  Fval x <= 2 ^ 62 * 2 ^ 1074 -> 180 * 2 ^ 1074 <= Fval x ->
  PrimFloat.is_finite (sub x (lit 360)) = true /\
  - (180 * 2 ^ 1074) <= Fval (sub x (lit 360)) < Fval x.
Proof.
  intros Hfin Hhi Hlo.
  assert (HU : 0 < 2 ^ 1074) by (apply pow2_pos; lia).
  destruct (sub_Fval x (lit 360) Hfin finite_lit_360) as [Hfr [Hfaith Hnear]].
  { rewrite Fval_lit_360. apply sum_below_overflow; lia. }
  change (PrimFloat.sub x (lit 360)) with (sub x (lit 360)) in Hfr, Hfaith, Hnear.
  split; [exact Hfr|]. rewrite Fval_lit_360 in Hfaith, Hnear. split.
  - destruct (Hfaith (-45) 1076 ltac:(lia) ltac:(change (2 ^ 53) with 9007199254740992; lia))
      as [Hlow _].
    change (2 ^ 1076) with (2 ^ (2 + 1074)) in Hlow.
    rewrite (Z.pow_add_r 2 2 1074) in Hlow by lia. change (2 ^ 2) with 4 in Hlow.
    set (U := 2 ^ 1074) in *. apply Z.le_trans with (-45 * (4 * U)); [|apply Hlow]; lia.
  - specialize (Hnear 1083 ltac:(lia)).
    change (2 ^ (53 + 1083)) with (2 ^ (62 + 1074)) in Hnear.
    rewrite (Z.pow_add_r 2 62 1074) in Hnear by lia.
    change (2 ^ 1083) with (2 ^ (9 + 1074)) in Hnear.
    rewrite (Z.pow_add_r 2 9 1074) in Hnear by lia. change (2 ^ 9) with 512 in Hnear.
    set (U := 2 ^ 1074) in *. set (B := 2 ^ 62 * U) in *.
    specialize (Hnear ltac:(lia)). lia.
Qed.

Lemma ltb_neg_180 (x : float) :
  PrimFloat.is_finite x = true ->
  ltb x (lit (-180)) = (Fval x <? - (180 * 2 ^ 1074)).
Proof.
  intros Hfin. rewrite is_finite_spec in Hfin.
  change (ltb x (lit (-180))) with (PrimFloat.ltb x (lit (-180))).
  rewrite ltb_Fval, Fval_lit_neg_180; [reflexivity | apply finite_not_nan; exact Hfin |].
  vm_compute. reflexivity.
Qed.

Lemma leb_180 (x : float) :
  PrimFloat.is_finite x = true ->
  leb (lit 180) x = (180 * 2 ^ 1074 <=? Fval x).
Proof.
  intros Hfin. rewrite is_finite_spec in Hfin.
  change (leb (lit 180) x) with (PrimFloat.leb (lit 180) x).
  rewrite leb_Fval, Fval_lit_180; [reflexivity | | apply finite_not_nan; exact Hfin].
  vm_compute. reflexivity.
Qed.

Lemma wrap_up_binary64 (n : nat) :
  forall (x : float) (fuel : nat),
    PrimFloat.is_finite x = true -> - (2 ^ 62 * 2 ^ 1074) <= Fval x ->
    - (180 * 2 ^ 1074) - Fval x <= Z.of_nat n -> (n < fuel)%nat ->
    exists c, wrap_up fuel x = Ok c /\ PrimFloat.is_finite c = true /\
      - (180 * 2 ^ 1074) <= Fval c /\ (c = x \/ Fval c <= 180 * 2 ^ 1074).
Proof.
  induction n as [|n IH]; intros x fuel Hfin Hlo Hn Hfuel;
    (destruct fuel as [|fuel]; [lia|]); cbn [wrap_up]; rewrite (ltb_neg_180 x Hfin);
    destruct (Z.ltb_spec (Fval x) (- (180 * 2 ^ 1074))) as [Hlt|Hge];
    try (exists x; split; [reflexivity|]; split; [exact Hfin|]; split; [lia | left; reflexivity]).
  - lia.
  - destruct (add_360_step x Hfin Hlo Hlt) as (Hfr & Hgt & Hup).
    destruct (IH (add x (lit 360)) fuel Hfr) as (c & Hc & Hfc & Hclo & Hchi); [lia | lia | lia |].
    exists c. split; [exact Hc|]. split; [exact Hfc|]. split; [exact Hclo|].
    right. destruct Hchi as [->|Hle]; [exact Hup | exact Hle].
Qed.

Lemma wrap_down_binary64 (n : nat) :
  forall (x : float) (fuel : nat),
    PrimFloat.is_finite x = true -> Fval x <= 2 ^ 62 * 2 ^ 1074 ->
    Fval x - 180 * 2 ^ 1074 < Z.of_nat n -> (n < fuel)%nat ->
    exists c, wrap_down fuel x = Ok c /\ PrimFloat.is_finite c = true /\
      Fval c < 180 * 2 ^ 1074 /\ (c = x \/ - (180 * 2 ^ 1074) <= Fval c).
Proof.
  induction n as [|n IH]; intros x fuel Hfin Hhi Hn Hfuel;
    (destruct fuel as [|fuel]; [lia|]); cbn [wrap_down]; rewrite (leb_180 x Hfin);
    destruct (Z.leb_spec (180 * 2 ^ 1074) (Fval x)) as [Hle|Hlt];
    try (exists x; split; [reflexivity|]; split; [exact Hfin|]; split; [lia | left; reflexivity]).
  - lia.
  - destruct (sub_360_step x Hfin Hhi Hle) as (Hfr & Hlo & Hdown).
    destruct (IH (sub x (lit 360)) fuel Hfr) as (c & Hc & Hfc & Hchi & Hclo); [lia | lia | lia |].
    exists c. split; [exact Hc|]. split; [exact Hfc|]. split; [exact Hchi|].
    right. destruct Hclo as [->|Hge]; [exact Hlo | exact Hge].
Qed.

Lemma magnitude_up_to_2_62 (chi : float) :
  leb (fabs chi) (lit (2 ^ 62)) = true ->
  PrimFloat.is_finite chi = true /\ Z.abs (Fval chi) <= 2 ^ 62 * 2 ^ 1074.
Proof.
  change (leb (fabs chi) (lit (2 ^ 62))) with (PrimFloat.leb (PrimFloat.abs chi) (lit (2 ^ 62))).
  rewrite leb_spec, abs_spec, is_finite_spec. unfold Fval, SFleb.
  pose proof (Prim2SF_valid chi) as Hv.
  assert (H62 : Prim2SF (lit (2 ^ 62)) = S754_finite false 4503599627370496 10)
    by (vm_compute; reflexivity).
  rewrite H62. destruct (Prim2SF chi) as [s|s| |s m e]; cbn [SFabs]; intros Hlt.
  - split; [reflexivity|]. cbn [Zval Z.abs].
    apply Z.lt_le_incl, Z.mul_pos_pos; apply pow2_pos; lia.
  - discriminate Hlt.
  - discriminate Hlt.
  - split; [reflexivity|]. cbn [valid_binary] in Hv.
    rewrite (compare_Zval (S754_finite false m e) (S754_finite false 4503599627370496 10))
      in Hlt; [| exact Hv | reflexivity | reflexivity | reflexivity].
    cbn [Zval cond_Zopp] in Hlt |- *.
    pose proof (finite_positive _ _ Hv) as Hpos.
    assert (Hc : Zpos m * 2 ^ (e + 1074) <= 4503599627370496 * 2 ^ (10 + 1074)).
    { destruct (Z.compare_spec (Zpos m * 2 ^ (e + 1074)) (4503599627370496 * 2 ^ (10 + 1074)))
        as [Hc|Hc|Hc]; try discriminate Hlt; lia. }
    rewrite (Z.pow_add_r 2 10 1074), Z.mul_assoc in Hc by lia.
    change (4503599627370496 * 2 ^ 10) with (2 ^ 62) in Hc.
    destruct s; cbn [cond_Zopp]; lia.
Qed.

(** In binary64 the two loops exit on every number of magnitude at most
    2^62, with a value of [-180, 180). *)
Lemma wrap_chi_binary64 (chi : float) (fuel : nat) :
  leb (fabs chi) (lit (2 ^ 62)) = true -> (wrap_steps64 chi < fuel)%nat ->
  exists c, wrap_chi fuel chi = Ok c /\
    leb (lit (-180)) c = true /\ ltb c (lit 180) = true.
Proof.
  intros [Hfin Hmag]%magnitude_up_to_2_62 Hfuel. unfold wrap_steps64 in Hfuel.
  assert (HU : 0 < 2 ^ 1074) by (apply pow2_pos; lia).
  set (n := S (Z.to_nat (Z.abs (Fval chi)))) in *.
  assert (Hn : Z.abs (Fval chi) < Z.of_nat n) by (unfold n; lia).
  destruct (wrap_up_binary64 n chi fuel Hfin) as (c1 & H1 & Hf1 & Hlo1 & Hhi1); [lia | lia | lia |].
  assert (Hc1 : Fval c1 <= 2 ^ 62 * 2 ^ 1074 /\ Fval c1 - 180 * 2 ^ 1074 < Z.of_nat n).
  { assert (180 * 2 ^ 1074 < 2 ^ 62 * 2 ^ 1074).
    { apply Z.mul_lt_mono_pos_r; [lia | reflexivity]. }
    destruct Hhi1 as [->|Hle]; lia. }
  destruct (wrap_down_binary64 n c1 fuel Hf1) as (c & H2 & Hf2 & Hhi2 & Hlo2); [lia | lia | lia |].
  exists c. unfold wrap_chi. rewrite H1. cbn [mbind res_bind]. split; [exact H2|].
  assert (Hlo : - (180 * 2 ^ 1074) <= Fval c) by (destruct Hlo2 as [->|Hge]; lia).
  pose proof Hf2 as Hf2'. rewrite is_finite_spec in Hf2'. apply finite_not_nan in Hf2'.
  split.
  - change (leb (lit (-180)) c) with (PrimFloat.leb (lit (-180)) c).
    rewrite leb_Fval, Fval_lit_neg_180; [apply Z.leb_le; exact Hlo | vm_compute; reflexivity
                                        | exact Hf2'].
  - change (ltb c (lit 180)) with (PrimFloat.ltb c (lit 180)).
    rewrite ltb_Fval, Fval_lit_180; [apply Z.ltb_lt; exact Hhi2 | exact Hf2'
                                    | vm_compute; reflexivity].
Qed.

(** ** Rezeroing in binary64 *)

Lemma finite_is_not_nan (x : float) : PrimFloat.is_finite x = true -> not_nan x.
Proof. rewrite is_finite_spec. apply finite_not_nan. Qed.

Lemma eqb_Fval (f g : float) :
  not_nan f -> not_nan g -> PrimFloat.eqb f g = (Fval f =? Fval g).
Proof.
  intros Hf Hg. rewrite FloatAxioms.eqb_spec. unfold SFeqb, Fval.
  rewrite (compare_Zval _ _ (Prim2SF_valid f) (Prim2SF_valid g) Hf Hg).
  destruct (Z.compare_spec (Zval (Prim2SF f)) (Zval (Prim2SF g))) as [E|E|E];
    symmetry; [apply Z.eqb_eq; exact E | apply Z.eqb_neq; lia | apply Z.eqb_neq; lia].
Qed.

Lemma elem_of_concat_get2 {A} (a : list (list A)) (x : A) :
  x ∈ concat a <-> exists k n, get2 a k n = Some x.
Proof.
  rewrite list_elem_of_In, in_concat. unfold get2. split.
  - intros (row & Hrow & Hx).
    apply list_elem_of_In, list_elem_of_lookup in Hrow as [k Hk].
    apply list_elem_of_In, list_elem_of_lookup in Hx as [n Hn].
    exists k, n. rewrite Hk. exact Hn.
  - intros (k & n & Hkn). destruct (a !! k) as [row|] eqn:Hk; simpl in Hkn; [|done].
    exists row. split; apply list_elem_of_In, list_elem_of_lookup; eauto.
Qed.

Lemma running_min64 (xs : list float) :
  forall x : float, Forall not_nan (x :: xs) ->
    foldl (fun m y => if ltb y m then y else m) x xs ∈ x :: xs /\
    forall y, y ∈ x :: xs ->
      Fval (foldl (fun m y => if ltb y m then y else m) x xs) <= Fval y.
Proof.
  induction xs as [|z xs IH]; intros x Hnn; cbn [foldl].
  - split; [left|]. intros y Hy. apply list_elem_of_singleton in Hy as ->. lia.
  - pose proof (Forall_inv Hnn) as Hx. pose proof (Forall_inv_tail Hnn) as Hnn'.
    pose proof (Forall_inv Hnn') as Hz. pose proof (Forall_inv_tail Hnn') as Hxs.
    change (ltb z x) with (PrimFloat.ltb z x). rewrite (ltb_Fval z x Hz Hx).
    destruct (Z.ltb_spec (Fval z) (Fval x)) as [E|E].
    + destruct (IH z Hnn') as [Hin Hle]. split; [right; exact Hin|].
      intros y Hy. apply elem_of_cons in Hy as [->|Hy]; [|apply Hle; exact Hy].
      pose proof (Hle z ltac:(left)). lia.
    + destruct (IH x (Forall_cons_2 _ _ _ Hx Hxs)) as [Hin Hle]. split.
      * apply elem_of_cons in Hin as [Heq|Hin]; [rewrite Heq; left | right; right; exact Hin].
      * intros y Hy. apply elem_of_cons in Hy as [->|Hy]; [apply Hle; left|].
        apply elem_of_cons in Hy as [->|Hy]; [|apply Hle; right; exact Hy].
        pose proof (Hle x ltac:(left)). lia.
Qed.

Lemma amin_least64 (a : list (list float)) :
  concat a <> [] -> Forall not_nan (concat a) ->
  exists m, amin a = Ok m /\ m ∈ concat a /\ forall y, y ∈ concat a -> Fval m <= Fval y.
Proof.
  intros Hne Hnn. unfold amin. destruct (concat a) as [|x xs]; [done|].
  eexists. split; [reflexivity|]. apply running_min64. exact Hnn.
Qed.

Lemma get2_shift64 (a : list (list float)) (m : float) (k n : nat) :
  get2 (map (map (fun x => sub x m)) a) k n = (fun x => sub x m) <$> get2 a k n.
Proof.
  unfold get2. rewrite list_lookup_fmap. destruct (a !! k) as [row|]; simpl; [|done].
  rewrite list_lookup_fmap. reflexivity.
Qed.

Lemma sub_not_below (x m : float) :
  PrimFloat.is_finite x = true -> PrimFloat.is_finite m = true -> Fval m <= Fval x ->
  not_nan (sub x m) /\ 0 <= Fval (sub x m).
Proof.
  rewrite !is_finite_spec. intros Hx Hm Hle. unfold not_nan, Fval.
  change (sub x m) with (PrimFloat.sub x m). rewrite sub_spec.
  apply SFsub_nonneg; auto using Prim2SF_valid.
Qed.

Lemma sub_self_zero (m : float) : PrimFloat.is_finite m = true -> Fval (sub m m) = 0.
Proof.
  rewrite is_finite_spec. intros Hm. unfold Fval.
  change (sub m m) with (PrimFloat.sub m m). rewrite sub_spec.
  destruct (SFsub_self _ Hm) as [s ->]. reflexivity.
Qed.

Lemma zero_leb (y : float) : not_nan y -> leb (lit 0) y = (0 <=? Fval y).
Proof.
  intros Hy. change (leb (lit 0) y) with (PrimFloat.leb (lit 0) y).
  rewrite leb_Fval; [reflexivity | vm_compute; reflexivity | exact Hy].
Qed.

(** Line 155 in binary64, on an array of finite numbers. *)
Lemma rezero_binary64 (a : list (list float)) :
  concat a <> [] ->
  Forall (Forall (fun x => PrimFloat.is_finite x = true)) a ->
  exists m a',
    amin a = Ok m /\ rezero a = Ok a' /\
    (exists k n, get2 a k n = Some m) /\
    (forall k n x, get2 a k n = Some x -> leb m x = true) /\
    (forall k n, get2 a' k n = (fun x => sub x m) <$> get2 a k n) /\
    (forall k n y, get2 a' k n = Some y -> leb (lit 0) y = true) /\
    (exists m', amin a' = Ok m' /\ PrimFloat.eqb m' (lit 0) = true).
Proof.
  intros Hne Hall.
  assert (Hfin : forall k n x, get2 a k n = Some x -> PrimFloat.is_finite x = true).
  { intros k n x Hx. unfold get2 in Hx.
    destruct (a !! k) as [row|] eqn:Hrow; simpl in Hx; [|done].
    pose proof (proj1 (Forall_lookup _ _) Hall _ _ Hrow) as Hr.
    exact (proj1 (Forall_lookup _ _) Hr _ _ Hx). }
  assert (Hnn : Forall not_nan (concat a)).
  { apply Forall_forall. intros x [k [n Hx]]%elem_of_concat_get2.
    apply finite_is_not_nan. eauto. }
  destruct (amin_least64 a Hne Hnn) as (m & Hm & Hin & Hle).
  exists m, (map (map (fun x => sub x m)) a).
  apply elem_of_concat_get2 in Hin as (km & nm & Hmin).
  pose proof (Hfin _ _ _ Hmin) as Hfm.
  assert (Hlow : forall k n x, get2 a k n = Some x -> Fval m <= Fval x).
  { intros k n x Hx. apply Hle, elem_of_concat_get2. eauto. }
  assert (Hsh : forall k n y, get2 (map (map (fun x => sub x m)) a) k n = Some y ->
                  not_nan y /\ 0 <= Fval y).
  { intros k n y. rewrite get2_shift64. destruct (get2 a k n) as [x|] eqn:Hx; simpl; [|done].
    intros [= <-]. apply sub_not_below; eauto. }
  split; [exact Hm|]. split; [unfold rezero; rewrite Hm; reflexivity|].
  split; [eauto|]. split; [|split; [apply get2_shift64|split]].
  - intros k n x Hx. change (leb m x) with (PrimFloat.leb m x).
    rewrite leb_Fval; [apply Z.leb_le; eauto | apply finite_is_not_nan; exact Hfm
                      | apply finite_is_not_nan; eauto].
  - intros k n y Hy. destruct (Hsh _ _ _ Hy) as [Hny Hy0].
    rewrite (zero_leb y Hny). apply Z.leb_le. exact Hy0.
  - assert (Hzero : sub m m ∈ concat (map (map (fun x => sub x m)) a)).
    { apply elem_of_concat_get2. exists km, nm. rewrite get2_shift64, Hmin. reflexivity. }
    destruct (amin_least64 (map (map (fun x => sub x m)) a)) as (m' & Hm' & Hin' & Hle').
    { intros Hnil. rewrite Hnil in Hzero. inversion Hzero. }
    { apply Forall_forall. intros y [k [n Hy]]%elem_of_concat_get2. apply (Hsh _ _ _ Hy). }
    exists m'. split; [exact Hm'|].
    pose proof (Hle' _ Hzero) as Hle0. rewrite (sub_self_zero m Hfm) in Hle0.
    apply elem_of_concat_get2 in Hin' as (k' & n' & Hk').
    destruct (Hsh _ _ _ Hk') as [Hnm' Hm0].
    rewrite eqb_Fval; [apply Z.eqb_eq; change (Fval (lit 0)) with 0; lia | exact Hnm'
                      | vm_compute; reflexivity].
Qed.

End Binary64.

(** ** The wrapped torsions *)

Lemma wrap_steps_lt_max (ls : list (window_lines Q)) (l : window_lines Q) (chi : Q) :
  l ∈ ls -> chi ∈ l_torsions l ->
  (wrap_steps chi <= max_list (map wrap_steps (concat (map l_torsions ls))))%nat.
Proof.
  intros Hl Hchi. apply max_list_elem_of_le. apply list_elem_of_fmap.
  exists chi. split; [reflexivity|].
  apply list_elem_of_In, in_concat. exists (l_torsions l).
  split; [|apply list_elem_of_In; exact Hchi].
  apply in_map, list_elem_of_In. exact Hl.
Qed.

Lemma wrap_steps64_lt_max (ls : list (window_lines float)) (l : window_lines float)
    (chi : float) :
  l ∈ ls -> chi ∈ l_torsions l ->
  (wrap_steps64 chi <= max_list (map wrap_steps64 (concat (map l_torsions ls))))%nat.
Proof.
  intros Hl Hchi. apply max_list_elem_of_le. apply list_elem_of_fmap.
  exists chi. split; [reflexivity|].
  apply list_elem_of_In, in_concat. exists (l_torsions l).
  split; [|apply list_elem_of_In; exact Hchi].
  apply in_map, list_elem_of_In. exact Hl.
Qed.

(** What the arrays hold whenever ingestion returns, for a property [P] that
    the wrap establishes on every torsion read. *)
Lemma ingest_ts_stored {F : Type} `{Arith F} (P : F -> Prop) (ts : timeseries F)
    (fuel : nat) (dt : bool) (K Nmax : nat) (ls : list (window_lines F)) :
  P (lit 0) ->
  (forall l chi, l ∈ ls -> chi ∈ l_torsions l -> exists c, wrap_chi fuel chi = Ok c /\ P c) ->
  ingest_ts ts fuel dt K Nmax ls <> OutOfFuel /\
  forall a, ingest_ts ts fuel dt K Nmax ls = Ok a ->
    forall k n Nk, N_k a !! k = Some Nk -> (n < Nk)%nat ->
      exists c, get2 (chi_kn a) k n = Some c /\ P c.
Proof.
  intros P0 Hwrap. split.
  - apply ingest_ts_fuel. intros l chi Hl Hchi.
    destruct (Hwrap l chi Hl Hchi) as (c & -> & _). discriminate.
  - intros a Hrun k n Nk HNk Hn.
    destruct (ingest_ts_Ok P P0 ts fuel dt K Nmax ls a) as (HN & Hc & _ & HP & _ & Hle);
      [|exact Hrun|].
    { intros l chi c Hl Hchi Hc. destruct (Hwrap l chi Hl Hchi) as (c' & Hc' & HPc).
      congruence. }
    pose proof (proj1 (Forall_lookup _ _) Hle _ _ HNk) as HNmax. cbv beta in HNmax.
    destruct (lookup_lt_is_Some_2 (chi_kn a) k) as [row Hrow].
    { rewrite Hc, <- HN. apply lookup_lt_Some in HNk. exact HNk. }
    destruct (proj1 (Forall_lookup _ _) HP _ _ Hrow) as [Hlen HPr].
    destruct (lookup_lt_is_Some_2 row n) as [c Hcn]; [lia|].
    exists c. split; [unfold get2; rewrite Hrow; exact Hcn|].
    exact (proj1 (Forall_lookup _ _) HPr _ _ Hcn).
Qed.

(** C5, amended.  The wrapping loops of lines 106-109 terminate with a
    result in [-180, +180) on every torsion value in exact arithmetic, and in
    binary64 on every value of magnitude at most 2^62.  On files of such
    torsions ingestion never runs a wrapping loop forever, and whenever it
    returns, every stored sample chi_kn[k][n] with n < N_k[k] lies in
    [-180, +180); this for every behaviour of the subsampler. *)
Theorem stored_torsions_canonical :
  (forall chi : Q, exists fuel0, forall fuel, (fuel0 <= fuel)%nat ->
     exists c, wrap_chi fuel chi = Ok c /\ (-180 <= c /\ c < 180)%Q) /\
  (forall chi : float, leb (fabs chi) (lit (2 ^ 62)) = true ->
     exists fuel0, forall fuel, (fuel0 <= fuel)%nat ->
       exists c, wrap_chi fuel chi = Ok c /\
         leb (lit (-180)) c = true /\ ltb c (lit 180) = true) /\
  (forall (ts : timeseries Q) (dt : bool) (K Nmax : nat) (ls : list (window_lines Q)),
     exists fuel0, forall fuel, (fuel0 <= fuel)%nat ->
       ingest_ts ts fuel dt K Nmax ls <> OutOfFuel /\
       forall a, ingest_ts ts fuel dt K Nmax ls = Ok a ->
         forall k n Nk, N_k a !! k = Some Nk -> (n < Nk)%nat ->
           exists c, get2 (chi_kn a) k n = Some c /\ (-180 <= c /\ c < 180)%Q) /\
  (forall (ts : timeseries float) (dt : bool) (K Nmax : nat) (ls : list (window_lines float)),
     Forall (fun l => Forall (fun chi => leb (fabs chi) (lit (2 ^ 62)) = true) (l_torsions l))
       ls ->
     exists fuel0, forall fuel, (fuel0 <= fuel)%nat ->
       ingest_ts ts fuel dt K Nmax ls <> OutOfFuel /\
       forall a, ingest_ts ts fuel dt K Nmax ls = Ok a ->
         forall k n Nk, N_k a !! k = Some Nk -> (n < Nk)%nat ->
           exists c, get2 (chi_kn a) k n = Some c /\
             leb (lit (-180)) c = true /\ ltb c (lit 180) = true).
Proof.
  split; [|split; [|split]].
  - intros chi. exists (S (wrap_steps chi)). intros fuel Hfuel.
    apply wrap_chi_exact. lia.
  - intros chi Hchi. exists (S (wrap_steps64 chi)). intros fuel Hfuel.
    apply wrap_chi_binary64; [exact Hchi | lia].
  - intros ts dt K Nmax ls.
    exists (S (max_list (map wrap_steps (concat (map l_torsions ls))))).
    intros fuel Hfuel. apply (ingest_ts_stored canonical).
    + split; [discriminate | reflexivity].
    + intros l chi Hl Hchi. apply wrap_chi_exact.
      pose proof (wrap_steps_lt_max ls l chi Hl Hchi). lia.
  - intros ts dt K Nmax ls Hmod.
    exists (S (max_list (map wrap_steps64 (concat (map l_torsions ls))))).
    intros fuel Hfuel. apply (ingest_ts_stored canonical64).
    + split; vm_compute; reflexivity.
    + intros l chi Hl Hchi. apply wrap_chi_binary64.
      * rewrite Forall_forall in Hmod. specialize (Hmod l Hl).
        rewrite Forall_forall in Hmod. exact (Hmod chi Hchi).
      * pose proof (wrap_steps64_lt_max ls l chi Hl Hchi). lia.
Qed.

Lemma stored_torsions_canonical_witness :
  exists fuel0, forall fuel, (fuel0 <= fuel)%nat ->
    ingest_ts keep_all fuel false 2 3 demo_lines64 <> OutOfFuel /\
    forall a, ingest_ts keep_all fuel false 2 3 demo_lines64 = Ok a ->
      forall k n Nk, N_k a !! k = Some Nk -> (n < Nk)%nat ->
        exists c, get2 (chi_kn a) k n = Some c /\
          leb (lit (-180)) c = true /\ ltb c (lit 180) = true.
Proof.
  apply (proj2 (proj2 (proj2 stored_torsions_canonical)) keep_all false 2%nat 3%nat demo_lines64).
  repeat constructor.
Defined.

(** With five iterations allowed per loop the two windows are ingested in
    binary64: 190.5 is stored as -169.5, -541 as 179, 180 as -180 and 899
    as 179. *)
Example demo_ingestion64 :
  ingest_ts keep_all 5 false 2 3 demo_lines64 =
    Ok {| N_k := [3; 3]%nat;
          chi_kn := [[-169.5; 179; 3]; [-180; -180; 179]]%float;
          u_kn := [[0; 0; 0]; [0; 0; 0]]%float |}.
Proof. vm_compute. reflexivity. Qed.

(** With five iterations allowed per loop the two demo windows are ingested;
    190 is stored as -170, 3 as 3, -180 as -180 and 899 as 179. *)
Example demo_ingestion :
  exists a, ingest 5 false 2 3 demo_windows = Ok a /\
    N_k a = [2; 2]%nat /\
    chi_kn a = [[-170; 3; 3]; [-180; 179; 179]]%Q.
Proof. eexists. split; [vm_compute; reflexivity|]. split; reflexivity. Qed.

(** ** The wrap in binary64 *)

Lemma wrap_up_absorbed (fuel : nat) : wrap_up fuel huge_torsion = OutOfFuel.
Proof.
  induction fuel as [|fuel IH]; [reflexivity|].
  cbn [wrap_up].
  change (ltb huge_torsion (lit (-180))) with true.
  change (add huge_torsion (lit 360)) with huge_torsion.
  exact IH.
Qed.

(** C5 as stated fails in binary64.  The value -1e22 is finite and below -180,
    and adding 360.0 to it gives -1e22 again (the spacing of binary64 numbers
    near 1e22 is 2^21): the loop of lines 106-107 never exits, and ingestion
    of a file with this torsion never returns, whatever the step budget and
    whatever the subsampler would answer. *)
Lemma wrap_absorbed_binary64 :
  PrimFloat.is_finite huge_torsion = true /\
  ltb huge_torsion (lit (-180)) = true /\
  add huge_torsion (lit 360) = huge_torsion /\
  (forall fuel, wrap_chi fuel huge_torsion = OutOfFuel) /\
  (forall fuel dt, ingest fuel dt K N_max (replicate K huge_window) = OutOfFuel) /\
  (forall ts fuel dt, ingest_ts ts fuel dt K N_max (replicate K huge_lines) = OutOfFuel).
Proof.
  split; [reflexivity|]. split; [reflexivity|]. split; [reflexivity|]. split; [|split].
  - intros fuel. unfold wrap_chi. rewrite wrap_up_absorbed. reflexivity.
  - intros fuel dt. unfold ingest, for_range.
    change (seq 0 K) with (0%nat :: seq 1 25). cbn [for_each].
    change (index (replicate K huge_window) 0) with (Ok huge_window).
    cbn [mbind res_bind].
    unfold ingest_window, read_torsions.
    cbn [chi_kn u_kn N_k]. unfold zeros2.
    change (index (replicate K (zeros N_max)) 0) with (Ok (zeros (F:=float) N_max)).
    cbn [mbind res_bind torsions huge_window for_each].
    unfold wrap_chi. rewrite wrap_up_absorbed. reflexivity.
  - intros ts fuel dt. unfold ingest_ts, for_range.
    change (seq 0 K) with (0%nat :: seq 1 25). cbn [for_each].
    change (index (replicate K huge_lines) 0) with (Ok huge_lines).
    cbn [mbind res_bind].
    unfold ingest_window_ts, read_torsions.
    cbn [chi_kn u_kn N_k]. unfold zeros2.
    change (index (replicate K (zeros N_max)) 0) with (Ok (zeros (F:=float) N_max)).
    cbn [mbind res_bind l_torsions huge_lines for_each].
    unfold wrap_chi. rewrite wrap_up_absorbed. reflexivity.
Qed.

(** On torsions of ordinary size the binary64 loops run as the exact ones. *)
Example wrap_binary64_samples :
  wrap_chi 3 190.5%float = Ok (-169.5)%float /\
  wrap_chi 3 (-180.5)%float = Ok 179.5%float /\
  wrap_chi 3 180%float = Ok (-180)%float /\
  wrap_chi 4 (-541)%float = Ok 179%float.
Proof. repeat split. Qed.

(** ** The bin grid *)

Section Grid.
Context {F : Type} `{Arith F}.

Lemma linspace_length (lo hi : F) (num : nat) : length (linspace lo hi num) = num.
Proof.
  unfold linspace. destruct (decide (1 < num)%nat);
    rewrite ?length_insert, length_map, length_seq; reflexivity.
Qed.

Lemma linspace_inner (lo hi : F) (num i : nat) :
  (i < num - 1)%nat ->
  linspace lo hi num !! i =
    Some (add (mul (lit (Z.of_nat i)) (div (sub hi lo) (lit (Z.of_nat (num - 1))))) lo).
Proof.
  intros Hi. unfold linspace. destruct (decide (1 < num)%nat); [|lia].
  rewrite list_lookup_insert_ne by lia.
  rewrite list_lookup_fmap, lookup_seq_lt by lia. reflexivity.
Qed.

Lemma linspace_last (lo hi : F) (num : nat) :
  (1 < num)%nat -> linspace lo hi num !! (num - 1)%nat = Some hi.
Proof.
  intros Hn. unfold linspace. destruct (decide (1 < num)%nat); [|lia].
  apply list_lookup_insert_eq. rewrite length_map, length_seq. lia.
Qed.

Lemma bin_centers_spec (edges : list F) (nbins : nat) :
  length edges = (nbins + 1)%nat ->
  exists centers, bin_centers edges nbins = Ok centers /\ length centers = nbins /\
    forall i a b, (i < nbins)%nat -> edges !! i = Some a -> edges !! (i + 1)%nat = Some b ->
      centers !! i = Some (mul half (add a b)).
Proof.
  intros Hlen. unfold bin_centers.
  match goal with |- context [for_range nbins ?b ?s] => set (body := b) end.
  destruct (for_range_inv
    (fun j c => length c = nbins /\
       forall i a b, (i < j)%nat -> edges !! i = Some a -> edges !! (i + 1)%nat = Some b ->
         c !! i = Some (mul half (add a b)))
    nbins body (zeros nbins)) as (c & Hrun & Hl & Hc).
  - split; [apply length_replicate | intros; lia].
  - intros j c Hj [Hl Hc].
    destruct (lookup_lt_is_Some_2 edges j) as [a Ha]; [lia|].
    destruct (lookup_lt_is_Some_2 edges (j + 1)) as [b Hb]; [lia|].
    unfold body. rewrite (index_Ok _ _ _ Ha). simpl. rewrite (index_Ok _ _ _ Hb). simpl.
    rewrite store_Ok by lia. eexists. split; [reflexivity|].
    split; [rewrite length_insert; exact Hl|].
    intros i a' b' Hi Ha' Hb'. destruct (decide (i = j)) as [->|Hne].
    + rewrite list_lookup_insert_eq by lia. congruence.
    + rewrite list_lookup_insert_ne by done. apply Hc; [lia | done | done].
  - exists c. split; [exact Hrun|]. split; [exact Hl|].
    intros i a b Hi. apply Hc. exact Hi.
Qed.

End Grid.

Section ExactGrid.
Open Scope Q_scope.

Lemma inject_Z_of_nat_pos (n : nat) : (0 < n)%nat -> 0 < inject_Z (Z.of_nat n).
Proof. intros Hn. change 0 with (inject_Z 0). rewrite <- Zlt_Qlt. lia. Qed.

Lemma inject_Z_of_nat_add1 (n : nat) :
  inject_Z (Z.of_nat (n + 1)) == inject_Z (Z.of_nat n) + 1.
Proof. rewrite Nat2Z.inj_add, inject_Z_plus. reflexivity. Qed.

(** C7. The bin grid of lines 160-163 has nbins+1 edges running from chi_min
    to chi_max; every cell has the width (chi_max - chi_min)/nbins and its
    right edge above its left edge; and bin_center_i[i] is
    0.5*(bin_edges[i] + bin_edges[i+1]).  In exact arithmetic this holds for
    every chi_min < chi_max and nbins > 0; in binary64 the grid of the script
    (-180, 180, 40) is computed without rounding: edges -180 + 9 i, centers
    -175.5 + 9 i, every width 9. *)
Theorem bin_grid_equal_width :
  (forall (lo hi : Q) (nbins : nat),
     (0 < nbins)%nat -> lo < hi ->
     let edges := bin_edges_of lo hi nbins in
     length edges = (nbins + 1)%nat /\
     (exists e0, edges !! 0%nat = Some e0 /\ e0 == lo) /\
     edges !! nbins = Some hi /\
     exists centers, bin_centers edges nbins = Ok centers /\ length centers = nbins /\
       forall i, (i < nbins)%nat ->
         exists a b, edges !! i = Some a /\ edges !! (i + 1)%nat = Some b /\
           b - a == (hi - lo) / inject_Z (Z.of_nat nbins) /\ a < b /\
           centers !! i = Some ((1 # 2) * (a + b))) /\
  (let edges := bin_edges_of (F := float) chi_min chi_max nbins in
   edges = map (fun i => lit (9 * Z.of_nat i - 180)) (seq 0 (nbins + 1)) /\
   bin_centers edges nbins
     = Ok (map (fun i => add (lit (9 * Z.of_nat i - 180)) 4.5%float) (seq 0 nbins)) /\
   forallb (fun i =>
              match edges !! i, edges !! (i + 1)%nat with
              | Some a, Some b => PrimFloat.eqb (sub b a) 9%float && ltb a b
              | _, _ => false
              end) (seq 0 nbins) = true).
Proof.
  split; [| repeat split; vm_compute; reflexivity].
  intros lo hi nbins Hn Hlt edges.
  pose proof (inject_Z_of_nat_pos nbins Hn) as Hpos.
  set (w := (hi - lo) / inject_Z (Z.of_nat nbins)).
  assert (Hw : 0 < w).
  { unfold w. apply Qlt_shift_div_l; [exact Hpos | lra]. }
  assert (Hspan : inject_Z (Z.of_nat nbins) * w == hi - lo).
  { unfold w. field. lra. }
  assert (Hinner : forall i, (i < nbins)%nat ->
            edges !! i = Some (inject_Z (Z.of_nat i) * w + lo)).
  { intros i Hi. unfold edges, bin_edges_of. rewrite linspace_inner by lia.
    replace (nbins + 1 - 1)%nat with nbins by lia. reflexivity. }
  assert (Hlast : edges !! nbins = Some hi).
  { unfold edges, bin_edges_of.
    pose proof (linspace_last lo hi (nbins + 1)) as Hl.
    replace (nbins + 1 - 1)%nat with nbins in Hl by lia. apply Hl. lia. }
  assert (Hlen : length edges = (nbins + 1)%nat) by apply linspace_length.
  split; [exact Hlen|]. split.
  { eexists. split; [apply Hinner; exact Hn|]. simpl. ring. }
  split; [exact Hlast|].
  destruct (bin_centers_spec edges nbins Hlen) as (centers & Hrun & Hcl & Hc).
  exists centers. split; [exact Hrun|]. split; [exact Hcl|].
  intros i Hi.
  assert (Hnext : exists b, edges !! (i + 1)%nat = Some b /\
            b == inject_Z (Z.of_nat i) * w + lo + w).
  { destruct (decide (i + 1 = nbins)%nat) as [Heq|Hne].
    - exists hi. rewrite Heq. split; [exact Hlast|].
      rewrite <- Heq, inject_Z_of_nat_add1 in Hspan. lra.
    - eexists. split; [apply Hinner; lia|]. rewrite inject_Z_of_nat_add1. ring. }
  destruct Hnext as (b & Hb & Hbv).
  exists (inject_Z (Z.of_nat i) * w + lo), b.
  split; [apply Hinner; exact Hi|]. split; [exact Hb|].
  split; [rewrite Hbv; fold w; ring|]. split; [rewrite Hbv; lra|].
  apply (Hc i _ _ Hi (Hinner i Hi) Hb).
Qed.

End ExactGrid.

Lemma bin_grid_equal_width_witness :
  let edges := bin_edges_of (-180)%Q 180%Q 40 in
  length edges = 41%nat /\
  (exists e0, edges !! 0%nat = Some e0 /\ (e0 == -180)%Q) /\
  edges !! 40%nat = Some 180%Q /\
  exists centers, bin_centers edges 40 = Ok centers /\ length centers = 40%nat /\
    forall i, (i < 40)%nat ->
      exists a b, edges !! i = Some a /\ edges !! (i + 1)%nat = Some b /\
        (b - a == (180 - -180) / inject_Z (Z.of_nat 40))%Q /\ (a < b)%Q /\
        centers !! i = Some ((1 # 2) * (a + b))%Q.
Proof.
  apply (proj1 bin_grid_equal_width (-180)%Q 180%Q 40%nat); [lia | reflexivity].
Defined.

(** ** Rezeroing *)

Section ExactRezero.
Open Scope Q_scope.

Lemma entry_elem_of (a : list (list Q)) (x : Q) :
  x ∈ concat a <-> exists k n, get2 a k n = Some x.
Proof.
  rewrite list_elem_of_In, in_concat. unfold get2. split.
  - intros (row & Hrow & Hx).
    apply list_elem_of_In, list_elem_of_lookup in Hrow as [k Hk].
    apply list_elem_of_In, list_elem_of_lookup in Hx as [n Hn].
    exists k, n. rewrite Hk. exact Hn.
  - intros (k & n & Hkn). destruct (a !! k) as [row|] eqn:Hk; simpl in Hkn; [|done].
    exists row. split; apply list_elem_of_In, list_elem_of_lookup; eauto.
Qed.

Lemma running_min (xs : list Q) :
  forall x : Q,
    foldl (fun m y => if ltb y m then y else m) x xs ∈ x :: xs /\
    forall y, y ∈ x :: xs -> foldl (fun m y => if ltb y m then y else m) x xs <= y.
Proof.
  induction xs as [|z xs IH]; intros x; cbn [foldl].
  - split; [left|]. intros y Hy. apply list_elem_of_singleton in Hy as ->. lra.
  - destruct (ltb z x) eqn:E.
    + apply ltb_Q_true in E. destruct (IH z) as [Hin Hle].
      split; [right; exact Hin|].
      intros y Hy. apply elem_of_cons in Hy as [->|Hy]; [|apply Hle; exact Hy].
      pose proof (Hle z ltac:(left)). lra.
    + apply ltb_Q_false in E. destruct (IH x) as [Hin Hle]. split.
      * apply elem_of_cons in Hin as [Heq|Hin]; [rewrite Heq; left | right; right; exact Hin].
      * intros y Hy. apply elem_of_cons in Hy as [->|Hy]; [apply Hle; left|].
        apply elem_of_cons in Hy as [->|Hy]; [|apply Hle; right; exact Hy].
        pose proof (Hle x ltac:(left)). lra.
Qed.

Lemma amin_least (a : list (list Q)) :
  concat a <> [] ->
  exists m, amin a = Ok m /\ m ∈ concat a /\ forall y, y ∈ concat a -> m <= y.
Proof.
  intros Hne. unfold amin. destruct (concat a) as [|x xs]; [done|].
  eexists. split; [reflexivity|]. apply running_min.
Qed.

Lemma get2_shift (a : list (list Q)) (m : Q) (k n : nat) :
  get2 (map (map (fun x => sub x m)) a) k n = (fun x => x - m) <$> get2 a k n.
Proof.
  unfold get2. rewrite list_lookup_fmap. destruct (a !! k) as [row|]; simpl; [|done].
  rewrite list_lookup_fmap. reflexivity.
Qed.

(** Line 155 in exact arithmetic. *)
Lemma rezero_exact (a : list (list Q)) :
  concat a <> [] ->
  exists m a',
    amin a = Ok m /\ rezero a = Ok a' /\
    (exists k n, get2 a k n = Some m) /\
    (forall k n x, get2 a k n = Some x -> m <= x) /\
    (forall k n, get2 a' k n = (fun x => x - m) <$> get2 a k n) /\
    (forall k n y, get2 a' k n = Some y -> 0 <= y) /\
    (exists m', amin a' = Ok m' /\ m' == 0) /\
    (forall k n k' n' x x' y y',
       get2 a k n = Some x -> get2 a k' n' = Some x' ->
       get2 a' k n = Some y -> get2 a' k' n' = Some y' -> y - y' == x - x') /\
    (forall N_k : list nat, zero_padded N_k a ->
       m <= 0 /\
       (m == 0 \/ exists k n Nk,
                    N_k !! k = Some Nk /\ (n < Nk)%nat /\ get2 a k n = Some m)).
Proof.
  intros Hne. destruct (amin_least a Hne) as (m & Hm & Hin & Hle).
  exists m, (map (map (fun x => sub x m)) a).
  assert (Hlow : forall k n x, get2 a k n = Some x -> m <= x).
  { intros k n x Hx. apply Hle, entry_elem_of. eauto. }
  apply entry_elem_of in Hin as (km & nm & Hmin).
  assert (Hnonneg : forall k n y,
            get2 (map (map (fun x => sub x m)) a) k n = Some y -> 0 <= y).
  { intros k n y. rewrite get2_shift. destruct (get2 a k n) as [x|] eqn:Hx; simpl; [|done].
    intros [= <-]. pose proof (Hlow _ _ _ Hx). lra. }
  split; [exact Hm|]. split; [unfold rezero; rewrite Hm; reflexivity|].
  split; [eauto|]. split; [exact Hlow|]. split; [apply get2_shift|].
  split; [exact Hnonneg|]. split; [|split].
  - destruct (amin_least (map (map (fun x => sub x m)) a)) as (m' & Hm' & Hin' & Hle').
    { intros Hnil. assert (Hx : m - m ∈ concat (map (map (fun x => sub x m)) a)).
      { apply entry_elem_of. exists km, nm. rewrite get2_shift, Hmin. reflexivity. }
      rewrite Hnil in Hx. inversion Hx. }
    exists m'. split; [exact Hm'|].
    assert (m' <= m - m).
    { apply Hle', entry_elem_of. exists km, nm. rewrite get2_shift, Hmin. reflexivity. }
    apply entry_elem_of in Hin' as (k' & n' & Hk').
    pose proof (Hnonneg _ _ _ Hk'). lra.
  - intros k n k' n' x x' y y' Hx Hx'. rewrite !get2_shift, Hx, Hx'. simpl.
    intros [= <-] [= <-]. ring.
  - intros N_k [(kp & np & Nkp & xp & HNp & Hnp & Hxp) Hpad]. split.
    + destruct (Hpad _ _ _ Hxp) as (Nk' & HNk' & Hz).
      assert (Nk' = Nkp) by congruence. subst Nk'.
      pose proof (Hz Hnp). pose proof (Hlow _ _ _ Hxp). lra.
    + destruct (Hpad _ _ _ Hmin) as (Nk & HNk & Hz).
      destruct (le_lt_dec Nk nm) as [Hge|Hlt]; [left; auto|].
      right. exists km, nm, Nk. auto.
Qed.

End ExactRezero.

(** C10, amended.  Line 155 subtracts one constant, the least of all entries
    of the array as it stands; afterwards every entry is nonnegative and the
    least entry is 0, in exact arithmetic and, for an array of finite
    numbers, in binary64 alike.  In exact arithmetic the differences between
    entries are unchanged, and when the entries beyond the retained counts
    are all zero and there is one, the constant is min(0, smallest retained
    energy). *)
Theorem rezero_subtracts_global_minimum :
  (forall a : list (list Q), concat a <> [] ->
     exists m a',
       amin a = Ok m /\ rezero a = Ok a' /\
       (exists k n, get2 a k n = Some m) /\
       (forall k n x, get2 a k n = Some x -> (m <= x)%Q) /\
       (forall k n, get2 a' k n = (fun x => (x - m)%Q) <$> get2 a k n) /\
       (forall k n y, get2 a' k n = Some y -> (0 <= y)%Q) /\
       (exists m', amin a' = Ok m' /\ (m' == 0)%Q) /\
       (forall k n k' n' x x' y y',
          get2 a k n = Some x -> get2 a k' n' = Some x' ->
          get2 a' k n = Some y -> get2 a' k' n' = Some y' -> (y - y' == x - x')%Q) /\
       (forall N_k : list nat, zero_padded N_k a ->
          (m <= 0)%Q /\
          ((m == 0)%Q \/ exists k n Nk,
                       N_k !! k = Some Nk /\ (n < Nk)%nat /\ get2 a k n = Some m))) /\
  (forall a : list (list float), concat a <> [] ->
     Forall (Forall (fun x => PrimFloat.is_finite x = true)) a ->
     exists m a',
       amin a = Ok m /\ rezero a = Ok a' /\
       (exists k n, get2 a k n = Some m) /\
       (forall k n x, get2 a k n = Some x -> leb m x = true) /\
       (forall k n, get2 a' k n = (fun x => sub x m) <$> get2 a k n) /\
       (forall k n y, get2 a' k n = Some y -> leb (lit 0) y = true) /\
       (exists m', amin a' = Ok m' /\ PrimFloat.eqb m' (lit 0) = true)).
Proof. split; [exact rezero_exact | exact rezero_binary64]. Qed.

Lemma rezero_subtracts_global_minimum_witness :
  (exists m a',
     amin [[1; -2]; [3; 0]]%Q = Ok m /\ rezero [[1; -2]; [3; 0]]%Q = Ok a' /\
     (m == -2)%Q /\ get2 a' 1 0 = Some (3 - m)%Q) /\
  (exists m a',
     amin [[0.5; 1.5]; [-0.25; 7]]%float = Ok m /\
     rezero [[0.5; 1.5]; [-0.25; 7]]%float = Ok a' /\
     m = (-0.25)%float /\
     (forall k n y, get2 a' k n = Some y -> leb (lit 0) y = true) /\
     (exists m', amin a' = Ok m' /\ PrimFloat.eqb m' (lit 0) = true)).
Proof.
  split.
  - destruct (proj1 rezero_subtracts_global_minimum [[1; -2]; [3; 0]]%Q) as
      (m & a' & Hm & Ha' & _ & _ & Hshift & _); [discriminate|].
    exists m, a'. split; [exact Hm|]. split; [exact Ha'|]. split.
    + vm_compute in Hm. injection Hm as <-. reflexivity.
    + rewrite Hshift. reflexivity.
  - destruct (proj2 rezero_subtracts_global_minimum [[0.5; 1.5]; [-0.25; 7]]%float) as
      (m & a' & Hm & Ha' & _ & _ & _ & Hnonneg & Hmin); [discriminate | repeat constructor |].
    exists m, a'. split; [exact Hm|]. split; [exact Ha'|]. split; [|split; assumption].
    vm_compute in Hm. injection Hm as <-. reflexivity.
Defined.

Section FullWindows.
Context {F : Type} `{Arith F}.
Variable P : F -> Prop.

Lemma read_energies_overwrite (es : list F) :
  forall (row : list F) (n0 : nat) (row' : list F) (n' : nat),
    Forall P es -> Forall P (take n0 row) ->
    for_each es (fun u '(row, n) => row' ← store row n u; Ok (row', S n)) (row, n0)
      = Ok (row', n') ->
    Forall P (take n' row') /\ n' = (n0 + length es)%nat /\ length row' = length row.
Proof.
  induction es as [|e es IH]; intros row n0 row' n' Hes Hrow; cbn [for_each].
  - intros [= <- <-]. rewrite Nat.add_0_r. auto.
  - intros ([row1 n1] & Hbody & Hrest)%bind_Ok_inv.
    apply bind_Ok_inv in Hbody as (r1 & Hst & [= <- <-]).
    unfold store in Hst. destruct (decide (n0 < length row)%nat) as [Hn0|]; [|discriminate].
    injection Hst as <-. apply Forall_cons in Hes as [He Hes].
    destruct (IH (<[n0 := e]> row) (S n0) row' n' Hes) as (HP & Hn & Hl); [|exact Hrest|].
    + rewrite (take_S_r _ _ e) by (apply list_lookup_insert_eq; exact Hn0).
      rewrite take_insert_ge by lia. apply Forall_app. split; [exact Hrow|].
      constructor; [exact He | constructor].
    + rewrite length_insert in Hl. split; [exact HP|]. split; [simpl; lia | exact Hl].
Qed.

(** When the temperatures differ and every energy file has as many data
    lines as a row has columns, a run that returns leaves in [u_kn] only
    energies that were read, whatever the subsampler answers. *)
Lemma ingest_ts_full_energies (ts : timeseries F) (fuel : nat) (K Nmax : nat)
    (ls : list (window_lines F)) (a : arrays F) :
  Forall (fun l => length (l_energies l) = Nmax /\ Forall P (l_energies l)) ls ->
  ingest_ts ts fuel true K Nmax ls = Ok a ->
  length (u_kn a) = K /\ Forall (fun row => length row = Nmax /\ Forall P row) (u_kn a).
Proof.
  intros Hls Hrun.
  assert (HI : length (u_kn a) = K /\ Forall (fun row => length row = Nmax) (u_kn a) /\
               forall k row, (k < K)%nat -> u_kn a !! k = Some row -> Forall P row).
  { revert Hrun. unfold ingest_ts.
    apply (for_range_Ok_inv
      (fun i a => length (u_kn a) = K /\ Forall (fun row => length row = Nmax) (u_kn a) /\
                  forall k row, (k < i)%nat -> u_kn a !! k = Some row -> Forall P row)).
    - cbn [u_kn]. unfold zeros2, zeros. rewrite length_replicate.
      split; [reflexivity|]. split; [|intros; lia].
      apply Forall_replicate. apply length_replicate.
    - intros k a0 a1 Hk (Hu & Hlen & Hdone).
      intros (l & Hl & Hrest)%bind_Ok_inv.
      apply bind_Ok_inv in Hrest as (chi_row & _ & Hrest).
      apply bind_Ok_inv in Hrest as (u_row & Hur & Hrest).
      apply bind_Ok_inv in Hrest as ([[n chi'] u'] & Hw & [= <-]).
      unfold index in Hl, Hur.
      destruct (ls !! k) as [l'|] eqn:Hlk; [|discriminate]. injection Hl as ->.
      destruct (u_kn a0 !! k) as [r|] eqn:Huk; [|discriminate]. injection Hur as ->.
      pose proof (proj1 (Forall_lookup _ _) Hlen _ _ Huk) as Hlu. cbv beta in Hlu.
      destruct (proj1 (Forall_lookup _ _) Hls _ _ Hlk) as [Hle HPe].
      unfold ingest_window_ts in Hw.
      apply bind_Ok_inv in Hw as ([chi1 n1] & _ & Hw).
      apply bind_Ok_inv in Hw as ([u1 m1] & Hre & Hw).
      apply bind_Ok_inv in Hw as (idx & _ & Hw).
      apply bind_Ok_inv in Hw as (u2 & Hu2 & Hw).
      apply bind_Ok_inv in Hw as (chi2 & _ & [= <- <- <-]).
      unfold read_energies in Hre.
      destruct (read_energies_overwrite (l_energies l) u_row 0 u1 m1 HPe (Forall_nil_2 _) Hre)
        as (HP1 & Hm1 & Hl1).
      rewrite take_ge in HP1 by lia.
      destruct (subsample_Ok P u1 idx u2 HP1 Hu2) as (HP2 & Hl2 & _).
      cbn [u_kn]. rewrite length_insert. split; [exact Hu|]. split.
      + apply Forall_insert; [exact Hlen | cbv beta; lia].
      + intros k' row Hk' Hrow. destruct (decide (k' = k)) as [->|Hne].
        * rewrite list_lookup_insert_eq in Hrow by lia. injection Hrow as <-. exact HP2.
        * rewrite list_lookup_insert_ne in Hrow by done. apply (Hdone k'); [lia | exact Hrow]. }
  destruct HI as (Hu & Hlen & Hdone). split; [exact Hu|].
  apply Forall_lookup. intros k row Hrow. split.
  - exact (proj1 (Forall_lookup _ _) Hlen _ _ Hrow).
  - apply (Hdone k); [|exact Hrow]. rewrite <- Hu. apply lookup_lt_Some in Hrow. exact Hrow.
Qed.

End FullWindows.

(** C10 as stated fails.  The temperatures differ, and every window has
    N_max = 501 data lines, as line 135 requires, with reduced energies that
    alternate between 1 and 2.  The subsampler finds no correlation and keeps
    every sample: no entry of the array is padding, and line 155 subtracts 1,
    not min(0, 1).  Whatever the subsampler answers, a run on these files
    that reaches line 155 subtracts a constant of at least 1, which is not
    min(0, e) for any e.
    In binary64 each shifted entry is rounded: in such a run on energies
    that repeat 0.1, 0.3 and -0.2, the difference of the first two entries of
    a row is not the same after line 155 as before. *)
Lemma rezero_constant_without_padding :
  (exists a,
     ingest_ts keep_all 1 true K N_max (replicate K alternating_window) = Ok a /\
     N_k a = replicate K N_max /\
     u_kn a = replicate K alternating_energies /\
     amin (u_kn a) = Ok 1%Q /\ ~ (1 == Qmin 0 1)%Q) /\
  (forall (ts : timeseries Q) (fuel : nat) (a : arrays Q) (m : Q),
     ingest_ts ts fuel true K N_max (replicate K alternating_window) = Ok a ->
     amin (u_kn a) = Ok m ->
     (1 <= m)%Q /\ forall e : Q, ~ (m == Qmin 0 e)%Q) /\
  (exists a u x y,
     ingest_ts keep_all 1 true K N_max (replicate K cycle_window) = Ok a /\
     get2 (u_kn a) 0 0 = Some 0x1.999999999999ap-4%float /\
     get2 (u_kn a) 0 1 = Some 0x1.3333333333333p-2%float /\
     rezero (u_kn a) = Ok u /\
     get2 u 0 0 = Some x /\ get2 u 0 1 = Some y /\
     PrimFloat.eqb (sub x y) (sub 0x1.999999999999ap-4 0x1.3333333333333p-2)%float = false).
Proof.
  split; [|split].
  - exists {| N_k := replicate K N_max;
              chi_kn := replicate K (replicate N_max 0%Q);
              u_kn := replicate K alternating_energies |}.
    split; [vm_compute; reflexivity|].
    split; [reflexivity|]. split; [reflexivity|].
    split; [vm_compute; reflexivity|].
    intros Heq; vm_compute in Heq; discriminate Heq.
  - intros ts fuel a m Hrun Hm.
    destruct (ingest_ts_full_energies (fun x => (1 <= x)%Q) ts fuel K N_max
                (replicate K alternating_window) a) as [Hlen HP];
      [|exact Hrun|].
    { apply Forall_replicate. split; [reflexivity|].
      unfold alternating_window, alternating_energies. cbn [l_energies].
      apply Forall_forall. intros x (n & -> & _)%list_elem_of_fmap.
      destruct (Nat.even n); [apply Qle_refl | discriminate]. }
    assert (Hge : (1 <= m)%Q).
    { destruct (amin_least (u_kn a)) as (m' & Hm' & Hin & _).
      - destruct (u_kn a) as [|row rows] eqn:Hu; [discriminate Hlen|].
        apply Forall_cons in HP as [[Hrl _] _].
        destruct row; [discriminate Hrl | discriminate].
      - assert (m' = m) by congruence. subst m'.
        apply list_elem_of_In, in_concat in Hin as (row & Hrow & Hx).
        apply list_elem_of_In in Hrow, Hx.
        rewrite Forall_forall in HP. destruct (HP row Hrow) as [_ HPr].
        rewrite Forall_forall in HPr. exact (HPr m Hx). }
    split; [exact Hge|]. intros e Heq.
    pose proof (Q.le_min_l 0 e) as Hmin. rewrite <- Heq in Hmin.
    apply (Qlt_irrefl 0). apply Qlt_le_trans with 1%Q; [reflexivity|].
    apply Qle_trans with m; assumption.
  - eexists _, _, _, _. split; [vm_compute; reflexivity|].
    repeat split; vm_compute; reflexivity.
Qed.

(** In binary64 each shifted entry is rounded.  With the entries 0.1, 0.3 and
    -0.2 (the binary64 numbers nearest to them) the shifted entries are
    0.30000000000000004, 0.5 and 0, and the difference of the first two
    changes in its last digit. *)
Example rezero_rounds_in_binary64 :
  exists x y,
    rezero [[0x1.999999999999ap-4; 0x1.3333333333333p-2; -0x1.999999999999ap-3]]%float
      = Ok [[x; y; 0%float]] /\
    PrimFloat.eqb (sub x y) (sub 0x1.999999999999ap-4 0x1.3333333333333p-2)%float = false.
Proof. eexists _, _. split; [vm_compute; reflexivity | reflexivity]. Qed.

(** ** The method loop *)

Lemma last_char_nonempty (s : string) : s <> EmptyString -> exists c, last_char s = Ok c.
Proof.
  induction s as [|a s IH]; intros Hne; [done|].
  destruct s as [|b s]; [exists a; reflexivity|].
  destruct IH as [c Hc]; [discriminate|]. exists c. exact Hc.
Qed.

Lemma spline_method_last_char (method : string) :
  is_spline_method method = true -> exists c, last_char method = Ok c.
Proof.
  intros Hs. apply last_char_nonempty. intros ->. discriminate Hs.
Qed.

Lemma spline_method_not_histogram (method : string) :
  is_spline_method method = true -> String.eqb method "histogram" = false.
Proof.
  intros Hs. destruct (String.eqb_spec method "histogram") as [->|]; [discriminate Hs | reflexivity].
Qed.

Lemma spline_method_not_kde (method : string) :
  is_spline_method method = true -> String.eqb method "kde" = false.
Proof.
  intros Hs. destruct (String.eqb_spec method "kde") as [->|]; [discriminate Hs | reflexivity].
Qed.

Lemma digit_range (c : ascii) :
  is_digit c = true -> (0 <= Z.of_nat (nat_of_ascii c - 48) <= 9)%Z.
Proof. unfold is_digit. intros [H1 H2]%andb_true_iff. apply Nat.leb_le in H1, H2. lia. Qed.

Lemma last_char_split (s : string) (c : ascii) :
  last_char s = Ok c -> exists s', s = (s' ++ String c "")%string.
Proof.
  induction s as [|a s IH]; [discriminate|].
  destruct s as [|b s].
  - intros [= <-]. exists ""%string. reflexivity.
  - intros Hc. destruct (IH Hc) as [s' Hs']. exists (String a s'). rewrite Hs'. reflexivity.
Qed.

Lemma last_char_append (s : string) (c : ascii) : last_char (s ++ String c "") = Ok c.
Proof.
  induction s as [|a s IH]; [reflexivity|].
  simpl. destruct (s ++ String c "")%string eqn:E; [|exact IH].
  destruct s; discriminate E.
Qed.

Lemma is_digit_codes (c : ascii) :
  is_digit c = true <-> (48 <= nat_of_ascii c <= 57)%nat.
Proof.
  unfold is_digit. rewrite andb_true_iff, !Nat.leb_le. reflexivity.
Qed.

Section MethodLoop.
Context {F : Type} `{Arith F}.
Variable getPMF_f_i : list (pmf_call F) -> list F.
Variable g : grid F.


Lemma fit_of_spline_method (method : string) (st : script_state F) :
  is_spline_method method = true -> fit getPMF_f_i g method st = fit_spline method st.
Proof.
  intros Hs. unfold fit.
  rewrite (spline_method_not_histogram _ Hs), (spline_method_not_kde _ Hs), Hs. reflexivity.
Qed.

Lemma fit_spline_digit (method : string) (st : script_state F) (c : ascii) :
  last_char method = Ok c -> is_digit c = true ->
  exists d,
    fit_spline method st =
      Ok {| f_i_kde := f_i_kde st; spline_parameters := Some d;
            pmf_calls := pmf_calls st ++ [GeneratePMF "spline" d] |} /\
    d !! "kdegree"%string = Some (VInt (Z.of_nat (nat_of_ascii c - 48))) /\
    d !! "yinit"%string = Some (VVec (yinit_of st)) /\
    d !! "xinit"%string = Some (VVec xstart) /\
    d !! "fkbias"%string = Some (VFuns (fkbias K)) /\
    d !! "spline_weights"%string = spline_weights_of method ∅ !! "spline_weights"%string.
Proof.
  intros Hc Hd. unfold fit_spline. rewrite Hc. simpl. unfold int_of_char. rewrite Hd. simpl.
  eexists. split; [reflexivity|]. repeat split; simplify_map_eq; reflexivity.
Qed.

Lemma fit_spline_not_digit (method : string) (st : script_state F) (c : ascii) :
  last_char method = Ok c -> is_digit c = false ->
  fit_spline method st = Raise ValueError.
Proof.
  intros Hc Hd. unfold fit_spline. rewrite Hc. simpl. unfold int_of_char. rewrite Hd. reflexivity.
Qed.


Lemma run_methods_app (pre post : list string) (st : script_state F) :
  run_methods getPMF_f_i g (pre ++ post) st =
    (st' ← run_methods getPMF_f_i g pre st; run_methods getPMF_f_i g post st').
Proof. apply for_each_app. Qed.

Lemma run_methods_cons (m : string) (ms : list string) (st : script_state F) :
  run_methods getPMF_f_i g (m :: ms) st =
    (st' ← run_method getPMF_f_i g m st; run_methods getPMF_f_i g ms st').
Proof. reflexivity. Qed.

(** C9. In the spline branch the degree handed to the fit is the value of
    the last character of the method name, a digit 0-9; when that character
    is an ASCII character other than a digit, line 251 raises ValueError
    before generatePMF is called, and the run ends there. *)
Theorem kdegree_is_last_character (method : string) (st : script_state F) :
  is_spline_method method = true ->
  exists (s : string) (c : ascii), method = (s ++ String c "")%string /\
    ((48 <= nat_of_ascii c <= 57)%nat ->
       exists d,
         fit getPMF_f_i g method st =
           Ok {| f_i_kde := f_i_kde st; spline_parameters := Some d;
                 pmf_calls := pmf_calls st ++ [GeneratePMF "spline" d] |} /\
         d !! "kdegree"%string = Some (VInt (Z.of_nat (nat_of_ascii c - 48))) /\
         (0 <= Z.of_nat (nat_of_ascii c - 48) <= 9)%Z) /\
    ((nat_of_ascii c < 48 \/ 57 < nat_of_ascii c < 128)%nat ->
       fit getPMF_f_i g method st = Raise ValueError /\
       forall pre post st0,
         run_methods getPMF_f_i g pre st0 = Ok st ->
         run_methods getPMF_f_i g (pre ++ method :: post) st0 = Raise ValueError).
Proof.
  intros Hs. destruct (spline_method_last_char method Hs) as [c Hc].
  destruct (last_char_split method c Hc) as [s Heq].
  exists s, c. split; [exact Heq|]. rewrite (fit_of_spline_method method st Hs). split.
  - intros Hd%is_digit_codes.
    destruct (fit_spline_digit method st c Hc Hd) as (d & Hfit & Hk & _ & _ & _ & _).
    exists d. split; [exact Hfit|]. split; [exact Hk|]. apply digit_range. exact Hd.
  - intros Hcode.
    assert (Hd : is_digit c = false).
    { destruct (is_digit c) eqn:E; [|reflexivity]. apply is_digit_codes in E. lia. }
    pose proof (fit_spline_not_digit method st c Hc Hd) as Hfit.
    split; [exact Hfit|]. intros pre post st0 Hpre.
    rewrite run_methods_app, Hpre. simpl. rewrite run_methods_cons.
    unfold run_method. rewrite (fit_of_spline_method method st Hs), Hfit. reflexivity.
Qed.

Lemma run_method_keeps_f_i_kde (m : string) (st st' : script_state F) :
  m <> "kde"%string -> run_method getPMF_f_i g m st = Ok st' -> f_i_kde st' = f_i_kde st.
Proof.
  intros Hm. unfold run_method, fit, report.
  destruct (String.eqb_spec m "kde") as [->|_]; [done|].
  destruct (colors !! m); [|destruct (is_spline_method m);
    [destruct (fit_spline m _); simpl; discriminate
    | destruct (String.eqb m "histogram"); simpl; discriminate]].
  destruct (is_spline_method m).
  - unfold fit_spline. destruct (last_char m) as [c| |]; simpl; try discriminate.
    destruct (int_of_char c); simpl; try discriminate.
    intros [= <-]. simpl. destruct (String.eqb m "histogram"); reflexivity.
  - simpl. intros [= <-]. simpl. destruct (String.eqb m "histogram"); reflexivity.
Qed.

Lemma run_methods_keep_f_i_kde (ms : list string) :
  forall st st' : script_state F,
    "kde"%string ∉ ms -> run_methods getPMF_f_i g ms st = Ok st' ->
    f_i_kde st' = f_i_kde st.
Proof.
  induction ms as [|m ms IH]; intros st st' Hnot Hrun.
  - injection Hrun as <-. reflexivity.
  - rewrite run_methods_cons in Hrun.
    destruct (run_method getPMF_f_i g m st) as [st1| |] eqn:H1; simpl in Hrun; try discriminate.
    apply not_elem_of_cons in Hnot as [Hne Hnot].
    rewrite (IH st1 st' Hnot Hrun).
    apply (run_method_keeps_f_i_kde m); [congruence | exact H1].
Qed.

Lemma run_method_kde (st st' : script_state F) :
  run_method getPMF_f_i g "kde" st = Ok st' ->
  f_i_kde st' =
    Some (getPMF_f_i (pmf_calls st ++
            [GeneratePMF "kde" kde_parameters; GetPMF xstart "from-lowest"])).
Proof.
  unfold run_method, fit, report.
  change (String.eqb "kde" "histogram") with false.
  change (String.eqb "kde" "kde") with true.
  change (is_spline_method "kde") with false.
  cbn [mbind res_bind].
  replace (colors !! "kde"%string) with (Some "k-"%string) by (vm_compute; reflexivity).
  intros [= <-]. unfold fit_kde, call. cbn [f_i_kde pmf_calls].
  rewrite <- app_assoc. reflexivity.
Qed.

(** C8. A spline method that runs with no 'kde' before it in the list starts
    from the zero vector of length 2*nsplines; with a 'kde' before it, from
    the profile that getPMF returned for xstart, 'from-lowest', right after
    the latest KDE fit. *)
Theorem yinit_falls_back_to_zeros (pre : list string) (method : string)
    (st : script_state F) (c : ascii) :
  run_methods getPMF_f_i g pre initial_state = Ok st ->
  is_spline_method method = true -> last_char method = Ok c -> is_digit c = true ->
  exists d,
    fit getPMF_f_i g method st =
      Ok {| f_i_kde := f_i_kde st; spline_parameters := Some d;
            pmf_calls := pmf_calls st ++ [GeneratePMF "spline" d] |} /\
    d !! "xinit"%string = Some (VVec (linspace chi_min chi_max (2 * nsplines))) /\
    ("kde"%string ∉ pre -> d !! "yinit"%string = Some (VVec (zeros (2 * nsplines)))) /\
    (forall p1 p2 s1,
       pre = p1 ++ "kde"%string :: p2 -> "kde"%string ∉ p2 ->
       run_methods getPMF_f_i g p1 initial_state = Ok s1 ->
       d !! "yinit"%string =
         Some (VVec (getPMF_f_i (pmf_calls s1 ++
                 [GeneratePMF "kde" kde_parameters;
                  GetPMF (linspace chi_min chi_max (2 * nsplines)) "from-lowest"])))).
Proof.
  intros Hpre Hs Hc Hd.
  destruct (fit_spline_digit method st c Hc Hd) as (d & Hfit & _ & Hy & Hx & _ & _).
  exists d. rewrite (fit_of_spline_method method st Hs).
  split; [exact Hfit|]. split; [exact Hx|]. split.
  - intros Hnot. rewrite Hy. unfold yinit_of.
    rewrite (run_methods_keep_f_i_kde pre _ _ Hnot Hpre).
    change (f_i_kde initial_state) with (@None (list F)). cbv beta iota.
    unfold xstart. rewrite linspace_length. reflexivity.
  - intros p1 p2 s1 -> Hnot H1. rewrite Hy. unfold yinit_of.
    rewrite run_methods_app, H1 in Hpre. simpl in Hpre.
    rewrite run_methods_cons in Hpre.
    destruct (run_method getPMF_f_i g "kde" s1) as [s2| |] eqn:H2; simpl in Hpre;
      try discriminate.
    rewrite (run_methods_keep_f_i_kde p2 _ _ Hnot Hpre), (run_method_kde _ _ H2).
    reflexivity.
Qed.

Lemma last_spline_fit_snoc (calls : list (pmf_call F)) (c : pmf_call F) :
  last_spline_fit (calls ++ [c]) =
    match c with
    | GeneratePMF ty d => if String.eqb ty "spline" then Some d else last_spline_fit calls
    | _ => last_spline_fit calls
    end.
Proof. unfold last_spline_fit. rewrite foldl_app. reflexivity. Qed.

Lemma run_method_last_spline (m : string) (st st' : script_state F) :
  spline_parameters st = last_spline_fit (pmf_calls st) ->
  run_method getPMF_f_i g m st = Ok st' ->
  spline_parameters st' = last_spline_fit (pmf_calls st').
Proof.
  intros Hinv. unfold run_method.
  destruct (fit getPMF_f_i g m st) as [st1| |] eqn:Hfit; simpl; try discriminate.
  assert (H1 : spline_parameters st1 = last_spline_fit (pmf_calls st1)).
  { revert Hfit. unfold fit.
    set (sa := if String.eqb m "histogram" then fit_histogram g st else st).
    assert (Ha : spline_parameters sa = last_spline_fit (pmf_calls sa)).
    { unfold sa. destruct (String.eqb m "histogram"); [|exact Hinv].
      simpl. rewrite last_spline_fit_snoc. exact Hinv. }
    set (sb := if String.eqb m "kde" then fit_kde getPMF_f_i sa else sa).
    assert (Hb : spline_parameters sb = last_spline_fit (pmf_calls sb)).
    { unfold sb. destruct (String.eqb m "kde"); [|exact Ha].
      simpl. rewrite !last_spline_fit_snoc. exact Ha. }
    destruct (is_spline_method m); [|intros [= <-]; exact Hb].
    unfold fit_spline. destruct (last_char m) as [c| |]; simpl; try discriminate.
    destruct (int_of_char c); simpl; try discriminate.
    intros [= <-]. simpl. rewrite last_spline_fit_snoc. reflexivity. }
  unfold report. destruct (colors !! m); [|discriminate].
  intros [= <-]. simpl. rewrite !last_spline_fit_snoc. exact H1.
Qed.

Lemma run_methods_last_spline (ms : list string) :
  forall st st' : script_state F,
    spline_parameters st = last_spline_fit (pmf_calls st) ->
    run_methods getPMF_f_i g ms st = Ok st' ->
    spline_parameters st' = last_spline_fit (pmf_calls st').
Proof.
  induction ms as [|m ms IH]; intros st st' Hinv Hrun.
  - injection Hrun as <-. exact Hinv.
  - rewrite run_methods_cons in Hrun.
    destruct (run_method getPMF_f_i g m st) as [st1| |] eqn:H1; simpl in Hrun; try discriminate.
    apply (IH st1 st' (run_method_last_spline m st st1 Hinv H1) Hrun).
Qed.

(** C4. The dictionary handed to SampleDistribution is the one of the latest
    spline fit of the loop, whatever the method list; with the configured
    list ['kde', 'simple-3'] it has spline_weights 'simplesum' and kdegree 3. *)
Theorem sampler_uses_last_spline_parameters :
  (forall (ms : list string) (st : script_state F),
     run_methods getPMF_f_i g ms initial_state = Ok st ->
     script_tail getPMF_f_i g ms =
       match last_spline_fit (pmf_calls st) with
       | Some d => Ok (call (SampleDistribution "spline" d) st)
       | None => Raise NameError
       end) /\
  exists st d,
    run_methods getPMF_f_i g methods initial_state = Ok st /\
    last_spline_fit (pmf_calls st) = Some d /\
    script_tail getPMF_f_i g methods = Ok (call (SampleDistribution "spline" d) st) /\
    d !! "spline_weights"%string = Some (VStr "simplesum") /\
    d !! "kdegree"%string = Some (VInt 3).
Proof.
  assert (Hgen : forall (ms : list string) (st : script_state F),
     run_methods getPMF_f_i g ms initial_state = Ok st ->
     script_tail getPMF_f_i g ms =
       match last_spline_fit (pmf_calls st) with
       | Some d => Ok (call (SampleDistribution "spline" d) st)
       | None => Raise NameError
       end).
  { intros ms st Hrun. unfold script_tail. rewrite Hrun. simpl. unfold sample_posterior.
    rewrite (run_methods_last_spline ms initial_state st eq_refl Hrun). reflexivity. }
  split; [exact Hgen|].
  assert (Hrun : exists st d,
            run_methods getPMF_f_i g methods initial_state = Ok st /\
            spline_parameters st = Some d /\
            d !! "spline_weights"%string = Some (VStr "simplesum") /\
            d !! "kdegree"%string = Some (VInt 3)).
  { unfold methods. rewrite run_methods_cons.
    set (st1 := call (GetPMF (xplot g) "from-lowest")
                  (call (GetPMF (bin_center_i g) "from-lowest")
                     (fit_kde getPMF_f_i initial_state))).
    assert (H1 : run_method getPMF_f_i g "kde" initial_state = Ok st1).
    { unfold run_method, fit, report.
      change (String.eqb "kde" "histogram") with false.
      change (String.eqb "kde" "kde") with true.
      change (is_spline_method "kde") with false.
      cbn [mbind res_bind].
      replace (colors !! "kde"%string) with (Some "k-"%string) by (vm_compute; reflexivity).
      reflexivity. }
    rewrite H1. clearbody st1. clear H1. cbn [mbind res_bind].
    destruct (fit_spline_digit "simple-3" st1 "3"%char eq_refl eq_refl)
      as (d & Hfit & Hk & _ & _ & _ & Hw).
    rewrite run_methods_cons. unfold run_method. rewrite (fit_of_spline_method "simple-3" st1 eq_refl), Hfit.
    cbn [mbind res_bind]. unfold report.
    replace (colors !! "simple-3"%string) with (Some "m-."%string) by (vm_compute; reflexivity).
    cbn [for_each]. eexists _, d. split; [reflexivity|]. split; [reflexivity|].
    split; [rewrite Hw; vm_compute; reflexivity | exact Hk]. }
  destruct Hrun as (st & d & Hrun & Hsp & Hw & Hk).
  pose proof (Hgen methods st Hrun) as Htail.
  pose proof (run_methods_last_spline methods initial_state st eq_refl Hrun) as Hinv.
  rewrite <- Hinv, Hsp in Htail.
  exists st, d. rewrite <- Hinv. auto.
Qed.

End MethodLoop.

Lemma kdegree_is_last_character_witness :
  (exists d,
     fit demo_profile demo_grid "sumkl-5" initial_state =
       Ok {| f_i_kde := None; spline_parameters := Some d;
             pmf_calls := [] ++ [GeneratePMF "spline" d] |} /\
     d !! "kdegree"%string = Some (VInt 5)) /\
  fit demo_profile demo_grid "kl-x" initial_state = Raise ValueError.
Proof.
  split.
  - destruct (kdegree_is_last_character demo_profile demo_grid "sumkl-5" initial_state eq_refl)
      as (s & c & Heq & Hdigit & _).
    assert (Hc : c = "5"%char).
    { pose proof (last_char_append s c) as Hl. rewrite <- Heq in Hl.
      vm_compute in Hl. injection Hl as <-. reflexivity. }
    subst c. destruct Hdigit as (d & Hfit & Hk & _); [vm_compute; lia|].
    exists d. split; [exact Hfit | exact Hk].
  - destruct (kdegree_is_last_character demo_profile demo_grid "kl-x" initial_state eq_refl)
      as (s & c & Heq & _ & Hother).
    assert (Hc : c = "x"%char).
    { pose proof (last_char_append s c) as Hl. rewrite <- Heq in Hl.
      vm_compute in Hl. injection Hl as <-. reflexivity. }
    subst c. destruct Hother as [Hfit _]; [right; vm_compute; lia|]. exact Hfit.
Defined.

(** A method name that ends in a letter stops the run at line 251. *)
Example kl_x_raises :
  script_tail demo_profile demo_grid ["kde"; "kl-x"; "simple-3"]%string = Raise ValueError.
Proof. vm_compute. reflexivity. Qed.

Lemma yinit_falls_back_to_zeros_witness :
  (exists d,
     fit demo_profile demo_grid "simple-3" initial_state =
       Ok {| f_i_kde := None; spline_parameters := Some d;
             pmf_calls := [] ++ [GeneratePMF "spline" d] |} /\
     d !! "yinit"%string = Some (VVec (zeros (2 * nsplines)))) /\
  (exists st d,
     run_methods demo_profile demo_grid ["kde"%string] initial_state = Ok st /\
     fit demo_profile demo_grid "simple-3" st =
       Ok {| f_i_kde := f_i_kde st; spline_parameters := Some d;
             pmf_calls := pmf_calls st ++ [GeneratePMF "spline" d] |} /\
     d !! "yinit"%string =
       Some (VVec (demo_profile
               [GeneratePMF "kde" kde_parameters;
                GetPMF (linspace chi_min chi_max (2 * nsplines)) "from-lowest"]))).
Proof.
  split.
  - destruct (yinit_falls_back_to_zeros demo_profile demo_grid [] "simple-3"
                initial_state "3"%char) as (d & Hfit & _ & Hzero & _);
      [reflexivity ..|].
    exists d. split; [exact Hfit|]. apply Hzero. apply not_elem_of_nil.
  - destruct (run_methods demo_profile demo_grid ["kde"%string] initial_state)
      as [st| |] eqn:Hrun; [| vm_compute in Hrun; discriminate Hrun ..].
    destruct (yinit_falls_back_to_zeros demo_profile demo_grid ["kde"%string] "simple-3"
                st "3"%char) as (d & Hfit & _ & _ & Hkde);
      [exact Hrun | reflexivity ..|].
    exists st, d. split; [reflexivity|]. split; [exact Hfit|].
    apply (Hkde [] [] initial_state); [reflexivity | apply not_elem_of_nil | reflexivity].
Defined.

Lemma sampler_uses_last_spline_parameters_witness :
  exists st,
    run_methods demo_profile demo_grid ["kl-1"; "histogram"]%string initial_state = Ok st /\
    script_tail demo_profile demo_grid ["kl-1"; "histogram"]%string =
      match last_spline_fit (pmf_calls st) with
      | Some d => Ok (call (SampleDistribution "spline" d) st)
      | None => Raise NameError
      end.
Proof.
  destruct (run_methods demo_profile demo_grid ["kl-1"; "histogram"]%string initial_state)
    as [st| |] eqn:Hrun; [| vm_compute in Hrun; discriminate Hrun ..].
  exists st. split; [reflexivity|].
  apply (proj1 (sampler_uses_last_spline_parameters demo_profile demo_grid)). exact Hrun.
Defined.

(** * Further properties *)

(** ** Loops that raise *)

Lemma for_each_raise {X S} (xs ys : list X) (x : X) (body : X -> S -> res S)
    (s s1 : S) (e : exn) :
  for_each xs body s = Ok s1 -> body x s1 = Raise e ->
  for_each (xs ++ x :: ys) body s = Raise e.
Proof.
  intros Hxs Hx. rewrite for_each_app, Hxs. simpl. rewrite Hx. reflexivity.
Qed.

Lemma for_range_raise {S} (n k : nat) (body : nat -> S -> res S) (s0 s : S) (e : exn) :
  (k < n)%nat -> for_range k body s0 = Ok s -> body k s = Raise e ->
  for_range n body s0 = Raise e.
Proof.
  intros Hk Hpre Hbody. unfold for_range in *.
  replace n with (k + Datatypes.S (n - k - 1))%nat by lia.
  rewrite seq_app. cbn [seq]. apply for_each_raise with (s1 := s); assumption.
Qed.

(** ** The wrap: whole turns *)

Section WrapTurnsExact.
Open Scope Q_scope.

Lemma wrap_up_turns (fuel : nat) :
  forall chi c : Q, wrap_up fuel chi = Ok c ->
    -180 <= c /\ exists j : Z, c == chi + 360 * inject_Z j.
Proof.
  induction fuel as [|fuel IH]; intros chi c; [discriminate|].
  cbn [wrap_up]. destruct (ltb chi (lit (-180))) eqn:E.
  - intros Hc. destruct (IH _ _ Hc) as [Hge [j Hj]]. split; [exact Hge|].
    exists (j + 1)%Z. rewrite Hj, inject_Z_plus.
    change (inject_Z 1) with 1. change (add chi (lit 360)) with (chi + 360). ring.
  - apply (ltb_Q_false chi (-180)) in E. intros [= <-]. split; [exact E|].
    exists 0%Z. change (inject_Z 0) with 0. ring.
Qed.

Lemma wrap_down_turns (fuel : nat) :
  forall chi c : Q, wrap_down fuel chi = Ok c -> -180 <= chi ->
    (-180 <= c /\ c < 180) /\ exists j : Z, c == chi + 360 * inject_Z j.
Proof.
  induction fuel as [|fuel IH]; intros chi c; [discriminate|].
  cbn [wrap_down]. destruct (leb (lit 180) chi) eqn:E.
  - apply (leb_Q_true 180 chi) in E. intros Hc Hge.
    destruct (IH _ _ Hc) as [Hcan [j Hj]]; [change (-180 <= chi - 360); lra|].
    split; [exact Hcan|].
    exists (j + Z.neg 1)%Z. rewrite Hj, inject_Z_plus.
    change (inject_Z (Z.neg 1)) with (-1). change (sub chi (lit 360)) with (chi - 360). ring.
  - apply (leb_Q_false 180 chi) in E. intros [= <-] Hge. split; [split; assumption|].
    exists 0%Z. change (inject_Z 0) with 0. ring.
Qed.

(** X1. Whenever the wrap of lines 106-109 exits, the value it stores lies
    in [-180, 180), differs from the value read by a whole number of turns of
    360, and is the value read itself if that was already in [-180, 180). *)
Theorem wrap_stores_same_angle (fuel : nat) (chi c : Q) :
  wrap_chi fuel chi = Ok c ->
  (-180 <= c /\ c < 180) /\
  (exists j : Z, c == chi + 360 * inject_Z j) /\
  (-180 <= chi /\ chi < 180 -> c = chi).
Proof.
  unfold wrap_chi. destruct (wrap_up fuel chi) as [c1| |] eqn:H1; simpl; try discriminate.
  intros H2. destruct (wrap_up_turns _ _ _ H1) as [Hge [j1 Hj1]].
  destruct (wrap_down_turns _ _ _ H2 Hge) as [Hcan [j2 Hj2]].
  split; [exact Hcan|]. split.
  - exists (j1 + j2)%Z. rewrite Hj2, Hj1, inject_Z_plus. ring.
  - intros [Hlo Hhi]. destruct fuel as [|fuel]; [discriminate|].
    assert (E1 : ltb chi (lit (-180)) = false) by (apply (ltb_Q_false chi (-180)); exact Hlo).
    assert (E2 : leb (lit 180) chi = false) by (apply (leb_Q_false 180 chi); exact Hhi).
    cbn [wrap_up] in H1. rewrite E1 in H1. injection H1 as <-.
    cbn [wrap_down] in H2. rewrite E2 in H2. injection H2 as <-. reflexivity.
Qed.

End WrapTurnsExact.

Lemma wrap_stores_same_angle_witness :
  ((-180 <= 179 /\ 179 < 180) /\
   (exists j : Z, 179 == -541 + 360 * inject_Z j) /\
   (-180 <= -541 /\ -541 < 180 -> 179 = -541))%Q.
Proof. apply (wrap_stores_same_angle 4 (-541)%Q 179%Q). reflexivity. Defined.

(** ** Ingestion: what the arrays hold *)

Section IngestExact.
Context {F : Type} `{Arith F}.

Lemma store_out_of_range {A} (a : list A) (n : nat) (x : A) :
  (length a <= n)%nat -> store a n x = Raise IndexError.
Proof. unfold store. intros Hn. destruct (decide (n < length a)%nat); [lia | reflexivity]. Qed.


Lemma wrapped_values (fuel : nat) (ts : list F) :
  Forall (fun chi => returns (wrap_chi fuel chi)) ts ->
  exists cs, Forall2 (fun chi c => wrap_chi fuel chi = Ok c) ts cs.
Proof.
  induction 1 as [|chi ts [c Hc] _ [cs IH]]; [exists []; constructor|].
  exists (c :: cs). constructor; assumption.
Qed.

Lemma read_torsions_exact (fuel : nat) (ts cs : list F) :
  Forall2 (fun chi c => wrap_chi fuel chi = Ok c) ts cs ->
  forall (row : list F) (n0 : nat),
    (n0 + length ts <= length row)%nat ->
    for_each ts
      (fun chi '(row, n) =>
         c ← wrap_chi fuel chi; row' ← store row n c; Ok (row', S n))
      (row, n0)
    = Ok (take n0 row ++ cs ++ drop (n0 + length ts) row, (n0 + length ts)%nat).
Proof.
  induction 1 as [|chi c ts cs Hc _ IH]; intros row n0 Hlen.
  - simpl. rewrite Nat.add_0_r, take_drop. reflexivity.
  - simpl in Hlen. cbn [for_each]. rewrite Hc. simpl. rewrite store_Ok by lia. simpl.
    rewrite IH by (rewrite length_insert; lia).
    assert (Hn0 : <[n0 := c]> row !! n0 = Some c) by (apply list_lookup_insert_eq; lia).
    rewrite (take_S_r _ _ _ Hn0), take_insert_ge by lia.
    rewrite drop_insert_lt by lia. rewrite <- app_assoc.
    replace (Datatypes.S n0 + length ts)%nat with (n0 + Datatypes.S (length ts))%nat by lia.
    reflexivity.
Qed.

Lemma read_energies_exact (es : list F) :
  forall (row : list F) (n0 : nat),
    (n0 + length es <= length row)%nat ->
    for_each es
      (fun u '(row, n) => row' ← store row n u; Ok (row', S n))
      (row, n0)
    = Ok (take n0 row ++ es ++ drop (n0 + length es) row, (n0 + length es)%nat).
Proof.
  induction es as [|e es IH]; intros row n0 Hlen.
  - simpl. rewrite Nat.add_0_r, take_drop. reflexivity.
  - simpl in Hlen. cbn [for_each]. rewrite store_Ok by lia. simpl.
    rewrite IH by (rewrite length_insert; lia).
    assert (Hn0 : <[n0 := e]> row !! n0 = Some e) by (apply list_lookup_insert_eq; lia).
    rewrite (take_S_r _ _ _ Hn0), take_insert_ge by lia.
    rewrite drop_insert_lt by lia. rewrite <- app_assoc.
    replace (Datatypes.S n0 + length es)%nat with (n0 + Datatypes.S (length es))%nat by lia.
    reflexivity.
Qed.

Lemma row_read_zeros (Nmax : nat) (vals : list F) :
  (length vals <= Nmax)%nat ->
  take 0 (zeros Nmax) ++ vals ++ drop (0 + length vals) (zeros Nmax) = row_read Nmax vals.
Proof.
  intros Hlen. unfold row_read, zeros. simpl. rewrite drop_replicate. reflexivity.
Qed.

Lemma row_read_length (Nmax : nat) (vals : list F) :
  (length vals <= Nmax)%nat -> length (row_read Nmax vals) = Nmax.
Proof.
  intros Hlen. unfold row_read, zeros. rewrite length_app, length_replicate. lia.
Qed.

Lemma pick_exact (row : list F) (idx : list nat) :
  Forall (fun i => (i < length row)%nat) idx ->
  forall acc : list F,
    exists vals,
      for_each idx (fun i acc => x ← index row i; Ok (acc ++ [x])) acc = Ok (acc ++ vals)
      /\ Forall2 (fun i x => row !! i = Some x) idx vals.
Proof.
  induction 1 as [|i idx Hi _ IH]; intros acc.
  - exists []. simpl. rewrite app_nil_r. split; [reflexivity | constructor].
  - destruct (lookup_lt_is_Some_2 row i Hi) as [x Hx].
    cbn [for_each]. rewrite (index_Ok _ _ _ Hx). simpl.
    destruct (IH (acc ++ [x])) as (vals & Hrun & Hvals).
    exists (x :: vals). rewrite Hrun, <- app_assoc. split; [reflexivity|].
    constructor; assumption.
Qed.

Lemma subsample_exact (row : list F) (idx : list nat) :
  Forall (fun i => (i < length row)%nat) idx -> (length idx <= length row)%nat ->
  exists row', subsample row idx = Ok row' /\ length row' = length row /\
    forall n, row' !! n = match idx !! n with
                          | Some i => row !! i
                          | None => row !! n
                          end.
Proof.
  intros Hidx Hlen. unfold subsample, pick.
  destruct (pick_exact row idx Hidx []) as (vals & Hrun & Hvals).
  rewrite Hrun. simpl. destruct (decide _) as [_|Hn]; [|lia].
  pose proof (Forall2_length _ _ _ Hvals) as Hl.
  eexists. split; [reflexivity|]. split.
  - rewrite length_app, length_drop. lia.
  - intros n. destruct (idx !! n) as [i|] eqn:Hi.
    + destruct (Forall2_lookup_l _ _ _ _ _ Hvals Hi) as (x & Hx & Hrow).
      rewrite lookup_app_l by (apply lookup_lt_Some in Hx; lia). congruence.
    + apply lookup_ge_None in Hi. rewrite lookup_app_r by lia.
      rewrite lookup_drop. f_equal. lia.
Qed.

Lemma ingest_window_exact (fuel : nat) (dt : bool) (Nmax : nat) (w : window_data F)
    (cs : list F) :
  fits Nmax w ->
  Forall2 (fun chi c => wrap_chi fuel chi = Ok c) (torsions w) cs ->
  exists chi_row u_row,
    ingest_window fuel dt w (zeros Nmax) (zeros Nmax)
      = Ok (length (indices w), chi_row, u_row) /\
    length chi_row = Nmax /\ length u_row = Nmax /\
    (forall n, chi_row !! n = match indices w !! n with
                              | Some i => row_read Nmax cs !! i
                              | None => row_read Nmax cs !! n
                              end) /\
    (forall n, u_row !! n =
       match indices w !! n with
       | Some i => row_read Nmax (if dt then energies w else []) !! i
       | None => row_read Nmax (if dt then energies w else []) !! n
       end).
Proof.
  intros (Ht & He & Hi & Hidx) Hcs.
  pose proof (Forall2_length _ _ _ Hcs) as Hlcs.
  assert (Hz : length (zeros (F := F) Nmax) = Nmax) by apply length_replicate.
  unfold ingest_window, read_torsions.
  rewrite (read_torsions_exact fuel _ _ Hcs) by (rewrite Hz; simpl; lia).
  rewrite Hlcs, row_read_zeros by lia. simpl.
  assert (Hu1 : exists n1,
             (if dt then read_energies (energies w) (zeros Nmax) else Ok (zeros Nmax, 0%nat))
             = Ok (row_read Nmax (if dt then energies w else []), n1)).
  { destruct dt.
    - unfold read_energies. rewrite read_energies_exact by (rewrite Hz; simpl; lia).
      rewrite row_read_zeros by lia. eauto.
    - exists 0%nat. unfold row_read. simpl. rewrite Nat.sub_0_r. reflexivity. }
  destruct Hu1 as (n1 & ->). simpl.
  assert (Hlu : length (row_read Nmax (if dt then energies w else [])) = Nmax).
  { apply row_read_length. destruct dt; simpl; lia. }
  assert (Hlc : length (row_read Nmax cs) = Nmax) by (apply row_read_length; lia).
  destruct (subsample_exact (row_read Nmax (if dt then energies w else [])) (indices w))
    as (u2 & Hr3 & Hl3 & Hu2); [rewrite Hlu; exact Hidx | lia |].
  rewrite Hr3. simpl.
  destruct (subsample_exact (row_read Nmax cs) (indices w))
    as (chi2 & Hr4 & Hl4 & Hc2); [rewrite Hlc; exact Hidx | lia |].
  rewrite Hr4. simpl. exists chi2, u2. repeat split; auto; lia.
Qed.

Lemma ingest_prefix (fuel : nat) (dt : bool) (K Nmax : nat) (ws : list (window_data F))
    (m : nat) :
  (m <= K)%nat -> (m <= length ws)%nat ->
  Forall (fits Nmax) (take m ws) -> wraps_within fuel (take m ws) ->
  exists a,
    for_range m
      (fun k a =>
         w ← index ws k;
         chi_row ← index (chi_kn a) k;
         u_row ← index (u_kn a) k;
         '(n, chi_row', u_row') ← ingest_window fuel dt w chi_row u_row;
         Ok {| N_k := <[k := n]> (N_k a);
               chi_kn := <[k := chi_row']> (chi_kn a);
               u_kn := <[k := u_row']> (u_kn a) |})
      {| N_k := replicate K O; chi_kn := zeros2 K Nmax; u_kn := zeros2 K Nmax |} = Ok a /\
    ingested fuel dt K Nmax ws m a.
Proof.
  intros HmK Hmws Hfits Hwraps.
  apply for_range_inv.
  - unfold ingested. simpl. unfold zeros2. rewrite !length_replicate.
    repeat split; auto.
    + apply lookup_replicate_2. lia.
    + apply lookup_replicate_2. lia.
    + intros; lia.
  - intros k a Hk (HN & Hc & Hu & Hrest & Hdone).
    destruct (lookup_lt_is_Some_2 ws k) as [w Hw]; [lia|].
    assert (Hwk : take m ws !! k = Some w) by (rewrite lookup_take_lt by lia; exact Hw).
    pose proof (proj1 (Forall_lookup _ _) Hfits _ _ Hwk) as Hfit.
    pose proof (proj1 (Forall_lookup _ _) Hwraps _ _ Hwk) as Hwrap.
    destruct (wrapped_values fuel _ Hwrap) as [cs Hcs].
    destruct (Hrest k) as [Hck Huk]; [lia|].
    destruct (ingest_window_exact fuel dt Nmax w cs Hfit Hcs)
      as (chi' & u' & Hrun & Hlc & Hlu & Hchi & Hukn).
    rewrite (index_Ok _ _ _ Hw). simpl.
    rewrite (index_Ok _ _ _ Hck). simpl. rewrite (index_Ok _ _ _ Huk). simpl.
    rewrite Hrun. simpl. eexists. split; [reflexivity|].
    unfold ingested. simpl. rewrite !length_insert. repeat split; auto.
    + rewrite list_lookup_insert_ne by lia. apply Hrest. lia.
    + rewrite list_lookup_insert_ne by lia. apply Hrest. lia.
    + intros k' w' Hk' Hw'. destruct (decide (k' = k)) as [->|Hne].
      * assert (w' = w) by congruence. subst w'.
        exists cs, chi', u'. rewrite !list_lookup_insert_eq by lia. repeat split; auto.
      * rewrite !list_lookup_insert_ne by done. apply Hdone; [lia | exact Hw'].
Qed.

Lemma ingest_exact (fuel : nat) (dt : bool) (K Nmax : nat) (ws : list (window_data F)) :
  length ws = K -> Forall (fits Nmax) ws -> wraps_within fuel ws ->
  exists a, ingest fuel dt K Nmax ws = Ok a /\ ingested fuel dt K Nmax ws K a.
Proof.
  intros Hws Hfits Hwraps. unfold ingest.
  apply ingest_prefix; try lia; rewrite firstn_all2 by lia; assumption.
Qed.

(** X2. Ingestion keeps the samples the subsampler chose, in its order:
    N_k[k] is the number of indices, and for n < N_k[k] the entry chi_kn[k][n]
    is the wrapped torsion of data line indices[n], and u_kn[k][n] is the
    energy of that line when energies are read, and 0 when they are not. *)
Theorem ingest_keeps_chosen_samples (fuel : nat) (dt : bool) (K Nmax : nat)
    (ws : list (window_data F)) :
  length ws = K -> Forall (fits Nmax) ws -> wraps_within fuel ws ->
  exists a, ingest fuel dt K Nmax ws = Ok a /\
    forall k w, ws !! k = Some w ->
      N_k a !! k = Some (length (indices w)) /\
      forall n i, indices w !! n = Some i ->
        (forall chi, torsions w !! i = Some chi ->
           exists c, wrap_chi fuel chi = Ok c /\ get2 (chi_kn a) k n = Some c) /\
        (forall e, dt = true -> energies w !! i = Some e ->
           get2 (u_kn a) k n = Some e) /\
        (dt = false -> get2 (u_kn a) k n = Some (lit 0)).
Proof.
  intros Hws Hfits Hwraps.
  destruct (ingest_exact fuel dt K Nmax ws Hws Hfits Hwraps) as (a & Hrun & Ha).
  exists a. split; [exact Hrun|]. intros k w Hw.
  destruct Ha as (_ & _ & _ & _ & Hdone).
  destruct (Hdone k w) as (cs & chi_row & u_row & Hcs & HNk & Hc & Hu & _ & _ & Hchi & Hukn).
  { apply lookup_lt_Some in Hw. lia. } { exact Hw. }
  split; [exact HNk|]. intros n i Hi.
  pose proof (proj1 (Forall_lookup _ _) Hfits _ _ Hw) as (_ & _ & _ & Hidx).
  pose proof (proj1 (Forall_lookup _ _) Hidx _ _ Hi) as HiN.
  unfold get2. rewrite Hc, Hu. simpl. rewrite Hchi, Hukn, Hi. unfold row_read.
  split; [|split].
  - intros chi Hchi_i. destruct (Forall2_lookup_l _ _ _ _ _ Hcs Hchi_i) as (c & Hci & Hwrap).
    exists c. split; [exact Hwrap|]. apply lookup_app_l_Some. exact Hci.
  - intros e -> He. apply lookup_app_l_Some. exact He.
  - intros ->. simpl. rewrite Nat.sub_0_r. apply lookup_replicate_2. exact HiN.
Qed.

Lemma read_torsions_overflow (fuel : nat) (ts : list F) :
  Forall (fun chi => returns (wrap_chi fuel chi)) ts ->
  forall (row : list F) (n0 : nat),
    (n0 <= length row)%nat -> (length row < n0 + length ts)%nat ->
    for_each ts
      (fun chi '(row, n) =>
         c ← wrap_chi fuel chi; row' ← store row n c; Ok (row', S n))
      (row, n0) = Raise IndexError.
Proof.
  induction 1 as [|chi ts [c Hc] _ IH]; intros row n0 Hn0 Hlen; [simpl in Hlen; lia|].
  simpl in Hlen. cbn [for_each]. rewrite Hc. simpl.
  destruct (decide (n0 < length row)%nat) as [Hn|Hn].
  - rewrite store_Ok by exact Hn. simpl. apply IH; rewrite length_insert; lia.
  - rewrite store_out_of_range by lia. reflexivity.
Qed.

(** X3. A dihedral file with more data lines than the arrays have columns
    stops the run with IndexError (line 110), whatever the other files hold
    after it. *)
Theorem too_many_data_lines_raise (fuel : nat) (dt : bool) (K Nmax k : nat)
    (ws : list (window_data F)) (w : window_data F) :
  (k < K)%nat -> ws !! k = Some w ->
  Forall (fits Nmax) (take k ws) -> wraps_within fuel (take (S k) ws) ->
  (Nmax < length (torsions w))%nat ->
  ingest fuel dt K Nmax ws = Raise IndexError.
Proof.
  intros HkK Hw Hfits Hwraps Hlong.
  pose proof (lookup_lt_Some _ _ _ Hw) as Hkws.
  unfold wraps_within in Hwraps. rewrite (take_S_r _ _ _ Hw) in Hwraps.
  apply Forall_app in Hwraps as [Hpre Hwk]. rewrite Forall_singleton in Hwk.
  destruct (ingest_prefix fuel dt K Nmax ws k) as (a & Hrun & Ha); try lia; auto.
  unfold ingest. apply (for_range_raise K k _ _ a); [exact HkK | exact Hrun |].
  destruct Ha as (_ & _ & _ & Hrest & _). destruct (Hrest k) as [Hck Huk]; [lia|].
  rewrite (index_Ok _ _ _ Hw). simpl.
  rewrite (index_Ok _ _ _ Hck). simpl. rewrite (index_Ok _ _ _ Huk). simpl.
  unfold ingest_window, read_torsions.
  rewrite read_torsions_overflow; [reflexivity | exact Hwk | lia |].
  unfold zeros. rewrite length_replicate. simpl. lia.
Qed.

End IngestExact.

(** ** The centers file and the temperatures *)

Section Centers.
Context {F : Type} `{Arith F}.

Lemma read_centers_prefix (pi : F) (K : nat) (lines : list (list F)) (n : nat) :
  (n <= K)%nat -> (n <= length lines)%nat ->
  Forall (fun tokens => (2 <= length tokens)%nat) (take n lines) ->
  exists c,
    for_range n
      (fun k c =>
         tokens ← index lines k;
         t0 ← index tokens 0;
         chi0' ← store (c_chi0_k c) k t0;
         t1 ← index tokens 1;
         K' ← store (c_K_k c) k (mul t1 (mul (div pi (lit 180)) (div pi (lit 180))));
         T' ← (if decide (2 < length tokens)
               then t2 ← index tokens 2; store (c_T_k c) k t2
               else Ok (c_T_k c));
         Ok {| c_chi0_k := chi0'; c_K_k := K'; c_T_k := T' |})
      {| c_chi0_k := zeros K; c_K_k := zeros K; c_T_k := initial_T_k K |} = Ok c /\
    centers_read pi K lines n c.
Proof.
  intros HnK Hnl Htok. apply for_range_inv.
  - unfold centers_read, initial_T_k, zeros. simpl. rewrite !length_replicate.
    split; [reflexivity|]. split; [reflexivity|]. split; [reflexivity|]. split.
    + intros k Hk. apply lookup_replicate_2. lia.
    + intros; lia.
  - intros k c Hk (H0 & H1 & H2 & Hrest & Hdone).
    destruct (lookup_lt_is_Some_2 lines k) as [tokens Hline]; [lia|].
    assert (Hlen : (2 <= length tokens)%nat).
    { rewrite Forall_lookup in Htok. apply (Htok k). rewrite lookup_take_lt by lia. exact Hline. }
    destruct (lookup_lt_is_Some_2 tokens 0) as [t0 Ht0]; [lia|].
    destruct (lookup_lt_is_Some_2 tokens 1) as [t1 Ht1]; [lia|].
    rewrite (index_Ok _ _ _ Hline). simpl. rewrite (index_Ok _ _ _ Ht0). simpl.
    rewrite store_Ok by lia. simpl. rewrite (index_Ok _ _ _ Ht1). simpl.
    rewrite store_Ok by lia. simpl.
    assert (HT : exists T',
               (if decide (2 < length tokens)%nat
                then t2 ← index tokens 2; store (c_T_k c) k t2
                else Ok (c_T_k c)) = Ok T' /\
               length T' = K /\
               T' !! k = Some (default (mul (lit 1) (lit temperature)) (tokens !! 2%nat)) /\
               forall k', k' <> k -> T' !! k' = c_T_k c !! k').
    { destruct (decide (2 < length tokens)%nat) as [H3|H3].
      - destruct (lookup_lt_is_Some_2 tokens 2 H3) as [t2 Ht2].
        rewrite (index_Ok _ _ _ Ht2). simpl. rewrite store_Ok by lia.
        eexists. split; [reflexivity|]. rewrite length_insert, Ht2.
        split; [exact H2|]. split; [apply list_lookup_insert_eq; lia|].
        intros k' Hne. apply list_lookup_insert_ne. congruence.
      - exists (c_T_k c). split; [reflexivity|]. split; [exact H2|].
        rewrite (proj2 (lookup_ge_None tokens 2)) by lia. simpl.
        split; [apply Hrest; lia | reflexivity]. }
    destruct HT as (T' & -> & HlT & HTk & HTother). simpl.
    eexists. split; [reflexivity|]. unfold centers_read. simpl.
    rewrite !length_insert.
    split; [exact H0|]. split; [exact H1|]. split; [exact HlT|]. split.
    + intros k' Hk'. rewrite HTother by lia. apply Hrest. lia.
    + intros k' tokens' Hk' Hline'. unfold centers_hold. simpl.
      destruct (decide (k' = k)) as [->|Hne].
      * assert (tokens' = tokens) by congruence. subst tokens'.
        rewrite !list_lookup_insert_eq by lia. rewrite Ht0, Ht1. auto.
      * rewrite !list_lookup_insert_ne by done. rewrite HTother by done.
        apply Hdone; [lia | exact Hline'].
Qed.

(** X4. Reading centers.dat (lines 78-85) succeeds when the file has K lines
    of at least two tokens: chi0_k[k] is the first token, K_k[k] the second
    times (pi/180)^2, and T_k[k] the third if there is one and 300 otherwise.
    A missing line, or a line with fewer than two tokens, raises IndexError. *)
Theorem read_centers_result (pi : F) (K : nat) (lines : list (list F)) :
  ((K <= length lines)%nat ->
   Forall (fun tokens => (2 <= length tokens)%nat) (take K lines) ->
   exists c, read_centers pi K lines = Ok c /\
     length (c_chi0_k c) = K /\ length (c_K_k c) = K /\ length (c_T_k c) = K /\
     forall k tokens, (k < K)%nat -> lines !! k = Some tokens ->
       c_chi0_k c !! k = tokens !! 0%nat /\
       c_K_k c !! k =
         (fun t1 => mul t1 (mul (div pi (lit 180)) (div pi (lit 180)))) <$> tokens !! 1%nat /\
       c_T_k c !! k = Some (default (mul (lit 1) (lit temperature)) (tokens !! 2%nat))) /\
  (forall k, (k < K)%nat -> (k <= length lines)%nat ->
     Forall (fun tokens => (2 <= length tokens)%nat) (take k lines) ->
     (forall tokens, lines !! k = Some tokens -> (length tokens < 2)%nat) ->
     read_centers pi K lines = Raise IndexError).
Proof.
  split.
  - intros HK Htok.
    destruct (read_centers_prefix pi K lines K) as (c & Hrun & H0 & H1 & H2 & _ & Hdone);
      auto.
    exists c. split; [exact Hrun|]. repeat split; auto; apply (Hdone k tokens); auto.
  - intros k HkK Hkl Htok Hbad.
    destruct (read_centers_prefix pi K lines k) as (c & Hrun & H0 & H1 & H2 & _);
      [lia | exact Hkl | exact Htok |].
    unfold read_centers. apply (for_range_raise K k _ _ c); [exact HkK | exact Hrun |].
    destruct (lines !! k) as [tokens|] eqn:Hline.
    + rewrite (index_Ok _ _ _ Hline). simpl. pose proof (Hbad tokens eq_refl) as Hshort.
      destruct tokens as [|t0 [|t1 tokens]]; simpl in Hshort; try lia; [reflexivity|].
      change (index [t0] 0) with (Ok t0). simpl. rewrite store_Ok by lia. reflexivity.
    + unfold index. rewrite Hline. reflexivity.
Qed.

End Centers.

Section ExactTemperatures.
Open Scope Q_scope.

Lemma running_max (xs : list Q) :
  forall x : Q,
    foldl (fun m y => if ltb m y then y else m) x xs ∈ x :: xs /\
    forall y, y ∈ x :: xs -> y <= foldl (fun m y => if ltb m y then y else m) x xs.
Proof.
  induction xs as [|z xs IH]; intros x; cbn [foldl].
  - split; [left|]. intros y Hy. apply list_elem_of_singleton in Hy as ->. lra.
  - destruct (ltb x z) eqn:E.
    + apply ltb_Q_true in E. destruct (IH z) as [Hin Hle].
      split; [right; exact Hin|].
      intros y Hy. apply elem_of_cons in Hy as [->|Hy]; [|apply Hle; exact Hy].
      pose proof (Hle z ltac:(left)). lra.
    + apply ltb_Q_false in E. destruct (IH x) as [Hin Hle]. split.
      * apply elem_of_cons in Hin as [Heq|Hin]; [rewrite Heq; left | right; right; exact Hin].
      * intros y Hy. apply elem_of_cons in Hy as [->|Hy]; [apply Hle; left|].
        apply elem_of_cons in Hy as [->|Hy]; [|apply Hle; right; exact Hy].
        pose proof (Hle x ltac:(left)). lra.
Qed.

Lemma num_eqb_Q (a b : Q) : num_eqb a b = true <-> a == b.
Proof.
  unfold num_eqb. rewrite andb_true_iff, (leb_Q_true a b), (leb_Q_true b a).
  split; [intros [? ?]; lra | intros Heq; rewrite Heq; split; lra].
Qed.

Lemma different_temperatures_exact (T_k : list Q) :
  T_k <> [] ->
  exists b, different_temperatures T_k = Ok b /\
    (b = false -> forall x y, x ∈ T_k -> y ∈ T_k -> x == y).
Proof.
  intros Hne. destruct T_k as [|x xs]; [done|].
  unfold different_temperatures, py_min, py_max. simpl mbind.
  destruct (running_min xs x) as [_ Hlo]. destruct (running_max xs x) as [_ Hhi].
  set (lo := foldl (fun m y => if ltb y m then y else m) x xs) in *.
  set (hi := foldl (fun m y => if ltb m y then y else m) x xs) in *.
  eexists. split; [reflexivity|]. rewrite negb_false_iff, num_eqb_Q.
  intros Heq a b Ha Hb. change (lo == hi) in Heq.
  pose proof (Hlo a Ha). pose proof (Hhi a Ha). pose proof (Hlo b Hb). pose proof (Hhi b Hb).
  lra.
Qed.

(** X5. The test of lines 88-90 finds the temperatures different exactly
    when two of them differ; on an empty list of temperatures it raises. *)
Theorem temperatures_differ_iff :
  different_temperatures (F := Q) [] = Raise ValueError /\
  forall T_k : list Q, T_k <> [] ->
    exists b, different_temperatures T_k = Ok b /\
      (b = false <-> forall x y, x ∈ T_k -> y ∈ T_k -> x == y).
Proof.
  split; [reflexivity|]. intros T_k Hne. destruct T_k as [|x xs]; [done|].
  unfold different_temperatures, py_min, py_max. simpl mbind.
  destruct (running_min xs x) as [Hlo_in Hlo]. destruct (running_max xs x) as [Hhi_in Hhi].
  set (lo := foldl (fun m y => if ltb y m then y else m) x xs) in *.
  set (hi := foldl (fun m y => if ltb m y then y else m) x xs) in *.
  eexists. split; [reflexivity|]. rewrite negb_false_iff, num_eqb_Q. split.
  - intros Heq a b Ha Hb. change (lo == hi) in Heq.
    pose proof (Hlo a Ha). pose proof (Hhi a Ha). pose proof (Hlo b Hb). pose proof (Hhi b Hb).
    lra.
  - intros Hall. change (lo == hi). apply Hall; assumption.
Qed.

End ExactTemperatures.

(** ** The stages of the preparation together *)

Section Files.
Context {F : Type} `{Arith F}.

Lemma windows_of_length (betas : list F) (fs : list (window_files F)) (K : nat) :
  length betas = K -> length fs = K -> length (windows_of betas fs) = K.
Proof. intros Hb Hf. unfold windows_of. rewrite length_zip_with. lia. Qed.

Lemma windows_of_lookup (betas : list F) (fs : list (window_files F)) (k : nat)
    (f : window_files F) :
  fs !! k = Some f -> (k < length betas)%nat ->
  exists b, betas !! k = Some b /\ windows_of betas fs !! k = Some (window_of b f).
Proof.
  intros Hf Hk. destruct (lookup_lt_is_Some_2 betas k Hk) as [b Hb].
  exists b. split; [exact Hb|]. unfold windows_of. apply lookup_zip_with_Some.
  exists b, f. auto.
Qed.

Lemma windows_of_fit (betas : list F) (fs : list (window_files F)) (Nmax : nat) :
  Forall (files_fit Nmax) fs -> Forall (fits Nmax) (windows_of betas fs).
Proof.
  intros Hfit. apply Forall_lookup. intros k w Hw.
  apply lookup_zip_with_Some in Hw as (b & f & -> & _ & Hf).
  destruct (proj1 (Forall_lookup _ _) Hfit _ _ Hf) as (H1 & H2 & H3 & H4).
  unfold fits, window_of. simpl. rewrite length_map. auto.
Qed.

Lemma windows_of_wrap (fuel : nat) (betas : list F) (fs : list (window_files F)) :
  files_wrap_within fuel fs -> wraps_within fuel (windows_of betas fs).
Proof.
  intros Hwrap. apply Forall_lookup. intros k w Hw.
  apply lookup_zip_with_Some in Hw as (b & f & -> & _ & Hf).
  exact (proj1 (Forall_lookup _ _) Hwrap _ _ Hf).
Qed.

End Files.

Section ExactPrepare.
Open Scope Q_scope.

Lemma files_wrap_exact (fs : list (window_files Q)) (fuel : nat) :
  (max_list (map wrap_steps (concat (map f_torsions fs))) < fuel)%nat ->
  files_wrap_within fuel fs.
Proof.
  intros Hfuel. apply Forall_forall. intros f Hf. apply Forall_forall. intros chi Hchi.
  destruct (wrap_chi_exact chi fuel) as (c & Hc & _); [|exists c; exact Hc].
  assert (wrap_steps chi <= max_list (map wrap_steps (concat (map f_torsions fs))))%nat; [|lia].
  apply max_list_elem_of_le. apply list_elem_of_fmap. exists chi. split; [reflexivity|].
  apply list_elem_of_In, in_concat. exists (f_torsions f).
  split; [|apply list_elem_of_In; exact Hchi].
  apply in_map, list_elem_of_In. exact Hf.
Qed.

Lemma shifted_well_formed (K Nmax : nat) (p : umbrellas Q) (a : arrays Q) (m : Q) :
  length (chi0_k p) = K -> length (K_k p) = K -> length (beta_k p) = K ->
  length (N_k a) = K -> length (chi_kn a) = K -> length (u_kn a) = K ->
  Forall (fun row => length row = Nmax) (chi_kn a) ->
  Forall (fun row => length row = Nmax) (u_kn a) ->
  Forall (fun n => (n <= Nmax)%nat) (N_k a) ->
  well_formed K Nmax p
    {| N_k := N_k a; chi_kn := chi_kn a; u_kn := map (map (fun x => sub x m)) (u_kn a) |}.
Proof.
  intros. unfold well_formed. simpl. rewrite length_map. repeat split; auto.
  apply Forall_fmap. eapply Forall_impl; [eassumption|]. intros row Hrow. simpl.
  rewrite length_map. exact Hrow.
Qed.

Lemma ingested_shapes (fuel : nat) (dt : bool) (K Nmax : nat) (ws : list (window_data Q))
    (a : arrays Q) :
  length ws = K -> Forall (fits Nmax) ws -> ingested fuel dt K Nmax ws K a ->
  Forall (fun row => length row = Nmax) (chi_kn a) /\
  Forall (fun row => length row = Nmax) (u_kn a) /\
  Forall (fun n => (n <= Nmax)%nat) (N_k a).
Proof.
  intros Hws Hfits (HN & Hc & Hu & _ & Hdone).
  assert (Hrow : forall k, (k < K)%nat -> exists w chi_row u_row,
            ws !! k = Some w /\ N_k a !! k = Some (length (indices w)) /\
            chi_kn a !! k = Some chi_row /\ u_kn a !! k = Some u_row /\
            length chi_row = Nmax /\ length u_row = Nmax).
  { intros k Hk. destruct (lookup_lt_is_Some_2 ws k) as [w Hw]; [lia|].
    destruct (Hdone k w Hk Hw) as (cs & chi_row & u_row & _ & H1 & H2 & H3 & H4 & H5 & _).
    exists w, chi_row, u_row. repeat split; assumption. }
  split; [|split]; apply Forall_lookup; intros k x Hx;
    pose proof (lookup_lt_Some _ _ _ Hx) as Hk;
    (destruct (Hrow k) as (w & chi_row & u_row & Hw & H1 & H2 & H3 & H4 & H5); [lia|]).
  - congruence.
  - congruence.
  - assert (x = length (indices w)) by congruence. subst x.
    pose proof (proj1 (Forall_lookup _ _) Hfits _ _ Hw) as (_ & _ & Hi & _). exact Hi.
Qed.

Lemma prepare_stages (pi kB : Q) (K Nmax : nat) (center_lines : list (list Q))
    (fs : list (window_files Q)) (fuel : nat) :
  inputs_fit K Nmax center_lines fs -> files_wrap_within fuel fs ->
  exists c dt a m u_kln,
    read_centers pi K center_lines = Ok c /\
    centers_read pi K center_lines K c /\
    (dt = false -> forall x y, x ∈ c_T_k c -> y ∈ c_T_k c -> x == y) /\
    ingested fuel dt K Nmax (windows_of (beta_of_temperatures kB (c_T_k c)) fs) K a /\
    (exists k n, get2 (u_kn a) k n = Some m) /\
    let p := {| chi0_k := c_chi0_k c; K_k := c_K_k c;
                beta_k := beta_of_temperatures kB (c_T_k c) |} in
    let a' := {| N_k := N_k a; chi_kn := chi_kn a;
                 u_kn := map (map (fun x => sub x m)) (u_kn a) |} in
    well_formed K Nmax p a' /\
    build_u_kln K p a' = Ok u_kln /\
    prepare fuel pi kB K Nmax center_lines fs =
      Ok {| p_umbrellas := p; p_DifferentTemperatures := dt;
            p_arrays := a'; p_u_kln := u_kln |}.
Proof.
  intros (HK & HN & Hlines & Htok & Hfs & Hfits) Hwraps.
  destruct (read_centers_prefix pi K center_lines K) as (c & Hc & Hcr); auto.
  pose proof Hcr as (H0 & H1 & H2 & _).
  destruct (different_temperatures_exact (c_T_k c)) as (dt & Hdt & Hdt_iff).
  { intros Hnil. rewrite Hnil in H2. simpl in H2. lia. }
  set (betas := beta_of_temperatures kB (c_T_k c)).
  assert (Hbl : length betas = K).
  { unfold betas, beta_of_temperatures. rewrite length_map. exact H2. }
  pose proof (windows_of_length betas fs K Hbl Hfs) as Hws.
  pose proof (windows_of_fit betas fs Nmax Hfits) as Hwfits.
  pose proof (windows_of_wrap fuel betas fs Hwraps) as Hwwraps.
  destruct (ingest_exact fuel dt K Nmax _ Hws Hwfits Hwwraps) as (a & Ha & Hing).
  destruct (ingested_shapes fuel dt K Nmax _ a Hws Hwfits Hing) as (Hsc & Hsu & HsN).
  pose proof Hing as (HlN & Hlc & Hlu & _).
  destruct (amin_least (u_kn a)) as (m & Hm & Hmin & _).
  { destruct (u_kn a) as [|row rows] eqn:Hrows; [simpl in Hlu; lia|].
    apply Forall_cons in Hsu as [Hrow _]. destruct row; [simpl in Hrow; lia | discriminate]. }
  assert (Hwf : well_formed K Nmax
            {| chi0_k := c_chi0_k c; K_k := c_K_k c; beta_k := betas |}
            {| N_k := N_k a; chi_kn := chi_kn a;
               u_kn := map (map (fun x => sub x m)) (u_kn a) |}).
  { apply shifted_well_formed; simpl; auto. }
  destruct (build_u_kln_spec K Nmax _ _ Hwf) as (u_kln & Hbuild & _).
  exists c, dt, a, m, u_kln.
  split; [exact Hc|]. split; [exact Hcr|]. split; [exact Hdt_iff|]. split; [exact Hing|].
  split; [apply entry_elem_of; exact Hmin|]. split; [exact Hwf|]. split; [exact Hbuild|].
  unfold prepare, read_centers. rewrite Hc. cbn [mbind res_bind].
  rewrite Hdt. cbn [mbind res_bind beta_k]. fold betas. rewrite Ha. cbn [mbind res_bind].
  unfold rezero. rewrite Hm. cbn [mbind res_bind]. rewrite Hbuild. reflexivity.
Qed.

(** X6. The stages of lines 74-155 and 176-187 fit together.  On K center
    lines of at least two tokens the centers are read and the temperatures
    compared without raising; and whenever the ingestion of the windows'
    files returns, the calls of the subsampler included, the rezeroing and
    the build of the matrix return as well, the arrays keep their allocated
    shapes, and the matrix has an entry for every retained sample and every
    umbrella. *)
Theorem prepare_returns (ts : timeseries Q) (pi kB : Q) (K Nmax : nat)
    (center_lines : list (list Q)) (fs : list (window_files Q)) (fuel : nat) :
  (0 < K)%nat -> (0 < Nmax)%nat -> (K <= length center_lines)%nat ->
  Forall (fun tokens => (2 <= length tokens)%nat) (take K center_lines) ->
  exists c dt,
    read_centers pi K center_lines = Ok c /\
    different_temperatures (c_T_k c) = Ok dt /\
    forall a,
      ingest_ts ts fuel dt K Nmax
        (zip_with lines_of (beta_of_temperatures kB (c_T_k c)) fs) = Ok a ->
      exists r,
        prepare_ts ts fuel pi kB K Nmax center_lines fs = Ok r /\
        p_DifferentTemperatures r = dt /\
        N_k (p_arrays r) = N_k a /\ chi_kn (p_arrays r) = chi_kn a /\
        well_formed K Nmax (p_umbrellas r) (p_arrays r) /\
        (forall k l n, sampled (p_arrays r) k n -> (l < K)%nat ->
           is_Some (get3 (p_u_kln r) k l n)).
Proof.
  intros HK HN Hlines Htok.
  destruct (read_centers_prefix pi K center_lines K) as (c & Hc & Hcr); auto.
  pose proof Hcr as (H0 & H1 & H2 & _).
  destruct (different_temperatures_exact (c_T_k c)) as (dt & Hdt & _).
  { intros Hnil. rewrite Hnil in H2. simpl in H2. lia. }
  exists c, dt. split; [exact Hc|]. split; [exact Hdt|]. intros a Ha.
  set (betas := beta_of_temperatures kB (c_T_k c)) in *.
  assert (Hbl : length betas = K).
  { unfold betas, beta_of_temperatures. rewrite length_map. exact H2. }
  destruct (ingest_ts_Ok (fun _ => True) I ts fuel dt K Nmax (zip_with lines_of betas fs) a) as
    (HlN & Hlc & Hlu & Hsc & Hsu & HsN); [auto | exact Ha |].
  assert (Hsc' : Forall (fun row => length row = Nmax) (chi_kn a)).
  { eapply Forall_impl; [exact Hsc|]. intros row [Hr _]. exact Hr. }
  destruct (amin_least (u_kn a)) as (m & Hm & Hmin & _).
  { destruct (u_kn a) as [|row rows] eqn:Hrows; [simpl in Hlu; lia|].
    apply Forall_cons in Hsu as [Hrow _]. destruct row; [simpl in Hrow; lia | discriminate]. }
  assert (Hwf : well_formed K Nmax
            {| chi0_k := c_chi0_k c; K_k := c_K_k c; beta_k := betas |}
            {| N_k := N_k a; chi_kn := chi_kn a;
               u_kn := map (map (fun x => sub x m)) (u_kn a) |}).
  { apply shifted_well_formed; simpl; auto. }
  destruct (build_u_kln_spec K Nmax _ _ Hwf) as (u_kln & Hbuild & Hentry).
  eexists. split.
  { unfold prepare_ts, read_centers. rewrite Hc. cbn [mbind res_bind].
    rewrite Hdt. cbn [mbind res_bind beta_k]. fold betas. rewrite Ha. cbn [mbind res_bind].
    unfold rezero. rewrite Hm. cbn [mbind res_bind]. rewrite Hbuild. reflexivity. }
  cbn [p_DifferentTemperatures p_arrays p_umbrellas p_u_kln N_k chi_kn].
  split; [reflexivity|]. split; [reflexivity|]. split; [reflexivity|]. split; [exact Hwf|].
  intros k l n Hs Hl. rewrite (Hentry k l n Hs).
  destruct (sampled_data _ _ _ _ _ _ Hwf Hs) as [[chi Hchi] [ukn Hukn]].
  destruct Hwf as (Hw0 & Hw1 & Hw2 & HwN & _).
  destruct (lookup_lt_is_Some_2 _ l ltac:(rewrite Hw0; exact Hl)) as [c0 Hc0].
  destruct (lookup_lt_is_Some_2 _ l ltac:(rewrite Hw1; exact Hl)) as [kk Hkk].
  destruct Hs as (Nk & HNk & _). apply lookup_lt_Some in HNk.
  destruct (lookup_lt_is_Some_2 _ k ltac:(rewrite Hw2, <- HwN; exact HNk)) as [b Hb].
  unfold entry. rewrite Hchi, Hukn. simpl in Hc0, Hkk, Hb |- *.
  rewrite Hc0, Hkk, Hb. simpl. eauto.
Qed.

(** X7. In a run whose temperatures all agree (the script's default, with no
    third column in centers.dat) no energies are read: every entry of u_kn
    is 0, also after the rezeroing, and every entry of the matrix for a
    retained sample is the value of bias_potential at that sample. *)
Theorem equal_temperatures_give_bias_alone (pi kB : Q) (K Nmax : nat)
    (center_lines : list (list Q)) (fs : list (window_files Q)) (fuel : nat)
    (r : prepared Q) :
  inputs_fit K Nmax center_lines fs -> files_wrap_within fuel fs ->
  prepare fuel pi kB K Nmax center_lines fs = Ok r ->
  p_DifferentTemperatures r = false ->
  (forall k n x, get2 (u_kn (p_arrays r)) k n = Some x -> x == 0) /\
  (forall k l n chi,
     sampled (p_arrays r) k n -> (l < K)%nat ->
     get2 (chi_kn (p_arrays r)) k n = Some chi ->
     exists e v,
       get3 (p_u_kln r) k l n = Some e /\
       bias_potential (p_umbrellas r) chi l = Ok v /\ e == v).
Proof.
  intros Hfit Hwraps Hr Hdt.
  destruct (prepare_stages pi kB K Nmax center_lines fs fuel Hfit Hwraps)
    as (c & dt & a & m & u_kln & Hrc & Hcr & HT & Hing & (km & nm & Hm) & Hwf & Hbuild & Hrun).
  rewrite Hrun in Hr. injection Hr as <-. simpl in Hdt |- *. subst dt.
  pose proof (HT eq_refl) as Hsame. clear HT.
  set (ws := windows_of (beta_of_temperatures kB (c_T_k c)) fs) in *.
  assert (Hws : length ws = K).
  { destruct Hfit as (_ & _ & _ & _ & Hfs & _). destruct Hcr as (_ & _ & HT & _).
    apply windows_of_length; [|exact Hfs].
    unfold beta_of_temperatures. rewrite length_map. exact HT. }
  assert (Hzero : forall k n x, get2 (u_kn a) k n = Some x -> x = 0).
  { intros k n x Hx. unfold get2 in Hx.
    destruct (u_kn a !! k) as [u_row|] eqn:Hrow; simpl in Hx; [|done].
    destruct Hing as (_ & _ & Hlu & _ & Hdone).
    pose proof (lookup_lt_Some _ _ _ Hrow) as Hk.
    destruct (lookup_lt_is_Some_2 ws k) as [w Hw]; [lia|].
    destruct (Hdone k w) as (cs & chi_row & u_row' & _ & _ & _ & Hu & _ & _ & _ & Hukn);
      [lia | exact Hw |].
    assert (u_row' = u_row) by congruence. subst u_row'.
    rewrite Hukn in Hx. unfold row_read, zeros in Hx. simpl in Hx.
    destruct (indices w !! n); apply lookup_replicate in Hx as [-> _]; reflexivity. }
  assert (Hm0 : m = 0) by (apply (Hzero km nm); exact Hm).
  subst m.
  assert (Hshift : forall k n x,
            get2 (map (map (fun x => sub x 0)) (u_kn a)) k n = Some x -> x == 0).
  { intros k n x. rewrite get2_shift. destruct (get2 a.(u_kn) k n) as [y|] eqn:Hy; [|done].
    simpl. intros [= <-]. rewrite (Hzero _ _ _ Hy). reflexivity. }
  split; [exact Hshift|].
  intros k l n chi Hs Hl Hchi.
  destruct (inline_bias_and_bias_potential K Nmax _ _ Hwf) as (u' & Hbuild' & Hrel).
  assert (u' = u_kln) by congruence. subst u'.
  destruct (sampled_data _ _ _ _ _ _ Hwf Hs) as [_ [ukn Hukn]].
  pose proof Hs as (Nk & HNk & Hn).
  pose proof Hwf as (_ & _ & Hb & HN & _).
  pose proof (lookup_lt_Some _ _ _ HNk) as Hk.
  destruct (lookup_lt_is_Some_2 _ k ltac:(rewrite Hb, <- HN; exact Hk)) as [bk Hbk].
  destruct (lookup_lt_is_Some_2 _ l ltac:(rewrite Hb; exact Hl)) as [bl Hbl].
  destruct (Hrel k l n Nk chi ukn bk bl HNk Hn Hl Hchi Hukn Hbk Hbl)
    as (e & v & He & Hv & _ & Heq).
  exists e, v. split; [exact He|]. split; [exact Hv|].
  assert (Hbb : bk == bl).
  { simpl in Hbk, Hbl. unfold beta_of_temperatures in Hbk, Hbl.
    rewrite list_lookup_fmap in Hbk, Hbl.
    destruct (c_T_k c !! k) as [Tk|] eqn:HTk; simpl in Hbk; [|done].
    destruct (c_T_k c !! l) as [Tl|] eqn:HTl; simpl in Hbl; [|done].
    injection Hbk as <-. injection Hbl as <-.
    assert (HTT : Tk == Tl).
    { apply Hsame; apply list_elem_of_lookup; eauto. }
    simpl. rewrite HTT. reflexivity. }
  pose proof (Heq Hbb) as Hev. pose proof (Hshift _ _ _ Hukn) as Hu0.
  rewrite Hu0 in Hev. rewrite <- Hev. ring.
Qed.

(** X8. In a run with different temperatures the retained energy
    u_kn[k][n] is beta_k[k] times the difference of the two energy columns
    of the data line chosen as the n-th sample of window k, less one
    constant that is the same for all entries; beta_k[k] is 1/(kB*T_k[k]). *)
Theorem different_temperatures_give_reduced_energies (pi kB : Q) (K Nmax : nat)
    (center_lines : list (list Q)) (fs : list (window_files Q)) (fuel : nat)
    (r : prepared Q) :
  inputs_fit K Nmax center_lines fs -> files_wrap_within fuel fs ->
  prepare fuel pi kB K Nmax center_lines fs = Ok r ->
  p_DifferentTemperatures r = true ->
  exists m c,
    read_centers pi K center_lines = Ok c /\
    forall k f n i t1 t2 T,
      fs !! k = Some f -> f_indices f !! n = Some i ->
      f_energy_columns f !! i = Some (t1, t2) -> c_T_k c !! k = Some T ->
      beta_k (p_umbrellas r) !! k = Some (1 / (kB * T)) /\
      get2 (u_kn (p_arrays r)) k n = Some (1 / (kB * T) * (t2 - t1) - m).
Proof.
  intros Hfit Hwraps Hr Hdt.
  destruct (prepare_stages pi kB K Nmax center_lines fs fuel Hfit Hwraps)
    as (c & dt & a & m & u_kln & Hrc & Hcr & _ & Hing & _ & Hwf & Hbuild & Hrun).
  rewrite Hrun in Hr. injection Hr as <-. simpl in Hdt |- *. subst dt.
  exists m, c. split; [exact Hrc|].
  intros k f n i t1 t2 T Hf Hi Hcols HT.
  assert (Hb : beta_of_temperatures kB (c_T_k c) !! k = Some (1 / (kB * T))).
  { unfold beta_of_temperatures. rewrite list_lookup_fmap, HT. reflexivity. }
  split; [exact Hb|].
  pose proof (lookup_lt_Some _ _ _ Hb) as Hk.
  destruct (windows_of_lookup _ fs k f Hf Hk) as (b & Hb' & Hw).
  assert (b = 1 / (kB * T)) by congruence. subst b.
  destruct Hing as (_ & _ & _ & _ & Hdone).
  destruct Hfit as (_ & _ & _ & _ & Hfs & _).
  pose proof (lookup_lt_Some _ _ _ Hf) as HkK.
  destruct (Hdone k _ ltac:(lia) Hw) as (cs & chi_row & u_row & _ & _ & _ & Hu & _ & _ & _ & Hukn).
  rewrite get2_shift. unfold get2. rewrite Hu. simpl. rewrite Hukn. simpl. rewrite Hi.
  unfold row_read. rewrite lookup_app_l.
  - rewrite list_lookup_fmap, Hcols. reflexivity.
  - rewrite length_map. apply lookup_lt_Some in Hcols. exact Hcols.
Qed.

End ExactPrepare.

(** ** The matrix outside the retained samples *)

Section MatrixFrame.
Context {F : Type} `{Arith F}.

(** X9. The matrix of lines 152 and 178-187 has the shape K x K x max(N_k),
    and the loop writes only the retained samples: every entry
    u_kln[k][l][n] with n >= N_k[k] is still the zero it was allocated with. *)
Theorem u_kln_padding_stays_zero (K Nmax : nat) (p : umbrellas F) (a : arrays F) :
  well_formed K Nmax p a ->
  exists u, build_u_kln K p a = Ok u /\
    shape3 K K (max_list (N_k a)) u /\
    forall k l n Nk,
      N_k a !! k = Some Nk -> (l < K)%nat -> (Nk <= n < max_list (N_k a))%nat ->
      get3 u k l n = Some (lit 0).
Proof.
  intros Hwf. pose proof Hwf as (_ & _ & _ & HNk & _).
  set (M := max_list (N_k a)).
  destruct (for_range_inv
    (fun k' u => shape3 K K M u /\
       forall k l n, ~ ((k < k')%nat /\ sampled a k n) ->
         get3 u k l n = get3 (zeros3 K K M) k l n)
    K
    (fun k u => Nk ← index (N_k a) k; for_range Nk (u_kln_sample K p a k) u)
    (zeros3 K K M)) as (u & Hrun & Hsh & Hu).
  - split; [apply zeros3_shape | reflexivity].
  - intros k u Hk [Hsh Hout].
    destruct (lookup_lt_is_Some_2 (N_k a) k) as [Nk HNkk]; [lia|].
    rewrite (index_Ok _ _ _ HNkk). simpl.
    destruct (for_range_inv
      (fun n' u' => shape3 K K M u' /\
         forall k0 l n,
           ~ (((k0 < k)%nat /\ sampled a k0 n) \/ (k0 = k /\ (n < n')%nat)) ->
           get3 u' k0 l n = get3 (zeros3 K K M) k0 l n)
      Nk (u_kln_sample K p a k) u) as (u' & Hrun' & Hsh' & Hout').
    + split; [exact Hsh|]. intros k0 l n Hnot. apply Hout. intros [Hlt Hs].
      apply Hnot. left. auto.
    + intros n u0 Hn (Hsh0 & Hout0).
      assert (Hs : sampled a k n) by (exists Nk; auto).
      destruct (u_kln_sample_spec K Nmax M p a k n u0) as (u1 & Hr1 & Hsh1 & _ & Hold); auto.
      { eapply sampled_lt_max; exact Hs. }
      exists u1. split; [exact Hr1|]. split; [exact Hsh1|].
      intros k0 l n0 Hnot. rewrite Hold.
      * apply Hout0. intros [Hprev|[-> Hlt]]; apply Hnot; [left; exact Hprev | right; split; [reflexivity | lia]].
      * destruct (decide (k0 = k)) as [->|Hne]; [|left; exact Hne].
        right. intros ->. apply Hnot. right. split; [reflexivity | lia].
    + exists u'. split; [exact Hrun'|]. split; [exact Hsh'|].
      intros k0 l n Hnot. apply Hout'. intros [[Hlt Hs]|[-> Hlt]]; apply Hnot.
      * split; [lia | exact Hs].
      * split; [lia | exists Nk; auto].
  - exists u. split; [exact Hrun|]. split; [exact Hsh|].
    intros k l n Nk HNkk Hl [Hge Hlt]. rewrite Hu.
    + unfold get3, zeros3, zeros2, zeros.
      rewrite lookup_replicate_2 by (apply lookup_lt_Some in HNkk; lia). simpl.
      rewrite lookup_replicate_2 by exact Hl. simpl.
      apply lookup_replicate_2. exact Hlt.
    + intros [_ (Nk' & HNk' & Hn)]. assert (Nk' = Nk) by congruence. lia.
Qed.

End MatrixFrame.

(** ** The size of the bias *)

Section BiasSize.
Open Scope Q_scope.

Lemma min_image1_square (d : Q) :
  Qabs d <= 360 ->
  min_image1 d * min_image1 d == arc d * arc d /\ 0 <= arc d /\ arc d <= 180.
Proof.
  intros Hd. unfold min_image1, arc.
  pose proof (Qabs_nonneg d) as Hpos.
  assert (Hsq : d * d == Qabs d * Qabs d).
  { apply Qabs_case; intros _; ring. }
  destruct (ltb (lit 180) (fabs d)) eqn:E.
  - apply (ltb_Q_true 180 (Qabs d)) in E.
    change (sub (lit 360) (fabs d)) with (360 - Qabs d).
    rewrite (Q.min_r (Qabs d) (360 - Qabs d)) by lra.
    split; [reflexivity|]. lra.
  - apply (ltb_Q_false 180 (Qabs d)) in E.
    rewrite (Q.min_l (Qabs d) (360 - Qabs d)) by lra.
    split; [exact Hsq|]. lra.
Qed.


(** X11. With nonnegative inverse temperatures and spring constants the
    bias never lowers an energy: u_kln[k][l][n] >= u_kn[k][n] for every
    retained sample; and for a sample within one turn of the center of
    umbrella l it adds at most beta_k[k]*(K_k[l]/2)*180^2. *)
Theorem u_kln_bias_is_bounded (K Nmax : nat) (p : umbrellas Q) (a : arrays Q) :
  well_formed K Nmax p a ->
  Forall (fun b => 0 <= b) (beta_k p) -> Forall (fun kk => 0 <= kk) (K_k p) ->
  exists u, build_u_kln K p a = Ok u /\
    forall k l n Nk chi ukn c0 kk b,
      N_k a !! k = Some Nk -> (n < Nk)%nat ->
      get2 (chi_kn a) k n = Some chi -> get2 (u_kn a) k n = Some ukn ->
      chi0_k p !! l = Some c0 -> K_k p !! l = Some kk -> beta_k p !! k = Some b ->
      exists e, get3 u k l n = Some e /\ ukn <= e /\
        (Qabs (chi - c0) <= 360 -> e <= ukn + b * (kk / 2) * (180 * 180)).
Proof.
  intros Hwf Hbeta HKk.
  destruct (build_u_kln_spec K Nmax p a Hwf) as (u & Hrun & Hu).
  exists u. split; [exact Hrun|].
  intros k l n Nk chi ukn c0 kk b HNk Hn Hchi Hukn Hc0 Hkk Hb.
  eexists. split.
  { rewrite Hu by (exists Nk; auto). unfold entry.
    rewrite Hchi, Hukn, Hc0, Hkk, Hb. reflexivity. }
  pose proof (proj1 (Forall_lookup _ _) Hbeta _ _ Hb) as Hb0.
  pose proof (proj1 (Forall_lookup _ _) HKk _ _ Hkk) as Hk0.
  cbv beta in Hb0, Hk0.
  simpl. change (inject_Z 2) with 2.
  set (d := min_image1 (chi - c0)).
  assert (Hc : 0 <= b * (kk / 2)).
  { apply Qmult_le_0_compat; [exact Hb0|]. apply Qle_shift_div_l; lra. }
  split.
  - assert (0 <= b * (kk / 2) * (d * d)); [|lra].
    apply Qmult_le_0_compat; [exact Hc|]. nra.
  - intros Hd. destruct (min_image1_square (chi - c0) Hd) as (Hsq & Hlo & Hhi).
    fold d in Hsq. rewrite Hsq.
    assert (arc (chi - c0) * arc (chi - c0) <= 180 * 180) by nra.
    assert (b * (kk / 2) * (arc (chi - c0) * arc (chi - c0))
            <= b * (kk / 2) * (180 * 180)); [|lra].
    rewrite !(Qmult_comm (b * (kk / 2))). apply Qmult_le_compat_r; assumption.
Qed.

End BiasSize.

(** ** Rezeroing twice *)

Section RezeroTwice.
Open Scope Q_scope.

(** X12. Rezeroing an array that has been rezeroed changes nothing: the
    second pass subtracts a constant equal to 0. *)
Theorem rezero_is_idempotent (a a' : list (list Q)) :
  rezero a = Ok a' ->
  exists m' a'', amin a' = Ok m' /\ m' == 0 /\ rezero a' = Ok a'' /\
    forall k n x, get2 a' k n = Some x ->
      exists y, get2 a'' k n = Some y /\ y == x.
Proof.
  unfold rezero. destruct (amin a) as [m| |] eqn:Hm; simpl; try discriminate.
  intros [= <-].
  assert (Hne : concat a <> []).
  { intros Hnil. unfold amin in Hm. rewrite Hnil in Hm. discriminate. }
  destruct (amin_least a Hne) as (m0 & Hm0 & Hin & Hle).
  assert (m0 = m) by congruence. subst m0.
  apply entry_elem_of in Hin as (km & nm & Hmin).
  assert (Hzero : get2 (map (map (fun x => sub x m)) a) km nm = Some (m - m)).
  { rewrite get2_shift, Hmin. reflexivity. }
  destruct (amin_least (map (map (fun x => sub x m)) a)) as (m' & Hm' & Hin' & Hle').
  { intros Hnil. assert (Hx : m - m ∈ concat (map (map (fun x => sub x m)) a))
      by (apply entry_elem_of; eauto).
    rewrite Hnil in Hx. inversion Hx. }
  assert (Hm'0 : m' == 0).
  { assert (m' <= m - m) by (apply Hle', entry_elem_of; eauto).
    apply entry_elem_of in Hin' as (k' & n' & Hk').
    rewrite get2_shift in Hk'. destruct (get2 a k' n') as [x|] eqn:Hx; [|done].
    simpl in Hk'. injection Hk' as <-.
    assert (m <= x) by (apply Hle, entry_elem_of; eauto). lra. }
  exists m', (map (map (fun x => sub x m')) (map (map (fun x => sub x m)) a)).
  split; [exact Hm'|]. split; [exact Hm'0|]. split.
  - unfold rezero.
    change (amin (map (map (fun x : Q => sub x m)) a)
            ≫= (fun m0 => Ok (map (map (fun x : Q => sub x m0))
                                 (map (map (fun x : Q => sub x m)) a))) =
            Ok (map (map (fun x : Q => sub x m')) (map (map (fun x : Q => sub x m)) a))).
    rewrite Hm'. reflexivity.
  - intros k n x Hx. rewrite get2_shift.
    change (get2 (map (map (fun x : Q => sub x m)) a) k n = Some x) in Hx.
    rewrite Hx. simpl. eexists. split; [reflexivity|].
    rewrite Hm'0. ring.
Qed.

End RezeroTwice.

(** ** The method loop on any list of methods *)

Lemma prefix_two (n : nat) (m : string) (c1 c2 : ascii) (s : string) :
  prefix_of (S (S n)) m = String c1 (String c2 s) ->
  exists m', m = String c1 (String c2 m').
Proof.
  unfold prefix_of. destruct m as [|a [|b m']]; simpl; try discriminate.
  intros [= -> -> _]. eexists. reflexivity.
Qed.

Lemma ends_in_digit_last_char (m : string) :
  ends_in_digit m = true -> exists c, last_char m = Ok c /\ is_digit c = true.
Proof.
  unfold ends_in_digit. destruct (last_char m) as [c| |]; try discriminate.
  intros Hd. exists c. split; [reflexivity | exact Hd].
Qed.

Lemma colors_keys (m : string) : is_Some (colors !! m) <-> m ∈ color_names.
Proof.
  split.
  - intros [c Hc]. unfold colors in Hc. apply elem_of_list_to_map_2 in Hc.
    repeat (apply elem_of_cons in Hc as [Hc|Hc];
            [injection Hc as -> _; unfold color_names; set_solver|]).
    inversion Hc.
  - unfold color_names. intros Hm.
    repeat (apply elem_of_cons in Hm as [->|Hm]; [vm_compute; eauto|]).
    inversion Hm.
Qed.

Lemma known_method_kinds (m : string) :
  is_Some (colors !! m) ->
  m = "histogram"%string \/ m = "kde"%string \/
  (is_spline_method m = true /\ ends_in_digit m = true).
Proof.
  intros Hm%colors_keys. unfold color_names in Hm.
  apply elem_of_cons in Hm as [->|Hm]; [left; reflexivity|].
  apply elem_of_cons in Hm as [->|Hm]; [right; left; reflexivity|].
  repeat (apply elem_of_cons in Hm as [->|Hm]; [right; right; split; reflexivity|]).
  inversion Hm.
Qed.

Section MethodList.
Context {F : Type} `{Arith F}.
Variable getPMF_f_i : list (pmf_call F) -> list F.
Variable g : grid F.

(** X13. Every name that takes the spline branch belongs to one family
    only, and the dictionary of the fit carries that family's weighting under
    'spline_weights', beside the nine other keys of lines 237-253. *)
Theorem spline_weights_by_family (method : string) (st : script_state F) :
  is_spline_method method = true -> ends_in_digit method = true ->
  exists d w,
    fit getPMF_f_i g method st =
      Ok {| f_i_kde := f_i_kde st; spline_parameters := Some d;
            pmf_calls := pmf_calls st ++ [GeneratePMF "spline" d] |} /\
    d !! "spline_weights"%string = Some (VStr w) /\
    (prefix_of 2 method = "kl"%string -> w = "kldivergence"%string) /\
    (prefix_of 5 method = "sumkl"%string -> w = "sumkldivergence"%string) /\
    (prefix_of 8 method = "weighted"%string -> w = "weightedsum"%string) /\
    (prefix_of 6 method = "simple"%string -> w = "simplesum"%string) /\
    dom d = list_to_set ["spline_weights"; "nspline"; "spline_initialize"; "xinit";
                         "yinit"; "xrange"; "fkbias"; "kdegree";
                         "optimization_algorithm"; "optimize_options"]%string.
Proof.
  intros Hs (c & Hc & Hd)%ends_in_digit_last_char.
  rewrite (fit_of_spline_method getPMF_f_i g method st Hs).
  assert (Hw : exists w,
    spline_weights_of method (∅ : gmap string (value F)) =
      {[ "spline_weights"%string := VStr w ]} /\
    (prefix_of 2 method = "kl"%string -> w = "kldivergence"%string) /\
    (prefix_of 5 method = "sumkl"%string -> w = "sumkldivergence"%string) /\
    (prefix_of 8 method = "weighted"%string -> w = "weightedsum"%string) /\
    (prefix_of 6 method = "simple"%string -> w = "simplesum"%string)).
  { unfold is_spline_method in Hs. unfold spline_weights_of.
    destruct (String.eqb_spec (prefix_of 2 method) "kl") as [E1|E1];
    destruct (String.eqb_spec (prefix_of 5 method) "sumkl") as [E2|E2];
    destruct (String.eqb_spec (prefix_of 8 method) "weighted") as [E3|E3];
    destruct (String.eqb_spec (prefix_of 6 method) "simple") as [E4|E4];
    try discriminate Hs;
    try (apply prefix_two in E1 as [m1 E1]);
    try (apply prefix_two in E2 as [m2 E2]);
    try (apply prefix_two in E3 as [m3 E3]);
    try (apply prefix_two in E4 as [m4 E4]);
    try congruence;
    (eexists; split; [rewrite insert_empty; reflexivity|]);
    repeat split; intros; congruence. }
  destruct Hw as (w & Hw & H1 & H2 & H3 & H4).
  unfold fit_spline. rewrite Hc. cbn [mbind res_bind]. unfold int_of_char. rewrite Hd.
  cbn [mbind res_bind]. rewrite Hw.
  eexists _, w. split; [reflexivity|].
  split; [simplify_map_eq; reflexivity|].
  split; [exact H1|]. split; [exact H2|]. split; [exact H3|]. split; [exact H4|].
  rewrite !dom_insert_L, dom_singleton_L. set_solver.
Qed.

Lemma run_method_known (m : string) (st : script_state F) :
  is_Some (colors !! m) ->
  exists st', run_method getPMF_f_i g m st = Ok st' /\
    length (pmf_calls st') =
      (length (pmf_calls st) + 3 + (if String.eqb m "kde" then 1 else 0))%nat /\
    (spline_parameters st' = None <->
     spline_parameters st = None /\ is_spline_method m = false).
Proof.
  intros Hm. destruct (known_method_kinds m Hm) as [->|[->|[Hs Hd]]].
  - unfold run_method, fit, report.
    change (String.eqb "histogram" "histogram") with true.
    change (String.eqb "histogram" "kde") with false.
    change (is_spline_method "histogram") with false.
    cbn [mbind res_bind].
    replace (colors !! "histogram"%string) with (Some "k:"%string) by (vm_compute; reflexivity).
    eexists. split; [reflexivity|]. unfold fit_histogram, call. cbn [pmf_calls spline_parameters].
    split; [rewrite !length_app; simpl; lia | tauto].
  - unfold run_method, fit, report.
    change (String.eqb "kde" "histogram") with false.
    change (String.eqb "kde" "kde") with true.
    change (is_spline_method "kde") with false.
    cbn [mbind res_bind].
    replace (colors !! "kde"%string) with (Some "k-"%string) by (vm_compute; reflexivity).
    eexists. split; [reflexivity|]. unfold fit_kde, call. cbn [pmf_calls spline_parameters].
    split; [rewrite !length_app; simpl; lia | tauto].
  - destruct (ends_in_digit_last_char m Hd) as (c & Hc & Hdig).
    destruct (fit_spline_digit m st c Hc Hdig) as (d & Hfit & _).
    unfold run_method. rewrite (fit_of_spline_method getPMF_f_i g m st Hs), Hfit.
    cbn [mbind res_bind]. unfold report. destruct Hm as [col Hcol]. rewrite Hcol.
    eexists. split; [reflexivity|]. unfold call. cbn [pmf_calls spline_parameters].
    rewrite (spline_method_not_kde m Hs).
    split; [rewrite !length_app; simpl; lia|].
    split; [discriminate | intros [_ Hn]; congruence].
Qed.

Lemma run_methods_known (ms : list string) :
  forall st : script_state F,
    Forall (fun m => is_Some (colors !! m)) ms ->
    exists st', run_methods getPMF_f_i g ms st = Ok st' /\
      length (pmf_calls st') =
        (length (pmf_calls st) + 3 * length ms
         + length (filter (fun m => m = "kde"%string) ms))%nat /\
      (spline_parameters st' = None <->
       spline_parameters st = None /\ Forall (fun m => is_spline_method m = false) ms).
Proof.
  induction ms as [|m ms IH]; intros st Hall.
  - exists st. split; [reflexivity|]. split; [simpl; lia|].
    split; [intros Hn; split; [exact Hn | constructor] | intros [Hn _]; exact Hn].
  - apply Forall_cons in Hall as [Hm Hall].
    destruct (run_method_known m st Hm) as (st1 & H1 & Hlen1 & Hsp1).
    destruct (IH st1 Hall) as (st' & Hrun & Hlen & Hsp).
    exists st'. rewrite run_methods_cons, H1. cbn [mbind res_bind].
    split; [exact Hrun|]. split.
    + rewrite Hlen, Hlen1, filter_cons.
      destruct (String.eqb_spec m "kde") as [->|Hne].
      * rewrite decide_True by reflexivity. simpl. lia.
      * rewrite decide_False by exact Hne. simpl. lia.
    + rewrite Hsp, Hsp1, Forall_cons. tauto.
Qed.

(** X14. On a list of names that are all keys of [colors] the loop raises
    nothing: each name makes one generatePMF call and the two getPMF queries
    of the report, 'kde' one query more.  The call of SampleDistribution
    after the loop is reached when at least one name is of a spline family;
    with 'histogram' and 'kde' only, the name spline_parameters was never
    bound and line 291 raises NameError. *)
Theorem known_methods_complete (ms : list string) :
  Forall (fun m => is_Some (colors !! m)) ms ->
  exists st,
    run_methods getPMF_f_i g ms initial_state = Ok st /\
    length (pmf_calls st) =
      (3 * length ms + length (filter (fun m => m = "kde"%string) ms))%nat /\
    (Forall (fun m => is_spline_method m = false) ms ->
     script_tail getPMF_f_i g ms = Raise NameError) /\
    (Exists (fun m => is_spline_method m = true) ms ->
     exists d, spline_parameters st = Some d /\
       script_tail getPMF_f_i g ms = Ok (call (SampleDistribution "spline" d) st)).
Proof.
  intros Hall.
  destruct (run_methods_known ms initial_state Hall) as (st & Hrun & Hlen & Hsp).
  exists st. split; [exact Hrun|]. split; [exact Hlen|].
  unfold script_tail. rewrite Hrun. cbn [mbind res_bind]. unfold sample_posterior. split.
  - intros Hno. rewrite (proj2 Hsp (conj eq_refl Hno)). reflexivity.
  - intros Hex. destruct (spline_parameters st) as [d|] eqn:Hd.
    + exists d. split; reflexivity.
    + destruct (proj1 Hsp eq_refl) as [_ Hno].
      apply Exists_exists in Hex as (m & Hin & Hm).
      rewrite Forall_forall in Hno. specialize (Hno m Hin). congruence.
Qed.

(** X15. The first name that is not a key of [colors], when it is an ASCII
    name, ends the run: with ValueError at line 251 when it is of a spline
    family and does not end in a digit, and otherwise with KeyError at line
    278, after its fit and its two queries. *)
Theorem unknown_method_ends_run (pre post : list string) (m : string) :
  Forall (fun m => is_Some (colors !! m)) pre -> colors !! m = None ->
  is_ascii m = true ->
  run_methods getPMF_f_i g (pre ++ m :: post) initial_state =
    Raise (if is_spline_method m && negb (ends_in_digit m) then ValueError else KeyError).
Proof.
  intros Hpre Hm _.
  destruct (run_methods_known pre initial_state Hpre) as (st & Hrun & _).
  rewrite run_methods_app, Hrun. cbn [mbind res_bind]. rewrite run_methods_cons.
  unfold run_method.
  destruct (is_spline_method m) eqn:Hs.
  - rewrite (fit_of_spline_method getPMF_f_i g m st Hs).
    destruct (spline_method_last_char m Hs) as [c Hc].
    unfold ends_in_digit. rewrite Hc.
    destruct (is_digit c) eqn:Hd.
    + destruct (fit_spline_digit m st c Hc Hd) as (d & Hfit & _).
      rewrite Hfit. cbn [mbind res_bind]. unfold report. rewrite Hm. reflexivity.
    + rewrite (fit_spline_not_digit m st c Hc Hd). reflexivity.
  - unfold fit. rewrite Hs. cbn [mbind res_bind andb]. unfold report. rewrite Hm. reflexivity.
Qed.

End MethodList.

(** ** The flat list of retained torsions *)

Section Flatten.
Context {F : Type} `{Arith F}.
Variable to_int32 : F -> res Z.

Lemma retained_length (Ns : list nat) (rows : list (list F)) :
  Forall2 (fun n row => (n <= length row)%nat) Ns rows ->
  length (concat (zip_with take Ns rows)) = sum_list Ns.
Proof.
  induction 1 as [|n row Ns rows Hn _ IH]; [reflexivity|].
  simpl. rewrite length_app, length_take, IH. lia.
Qed.

Lemma convert_app (xs ys : list F) :
  mapM to_int32 (xs ++ ys) =
    (a ← mapM to_int32 xs; b ← mapM to_int32 ys; Ok (a ++ b)).
Proof.
  induction xs as [|x xs IH]; cbn [mapM app].
  - destruct (mapM to_int32 ys); reflexivity.
  - destruct (to_int32 x) as [z| |]; cbn [mbind res_bind]; try reflexivity.
    rewrite IH. destruct (mapM to_int32 xs) as [a| |]; cbn [mbind res_bind]; try reflexivity.
    destruct (mapM to_int32 ys); reflexivity.
Qed.

Lemma convert_length (xs : list F) (zs : list Z) :
  mapM to_int32 xs = Ok zs -> length zs = length xs.
Proof.
  revert zs. induction xs as [|x xs IH]; intros zs; cbn [mapM].
  - intros [= <-]. reflexivity.
  - intros (z & _ & Hrest)%bind_Ok_inv. apply bind_Ok_inv in Hrest as (zs' & Hzs & [= <-]).
    simpl. rewrite (IH zs' Hzs). reflexivity.
Qed.

(** Lines 171-174 for one window, from sample [s] on. *)
Lemma fill_row (rows : list (list F)) (k : nat) (row : list F) (n : nat) :
  rows !! k = Some row ->
  forall (s : nat) (x : list Z) (t : nat),
    (s + n <= length row)%nat -> (t + n <= length x)%nat ->
    for_each (seq s n)
      (fun n '(x_n, ntot) =>
         row ← index rows k;
         chi ← index row n;
         z ← to_int32 chi;
         x_n' ← store x_n ntot z;
         Ok (x_n', S ntot))
      (x, t) =
    (zs ← mapM to_int32 (take n (drop s row));
     Ok (take t x ++ zs ++ drop (t + n) x, (t + n)%nat)).
Proof.
  intros Hrow.
  set (body := fun (n : nat) '(x_n, ntot) =>
                 row ← index rows k;
                 chi ← index row n;
                 z ← to_int32 chi;
                 x_n' ← store x_n ntot z;
                 Ok (x_n', S ntot)).
  induction n as [|n IH]; intros s x t Hs Ht; cbn [seq for_each].
  - rewrite take_0. cbn [mapM mbind res_bind mret res_ret app].
    rewrite !Nat.add_0_r, take_drop. reflexivity.
  - destruct (lookup_lt_is_Some_2 row s) as [chi Hchi]; [lia|].
    assert (Hstep : body s (x, t) = (z ← to_int32 chi; Ok (<[t := z]> x, S t))).
    { unfold body. rewrite (index_Ok _ _ _ Hrow). cbn [mbind res_bind].
      rewrite (index_Ok _ _ _ Hchi). cbn [mbind res_bind].
      destruct (to_int32 chi) as [z| |]; cbn [mbind res_bind]; try reflexivity.
      rewrite store_Ok by lia. reflexivity. }
    rewrite Hstep. clear Hstep.
    rewrite (drop_S _ _ _ Hchi). cbn [take mapM].
    destruct (to_int32 chi) as [z| |]; cbn [mbind res_bind]; try reflexivity.
    rewrite IH by (rewrite ?length_insert; lia).
    destruct (mapM to_int32 (take n (drop (S s) row))) as [zs| |]; cbn [mbind res_bind mret res_ret];
      try reflexivity.
    f_equal. f_equal; [|lia].
    rewrite drop_insert_lt by lia.
    assert (Htake : take (S t) (<[t := z]> x) = take t x ++ [z]).
    { rewrite (take_S_r _ _ z) by (apply list_lookup_insert_eq; lia).
      rewrite take_insert_ge by lia. reflexivity. }
    rewrite Htake, <- app_assoc. cbn [app].
    replace (S t + n)%nat with (t + S n)%nat by lia. reflexivity.
Qed.

(** Lines 170-174 from window [k0] on. *)
Lemma fill_rows (Ns : list nat) (rows : list (list F)) :
  Forall2 (fun n row => (n <= length row)%nat) Ns rows ->
  forall (m k0 : nat) (x : list Z) (t : nat),
    (k0 + m <= length Ns)%nat ->
    (t + length (concat (take m (drop k0 (zip_with take Ns rows)))) <= length x)%nat ->
    for_each (seq k0 m)
      (fun k s =>
         Nk ← index Ns k;
         for_range Nk
           (fun n '(x_n, ntot) =>
              row ← index rows k;
              chi ← index row n;
              z ← to_int32 chi;
              x_n' ← store x_n ntot z;
              Ok (x_n', S ntot))
           s)
      (x, t) =
    (zs ← mapM to_int32 (concat (take m (drop k0 (zip_with take Ns rows))));
     Ok (take t x ++ zs
           ++ drop (t + length (concat (take m (drop k0 (zip_with take Ns rows))))) x,
         (t + length (concat (take m (drop k0 (zip_with take Ns rows)))))%nat)).
Proof.
  intros Hrows. set (zs_rows := zip_with take Ns rows).
  set (outer := fun (k : nat) (s : list Z * nat) =>
                  Nk ← index Ns k;
                  for_range Nk
                    (fun n '(x_n, ntot) =>
                       row ← index rows k;
                       chi ← index row n;
                       z ← to_int32 chi;
                       x_n' ← store x_n ntot z;
                       Ok (x_n', S ntot))
                    s).
  induction m as [|m IH]; intros k0 x t Hk Ht; cbn [seq for_each].
  - rewrite take_0. cbn [concat mapM mbind res_bind mret res_ret app length].
    rewrite !Nat.add_0_r, take_drop. reflexivity.
  - destruct (lookup_lt_is_Some_2 Ns k0) as [Nk HNk]; [lia|].
    destruct (lookup_lt_is_Some_2 rows k0) as [row Hrow].
    { rewrite <- (Forall2_length _ _ _ Hrows). lia. }
    assert (Hle : (Nk <= length row)%nat).
    { eapply Forall2_lookup_lr in Hrows; eauto. }
    assert (Hz : zs_rows !! k0 = Some (take Nk row)).
    { unfold zs_rows. apply lookup_zip_with_Some. exists Nk, row. auto. }
    rewrite (drop_S _ _ _ Hz) in Ht |- *. cbn [take concat] in Ht |- *.
    rewrite length_app, length_take in Ht.
    replace (Nk `min` length row)%nat with Nk in Ht by lia.
    assert (Hstep : outer k0 (x, t) =
              (zs ← mapM to_int32 (take Nk (drop 0 row));
               Ok (take t x ++ zs ++ drop (t + Nk) x, (t + Nk)%nat))).
    { unfold outer. rewrite (index_Ok _ _ _ HNk). cbn [mbind res_bind].
      unfold for_range. apply (fill_row rows k0 row Nk Hrow 0 x t); lia. }
    rewrite Hstep. clear Hstep.
    rewrite drop_0, convert_app.
    destruct (mapM to_int32 (take Nk row)) as [zs1| |] eqn:Hzs1; cbn [mbind res_bind];
      try reflexivity.
    pose proof (convert_length _ _ Hzs1) as Hl1. rewrite length_take in Hl1.
    replace (Nk `min` length row)%nat with Nk in Hl1 by lia.
    set (rest := concat (take m (drop (S k0) zs_rows))) in *.
    rewrite IH.
    2:{ lia. }
    2:{ fold rest. rewrite !length_app, length_take, length_drop. lia. }
    fold rest.
    destruct (mapM to_int32 rest) as [zs2| |]; cbn [mbind res_bind]; try reflexivity.
    rewrite length_app, length_take. replace (Nk `min` length row)%nat with Nk by lia.
    f_equal. f_equal; [|lia].
    assert (Ht1 : length (take t x) = t) by (rewrite length_take; lia).
    rewrite (app_assoc (take t x) zs1).
    rewrite take_app_length' by (rewrite length_app; lia).
    rewrite <- !app_assoc. f_equal. f_equal. f_equal.
    rewrite (app_assoc (take t x) zs1).
    rewrite drop_app_ge by (rewrite length_app; lia).
    rewrite length_app, Ht1, Hl1, drop_drop. f_equal. lia.
Qed.

(** X16. The loop of lines 169-174 converts the retained torsions
    chi_kn[k][0:N_k[k]] to int32 in order, window after window.  With at most
    as many retained samples per window as its row has columns no index is
    out of range: when every conversion returns, x_n holds the converted
    values and ntot = sum(N_k), and when a conversion raises (as numpy does
    on a NaN) the loop raises the same at the first such sample. *)
Theorem x_n_lists_retained_torsions (K : nat) (a : arrays F) :
  length (N_k a) = K ->
  Forall2 (fun n row => (n <= length row)%nat) (N_k a) (chi_kn a) ->
  fill_x_n to_int32 K a =
    (zs ← mapM to_int32 (concat (zip_with take (N_k a) (chi_kn a)));
     Ok (zs, sum_list (N_k a))).
Proof.
  intros HK Hrows. unfold fill_x_n, for_range.
  pose proof (retained_length _ _ Hrows) as HN.
  assert (Hall : take K (drop 0 (zip_with take (N_k a) (chi_kn a)))
                 = zip_with take (N_k a) (chi_kn a)).
  { rewrite drop_0. apply take_ge.
    rewrite length_zip_with, <- (Forall2_length _ _ _ Hrows). lia. }
  rewrite (fill_rows _ _ Hrows K 0) by (rewrite ?Hall, ?length_replicate; lia).
  rewrite Hall, HN.
  destruct (mapM to_int32 (concat (zip_with take (N_k a) (chi_kn a)))) as [zs| |] eqn:Hzs;
    cbn [mbind res_bind]; try reflexivity.
  pose proof (convert_length _ _ Hzs) as Hl. rewrite HN in Hl.
  rewrite take_0, drop_ge by (rewrite length_replicate; lia).
  cbn [app]. rewrite app_nil_r. reflexivity.
Qed.

End Flatten.

(** ** The further properties on concrete inputs *)

Lemma ingest_keeps_chosen_samples_witness :
  exists a, ingest 5 false 2 3 demo_windows = Ok a /\
    N_k a !! 1%nat = Some 2%nat /\
    exists c, wrap_chi 5 899%Q = Ok c /\ get2 (chi_kn a) 1 1 = Some c.
Proof.
  destruct (ingest_keeps_chosen_samples 5 false 2 3 demo_windows) as (a & Hrun & Ha).
  - reflexivity.
  - repeat constructor; simpl; lia.
  - repeat constructor; eexists; vm_compute; reflexivity.
  - exists a. split; [exact Hrun|].
    destruct (Ha 1%nat _ eq_refl) as [HN Hn]. split; [exact HN|].
    destruct (Hn 1%nat 2%nat eq_refl) as (Hchi & _ & _).
    apply (Hchi 899%Q). reflexivity.
Defined.

Lemma too_many_data_lines_raise_witness :
  ingest 5 true 2 2 demo_windows = Raise IndexError.
Proof.
  apply (too_many_data_lines_raise 5 true 2 2 0 demo_windows
           {| torsions := [190; -541; 3]%Q; energies := []; indices := [0; 2]%nat |}).
  - lia.
  - reflexivity.
  - constructor.
  - repeat constructor; eexists; vm_compute; reflexivity.
  - simpl. lia.
Defined.

Lemma read_centers_result_witness :
  (exists c, read_centers pi_Q 2 demo_center_lines_T = Ok c /\
     c_chi0_k c !! 1%nat = Some 170%Q /\
     c_K_k c !! 1%nat = Some (4 * (pi_Q / 180 * (pi_Q / 180)))%Q /\
     c_T_k c !! 1%nat = Some 600%Q) /\
  read_centers pi_Q 2 [[-170; 4]; [170]]%Q = Raise IndexError.
Proof.
  split.
  - destruct (proj1 (read_centers_result pi_Q 2 demo_center_lines_T))
      as (c & Hrun & _ & _ & _ & Hc).
    + simpl. lia.
    + repeat constructor; simpl; lia.
    + exists c. split; [exact Hrun|].
      destruct (Hc 1%nat [170; 4; 600]%Q) as (H0 & H1 & H2); [lia | reflexivity |].
      split; [exact H0|]. split; [exact H1 | exact H2].
  - apply (proj2 (read_centers_result pi_Q 2 [[-170; 4]; [170]]%Q) 1%nat).
    + lia.
    + simpl. lia.
    + repeat constructor; simpl; lia.
    + intros tokens [= <-]. simpl. lia.
Defined.

Lemma temperatures_differ_iff_witness :
  exists b, different_temperatures [300; 300; 600]%Q = Ok b /\
    (b = false <->
     forall x y, x ∈ [300; 300; 600]%Q -> y ∈ [300; 300; 600]%Q -> (x == y)%Q).
Proof. apply (proj2 temperatures_differ_iff [300; 300; 600]%Q). discriminate. Defined.

Lemma prepare_returns_witness :
  exists c dt,
    read_centers pi_Q 2 demo_center_lines = Ok c /\
    different_temperatures (c_T_k c) = Ok dt /\
    forall a,
      ingest_ts keep_all 5 dt 2 3
        (zip_with lines_of (beta_of_temperatures kB_Q (c_T_k c)) demo_files) = Ok a ->
      exists r,
        prepare_ts keep_all 5 pi_Q kB_Q 2 3 demo_center_lines demo_files = Ok r /\
        p_DifferentTemperatures r = dt /\
        N_k (p_arrays r) = N_k a /\ chi_kn (p_arrays r) = chi_kn a /\
        well_formed 2 3 (p_umbrellas r) (p_arrays r) /\
        (forall k l n, sampled (p_arrays r) k n -> (l < 2)%nat ->
           is_Some (get3 (p_u_kln r) k l n)).
Proof.
  apply (prepare_returns keep_all pi_Q kB_Q 2 3 demo_center_lines demo_files 5).
  - lia.
  - lia.
  - simpl. lia.
  - repeat constructor.
Defined.

(** The two demo windows are prepared in full when the subsampler keeps
    every sample, with equal temperatures and with different ones. *)
Example prepare_ts_demo :
  (exists r, prepare_ts keep_all 5 pi_Q kB_Q 2 3 demo_center_lines demo_files = Ok r /\
     p_DifferentTemperatures r = false /\ N_k (p_arrays r) = [3; 3]%nat) /\
  (exists r, prepare_ts keep_all 5 pi_Q kB_Q 2 3 demo_center_lines_T demo_files = Ok r /\
     p_DifferentTemperatures r = true /\ N_k (p_arrays r) = [3; 3]%nat).
Proof.
  split; (eexists; split; [vm_compute; reflexivity|]; split; reflexivity).
Qed.

Lemma equal_temperatures_give_bias_alone_witness :
  exists r, prepare 5 pi_Q kB_Q 2 3 demo_center_lines demo_files = Ok r /\
    (forall k n x, get2 (u_kn (p_arrays r)) k n = Some x -> (x == 0)%Q) /\
    (forall k l n chi,
       sampled (p_arrays r) k n -> (l < 2)%nat ->
       get2 (chi_kn (p_arrays r)) k n = Some chi ->
       exists e v,
         get3 (p_u_kln r) k l n = Some e /\
         bias_potential (p_umbrellas r) chi l = Ok v /\ (e == v)%Q).
Proof.
  destruct (prepare 5 pi_Q kB_Q 2 3 demo_center_lines demo_files) as [r| |] eqn:Hr;
    [| vm_compute in Hr; discriminate Hr ..].
  exists r. split; [reflexivity|].
  apply (equal_temperatures_give_bias_alone pi_Q kB_Q 2 3 demo_center_lines demo_files 5 r).
  - unfold inputs_fit. simpl.
    split; [lia|]. split; [lia|]. split; [lia|].
    split; [repeat constructor|]. split; [reflexivity|].
    repeat constructor; simpl; lia.
  - repeat constructor; eexists; vm_compute; reflexivity.
  - exact Hr.
  - vm_compute in Hr. injection Hr as <-. reflexivity.
Defined.

Lemma different_temperatures_give_reduced_energies_witness :
  exists r m,
    prepare 5 pi_Q kB_Q 2 3 demo_center_lines_T demo_files = Ok r /\
    beta_k (p_umbrellas r) !! 1%nat = Some (1 / (kB_Q * 600))%Q /\
    get2 (u_kn (p_arrays r)) 1 0 = Some (1 / (kB_Q * 600) * (4 - 1) - m)%Q.
Proof.
  destruct (prepare 5 pi_Q kB_Q 2 3 demo_center_lines_T demo_files) as [r| |] eqn:Hr;
    [| vm_compute in Hr; discriminate Hr ..].
  destruct (different_temperatures_give_reduced_energies pi_Q kB_Q 2 3
              demo_center_lines_T demo_files 5 r) as (m & c & Hc & Hu).
  - unfold inputs_fit. simpl.
    split; [lia|]. split; [lia|]. split; [lia|].
    split; [repeat constructor; simpl; lia|]. split; [reflexivity|].
    repeat constructor; simpl; lia.
  - repeat constructor; eexists; vm_compute; reflexivity.
  - exact Hr.
  - vm_compute in Hr. injection Hr as <-. reflexivity.
  - exists r, m. split; [reflexivity|].
    apply (Hu 1%nat _ 0%nat 1%nat 1%Q 4%Q 600%Q eq_refl eq_refl eq_refl).
    vm_compute in Hc. injection Hc as <-. reflexivity.
Defined.

Lemma u_kln_padding_stays_zero_witness :
  exists u, build_u_kln 2 demo_umbrellas demo_arrays = Ok u /\
    shape3 2 2 2 u /\ get3 u 1 0 1 = Some 0%Q.
Proof.
  destruct (u_kln_padding_stays_zero 2 3 demo_umbrellas demo_arrays) as (u & Hrun & Hsh & Hu).
  { unfold well_formed. simpl. repeat split; repeat constructor. }
  exists u. split; [exact Hrun|]. split; [exact Hsh|].
  apply (Hu 1 0 1 1)%nat; [reflexivity | lia | simpl; lia].
Defined.


Lemma u_kln_bias_is_bounded_witness :
  exists u, build_u_kln 2 demo_umbrellas demo_arrays = Ok u /\
    exists e, get3 u 0 1 0 = Some e /\ (1 <= e)%Q /\
      ((Qabs (175 - 170) <= 360)%Q -> (e <= 1 + 1 * (4 / 2) * (180 * 180))%Q).
Proof.
  destruct (u_kln_bias_is_bounded 2 3 demo_umbrellas demo_arrays) as (u & Hrun & Hu).
  - unfold well_formed. simpl. repeat split; repeat constructor.
  - repeat constructor; vm_compute; discriminate.
  - repeat constructor; vm_compute; discriminate.
  - exists u. split; [exact Hrun|].
    apply (Hu 0 1 0 2 175%Q 1%Q 170%Q 4%Q 1%Q)%nat; try reflexivity. lia.
Defined.

Lemma rezero_is_idempotent_witness :
  exists m' a'', amin [[3; 0]; [5; 2]]%Q = Ok m' /\ (m' == 0)%Q /\
    rezero [[3; 0]; [5; 2]]%Q = Ok a'' /\
    forall k n x, get2 [[3; 0]; [5; 2]]%Q k n = Some x ->
      exists y, get2 a'' k n = Some y /\ (y == x)%Q.
Proof.
  apply (rezero_is_idempotent [[1; -2]; [3; 0]]%Q [[3; 0]; [5; 2]]%Q). reflexivity.
Defined.

Lemma spline_weights_by_family_witness :
  exists d w,
    fit demo_profile demo_grid "weighted-5" initial_state =
      Ok {| f_i_kde := None; spline_parameters := Some d;
            pmf_calls := [] ++ [GeneratePMF "spline" d] |} /\
    d !! "spline_weights"%string = Some (VStr w) /\ w = "weightedsum"%string.
Proof.
  destruct (spline_weights_by_family demo_profile demo_grid "weighted-5" initial_state)
    as (d & w & Hfit & Hw & _ & _ & H3 & _); [reflexivity | reflexivity |].
  exists d, w. split; [exact Hfit|]. split; [exact Hw|]. apply H3. reflexivity.
Defined.

Lemma known_methods_complete_witness :
  exists st,
    run_methods demo_profile demo_grid ["histogram"; "kde"]%string initial_state = Ok st /\
    length (pmf_calls st) = 7%nat /\
    script_tail demo_profile demo_grid ["histogram"; "kde"]%string = Raise NameError.
Proof.
  destruct (known_methods_complete demo_profile demo_grid ["histogram"; "kde"]%string)
    as (st & Hrun & Hlen & Hno & _).
  { apply Forall_cons. split; [eexists; vm_compute; reflexivity|].
    apply Forall_cons. split; [eexists; vm_compute; reflexivity|]. constructor. }
  exists st. split; [exact Hrun|]. split; [exact Hlen|].
  apply Hno. repeat constructor.
Defined.

Lemma unknown_method_ends_run_witness :
  run_methods demo_profile demo_grid ["kde"; "kl-7"; "simple-3"]%string initial_state =
    Raise KeyError /\
  run_methods demo_profile demo_grid ["kde"; "simple"; "simple-3"]%string initial_state =
    Raise ValueError.
Proof.
  split.
  - apply (unknown_method_ends_run demo_profile demo_grid ["kde"%string]
             ["simple-3"%string] "kl-7").
    + apply Forall_cons. split; [eexists; vm_compute; reflexivity | constructor].
    + vm_compute. reflexivity.
    + reflexivity.
  - apply (unknown_method_ends_run demo_profile demo_grid ["kde"%string]
             ["simple-3"%string] "simple").
    + apply Forall_cons. split; [eexists; vm_compute; reflexivity | constructor].
    + vm_compute. reflexivity.
    + reflexivity.
Defined.

Lemma x_n_lists_retained_torsions_witness :
  fill_x_n to_int32_Q 2 demo_arrays = Ok ([175; 0; -175]%Z, 3%nat).
Proof.
  rewrite (x_n_lists_retained_torsions to_int32_Q 2 demo_arrays).
  - reflexivity.
  - reflexivity.
  - repeat constructor; simpl; lia.
Defined.
